(** * Open Echo sonar receiver: frame decoding and echo processing

    A shallow embedding of the Node.js programs of the sonar web plotter:
    the serial [port.on('data')] handlers that cut fixed-size packets out of
    the byte stream, the echo helpers ([calculateNoiseFloor],
    [findBlindZoneEnd], [findPrimaryReflection],
    [applyExponentialSmoothing]) and the [SignalTracker] of the serial
    console.

    Bytes, sample values and indices are JavaScript numbers that only ever
    hold integers; they are modelled as [Z].  Distances are genuine
    floating-point numbers: the arithmetic on them is kept abstract in the
    class [JsNum], instantiated by IEEE binary64, the numbers Node.js
    computes with. What is proved of their values is proved from the
    rounding of each operation.

    Further parts cover the Arduino sketches that produce the packets
    ([sendData] and the SPI command framing), the plotter server for 900
    samples, the data handler of the console, the binary messages of the
    sonar handlers and the throttled database logger. *)

From Stdlib Require Import ZArith List Bool Lia Floats QArith Qabs Qround Qpower Lqa.
From stdpp Require Import gmap list.
Import ListNotations.

Local Open Scope Z_scope.
Set Warnings "-inexact-float".

(** ** JavaScript numbers *)

(** The operations the programs apply to non-integer numbers. [num_dec m k]
    is the decimal literal [m * 10^-k] (for instance [0.2178] is
    [num_dec 2178 4]). *)
Class JsNum (num : Type) : Type := {
  num_of_Z : Z -> num;
  num_dec : Z -> nat -> num;
  num_add : num -> num -> num;
  num_sub : num -> num -> num;
  num_mul : num -> num -> num;
  num_div : num -> num -> num;
  num_leb : num -> num -> bool
}.

(** An integer as a binary64 value, rounded to nearest-even. *)
Definition float_of_Z (z : Z) : float :=
  SF2Prim (binary_normalize prec emax z 0 false).

(** IEEE 754 binary64: the numbers of the running program. A decimal
    literal denotes the double nearest to it, which is what the correctly
    rounded quotient of two exactly representable integers gives. *)
#[export] Instance float_JsNum : JsNum float := {|
  num_of_Z := float_of_Z;
  num_dec := fun m k => PrimFloat.div (float_of_Z m) (float_of_Z (10 ^ Z.of_nat k));
  num_add := PrimFloat.add;
  num_sub := PrimFloat.sub;
  num_mul := PrimFloat.mul;
  num_div := PrimFloat.div;
  num_leb := PrimFloat.leb
|}.

(** ** The value of a binary64 number *)

(** The rational number a finite binary64 value stands for (0 for the
    infinities and [NaN], which [SFfinite] excludes). *)
Definition SF2Q (x : spec_float) : Q :=
  match x with
  | S754_finite s m e => (inject_Z (cond_Zopp s (Zpos m)) * 2 ^ e)%Q
  | _ => 0%Q
  end.

Definition SFfinite (x : spec_float) : bool :=
  match x with
  | S754_finite _ _ _ | S754_zero _ => true
  | _ => false
  end.

Definition F2Q (x : float) : Q := SF2Q (Prim2SF x).
Definition is_finite (x : float) : bool := SFfinite (Prim2SF x).

(** The unit roundoff and half the spacing of the subnormal numbers. *)
Definition u64 : Q := (2 ^ (-53))%Q.
Definition eta64 : Q := (2 ^ (-1075))%Q.

(** [mrs] is [m0] shifted right by [k] bits, the round and sticky bits
    telling where the bits shifted out lie. *)
Definition represents (m0 k : Z) (mrs : shr_record) : Prop :=
  exists R,
    m0 = shr_m mrs * 2 ^ k + R /\ 0 <= R < 2 ^ k /\ 0 <= shr_m mrs /\
    (shr_r mrs = true <-> 2 ^ k <= 2 * R) /\
    (shr_s mrs = true <-> R <> 0 /\ 2 * R <> 2 ^ k).

(** ** Echo processing (server.js, server-gps-d3-serial.js,
       sonar_gps_data_logger_throttled_writes.js) *)

Module Echo.
Section WithNumbers.
Context {num : Type} `{JsNum num}.

Definition EMA_ALPHA : num := num_dec 1 1.
Definition NOISE_FLOOR_RANGE : Z := 100.
Definition SAMPLE_RESOLUTION : num := num_dec 2178 4.

(** [{ value, index, distance, blindZoneEndIndex }] *)
Record Reflection : Type := mkReflection {
  value : Z;
  index : Z;
  distance : num;
  blindZoneEndIndex : Z
}.

(** [samples.reduce((acc, val) => acc + val, 0)]: the samples are 16-bit
    readings, so every partial sum is an integer below 2^53 and the
    additions are exact. *)
Definition sumSamples (tailSamples : list Z) : Z :=
  fold_left (fun acc val => acc + val) tailSamples 0.

Definition calculateNoiseFloor (samples : list Z) : num :=
  let start := Z.of_nat (length samples) - NOISE_FLOOR_RANGE in
  if start <? 0 then num_of_Z 0
  else
    let tailSamples := drop (Z.to_nat start) samples in
    let sum := sumSamples tailSamples in
    num_div (num_of_Z sum) (num_of_Z NOISE_FLOOR_RANGE).

(** The [for] loop of [findBlindZoneEnd]: [i] is the loop counter, [rest]
    the samples from index [i] on, [count] the iterations left before
    [i] reaches [Math.min(samples.length, searchLimit)]. *)
Fixpoint blindZoneLoop (threshold : num) (rest : list Z) (i : Z) (count : nat)
    {struct count} : Z :=
  match count, rest with
  | S count', s :: rest' =>
      if num_leb (num_of_Z s) threshold then i
      else blindZoneLoop threshold rest' (i + 1) count'
  | _, _ => 150
  end.

Definition findBlindZoneEnd (samples : list Z) (noiseFloor : num) : Z :=
  let searchLimit := 500%nat in
  let threshold := num_mul noiseFloor (num_dec 12 1) in
  blindZoneLoop threshold samples 0 (Nat.min (length samples) searchLimit).

(** The [for] loop of [findPrimaryReflection]: [rest] holds the samples
    from index [i] to the end. *)
Fixpoint peakLoop (rest : list Z) (i maxValue maxIndex : Z) : Z * Z :=
  match rest with
  | [] => (maxValue, maxIndex)
  | s :: rest' =>
      if maxValue <? s then peakLoop rest' (i + 1) s i
      else peakLoop rest' (i + 1) maxValue maxIndex
  end.

Definition findPrimaryReflection (samples : list Z) : Reflection :=
  if (length samples =? 0)%nat then
    {| value := 0; index := -1; distance := num_of_Z 0; blindZoneEndIndex := 0 |}
  else
    let noiseFloor := calculateNoiseFloor samples in
    let startIndex := findBlindZoneEnd samples noiseFloor in
    let '(maxValue, maxIndex) :=
      peakLoop (drop (Z.to_nat startIndex) samples) startIndex 0 (-1) in
    let rawDistanceCm := num_mul (num_of_Z maxIndex) SAMPLE_RESOLUTION in
    {| value := maxValue; index := maxIndex; distance := rawDistanceCm;
       blindZoneEndIndex := startIndex |}.

(** The global [lastSmoothedDistance] ([null] at start) is threaded
    through: the result is the returned number and the new global. *)
Definition applyExponentialSmoothing (lastSmoothedDistance : option num)
    (currentDistance : num) : num * option num :=
  match lastSmoothedDistance with
  | None => (currentDistance, Some currentDistance)
  | Some last =>
      let smoothedDistance :=
        num_add (num_mul EMA_ALPHA currentDistance)
                (num_mul (num_sub (num_of_Z 1) EMA_ALPHA) last) in
      (smoothedDistance, Some smoothedDistance)
  end.

(** What the three pipelines do with the samples of one packet up to the
    quality gate:
<<
    const reflection = findPrimaryReflection(rawSamples);
    const smoothedDistance = applyExponentialSmoothing(reflection.distance);
    if (reflection.value < 50) { ...skip the frame... }
>>
    [skipped] tells whether the gate dropped the frame. What happens to a
    frame that passes the gate (WebSocket push, throttled database write,
    batch collection) differs between the programs and is not modelled;
    none of it touches [lastSmoothedDistance]. server.js builds its binary
    message between the two statements; an exception raised there is
    caught after the smoother has run, and the packet is dropped all the
    same. *)
Record FrameResult : Type := mkFrameResult {
  reflection : Reflection;
  smoothedDistance : num;
  skipped : bool;
  lastSmoothedDistance' : option num
}.

Definition processSamples (lastSmoothedDistance : option num)
    (rawSamples : list Z) : FrameResult :=
  let reflection := findPrimaryReflection rawSamples in
  let '(smoothedDistance, last') :=
    applyExponentialSmoothing lastSmoothedDistance (distance reflection) in
  {| reflection := reflection;
     smoothedDistance := smoothedDistance;
     skipped := value reflection <? 50;
     lastSmoothedDistance' := last' |}.

(** A call of the smoother on the raw value [v] followed by [n] more calls
    on the same value; the result is the number returned by the last call
    and the final state. *)
Fixpoint smoothRepeat (n : nat) (last : option num) (v : num) : num * option num :=
  match n with
  | O => applyExponentialSmoothing last v
  | S n' =>
      let '(_, last') := applyExponentialSmoothing last v in
      smoothRepeat n' last' v
  end.

End WithNumbers.
Arguments Reflection : clear implicits.
Arguments FrameResult : clear implicits.
End Echo.

(** ** Node.js [Buffer] operations used by the decoders *)

Module Buf.

(** [buffer.indexOf(value)]: position of the first occurrence, [-1] when
    there is none. *)
Fixpoint indexOf (buffer : list Z) (value : Z) : Z :=
  match buffer with
  | [] => -1
  | b :: rest =>
      if b =? value then 0
      else let r := indexOf rest value in
           if r =? -1 then -1 else 1 + r
  end.

(** [buffer.slice(start, end)] / [buffer.subarray(start, end)] for
    [0 <= start <= end]; an [end] beyond the buffer is clamped. *)
Definition slice (buffer : list Z) (start stop : nat) : list Z :=
  take (stop - start) (drop start buffer).

(** [buffer.readUInt16BE(offset)]; [None] stands for the [RangeError]
    thrown when the two bytes are not inside the buffer. *)
Definition readUInt16BE (buffer : list Z) (offset : nat) : option Z :=
  match buffer !! offset, buffer !! S offset with
  | Some hi, Some lo => Some (hi * 2 ^ 8 + lo)
  | _, _ => None
  end.

(** [buffer.readInt16BE(offset)]: the same two bytes read as a signed
    two's-complement value. *)
Definition readInt16BE (buffer : list Z) (offset : nat) : option Z :=
  match readUInt16BE buffer offset with
  | Some u => Some (if Z.testbit u 15 then u - 65536 else u)
  | None => None
  end.

(** [for (const byte of payload) calculatedChecksum ^= byte] from 0. *)
Definition xorBytes (payload : list Z) : Z :=
  fold_left Z.lxor payload 0.

(** The loop [for (i = 0; i < n; i++) out.push(buf.readUInt16BE(base + i * 2))]. *)
Fixpoint readSamples (buffer : list Z) (base : nat) (i n : nat) : option (list Z) :=
  match n with
  | O => Some []
  | S n' =>
      match readUInt16BE buffer (base + i * 2) with
      | None => None
      | Some v =>
          match readSamples buffer base (S i) n' with
          | None => None
          | Some vs => Some (v :: vs)
          end
      end
  end.

End Buf.

(** ** The streaming decoder of server.js ([port.on('data', ...)]); the
       same loop is [serialBufferHandler] of the throttled logger and the
       handler inside [sonarPacketHandler] and [startComPortListener]. *)

Module Decoder.
Import Buf.

Definition NUM_SAMPLES : nat := 1800.
Definition PACKET_SIZE : nat := 1 + 6 + 2 * NUM_SAMPLES + 1.
Definition HEADER_BYTE : Z := 0xAA.

(** The unpacked packet handed to the WebSocket clients. The handler
    derives [depth], [temperature] and [driveVoltage] from the three
    metadata fields by a scaling and [toFixed(1)]; the fields are kept as
    they were read. *)
Record Frame : Type := mkFrame {
  depthIndex : Z;
  tempScaled : Z;
  vDrvScaled : Z;
  samples : list Z
}.

(** The body of the [try] block; [None] is an exception, which the
    [catch] logs and swallows. *)
Definition unpack (payload : list Z) : option Frame :=
  match readUInt16BE payload 0, readInt16BE payload 2, readUInt16BE payload 4 with
  | Some depthIndex, Some tempScaled, Some vDrvScaled =>
      let samplesBuffer := drop 6 payload in
      if negb (length samplesBuffer =? NUM_SAMPLES * 2)%nat then None
      else
        match readSamples samplesBuffer 0 0 NUM_SAMPLES with
        | Some samples => Some (mkFrame depthIndex tempScaled vDrvScaled samples)
        | None => None
        end
  | _, _, _ => None
  end.

(** The checksum pair [(receivedChecksum, calculatedChecksum)] the handler
    computes for a packet. A difference only triggers [console.warn]. *)
Definition checksums (packet : list Z) : option Z * Z :=
  let payload := slice packet 1 (PACKET_SIZE - 1) in
  (packet !! (PACKET_SIZE - 1)%nat, xorBytes payload).

(** One packet at the front of the buffer: the frames sent to the clients
    (one, or none when unpacking threw). *)
Definition processPacket (packet : list Z) : list Frame :=
  let payload := slice packet 1 (PACKET_SIZE - 1) in
  match unpack payload with
  | Some frame => [frame]
  | None => []
  end.

(** The [while (buffer.length >= PACKET_SIZE)] loop. Every iteration that
    does not leave the loop removes [PACKET_SIZE] bytes, so [fuel] above
    the buffer length is never used up; [None] means it was. The result
    is the frames sent, in order, and the buffer left behind. *)
Fixpoint drain (fuel : nat) (buffer : list Z) : option (list Frame * list Z) :=
  match fuel with
  | O => None
  | S fuel' =>
      if (PACKET_SIZE <=? length buffer)%nat then
        let headerIndex := indexOf buffer HEADER_BYTE in
        if headerIndex =? -1 then Some ([], [])
        else
          let buffer1 :=
            if 0 <? headerIndex then drop (Z.to_nat headerIndex) buffer else buffer in
          if (0 <? headerIndex) && (length buffer1 <? PACKET_SIZE)%nat
          then Some ([], buffer1)
          else
            let packet := slice buffer1 0 PACKET_SIZE in
            match drain fuel' (drop PACKET_SIZE buffer1) with
            | Some (frames, buffer') => Some (processPacket packet ++ frames, buffer')
            | None => None
            end
      else Some ([], buffer)
  end.

(** The handler: [buffer = Buffer.concat([buffer, data])], then the loop. *)
Definition on_data (buffer data : list Z) : option (list Frame * list Z) :=
  drain (S (length (buffer ++ data))) (buffer ++ data).

(** The handler run on successive chunks, starting from [buffer]. *)
Fixpoint ingest (buffer : list Z) (chunks : list (list Z)) : option (list Frame * list Z) :=
  match chunks with
  | [] => Some ([], buffer)
  | data :: chunks' =>
      match on_data buffer data with
      | None => None
      | Some (frames, buffer') =>
          match ingest buffer' chunks' with
          | None => None
          | Some (frames', buffer'') => Some (frames ++ frames', buffer'')
          end
      end
  end.

End Decoder.

(** ** The serial console (debugging/console_1800.js) *)

Module Console.
Import Buf.

Definition NUM_SAMPLES : nat := 1800.
Definition PAYLOAD_LEN : nat := 6 + 2 * NUM_SAMPLES.
Definition PACKET_LEN : nat := 1 + PAYLOAD_LEN + 1.
Definition PACKET_HEADER : Z := 0xAA.

Definition THRESHOLD : Z := 60.
Definition CONSISTENCY_SAMPLES : nat := 3.
Definition POSITION_TOLERANCE : Z := 5.

(** *** [class SignalTracker] *)

(** [buffer] holds the peak-index lists of the last frames, oldest
    first; [consistentIndices] is the [Set] the last update returned. *)
Record SignalTracker : Type := mkSignalTracker {
  buffer : list (list Z);
  bufferSize : nat;
  threshold : Z;
  tolerance : Z;
  consistentIndices : gset Z
}.

(** [constructor(bufferSize, threshold, tolerance)] *)
Definition newSignalTracker (bufferSize : nat) (threshold tolerance : Z) : SignalTracker :=
  {| buffer := []; bufferSize := bufferSize; threshold := threshold;
     tolerance := tolerance; consistentIndices := ∅ |}.

(** Step 1: the indices [i] with [currentValues[i] >= threshold], in
    increasing order; [rest] holds the values from index [i] on. *)
Fixpoint peakIndices (threshold : Z) (rest : list Z) (i : Z) : list Z :=
  match rest with
  | [] => []
  | v :: rest' =>
      if threshold <=? v then i :: peakIndices threshold rest' (i + 1)
      else peakIndices threshold rest' (i + 1)
  end.

(** The innermost loop: does some past peak lie in [minIdx, maxIdx]? *)
Definition isMatch (tolerance : Z) (index : Z) (pastPeakIndices : list Z) : bool :=
  let minIdx := Z.max 0 (index - tolerance) in
  let maxIdx := Z.min (Z.of_nat NUM_SAMPLES - 1) (index + tolerance) in
  existsb (fun pIdx => (minIdx <=? pIdx) && (pIdx <=? maxIdx)) pastPeakIndices.

(** The middle loop over [this.buffer[0 .. length - 2]]. *)
Definition isConsistent (tolerance : Z) (previous : list (list Z)) (index : Z) : bool :=
  forallb (isMatch tolerance index) previous.

(** The outer loop, filling the object [indexCounts]. *)
Definition countConsistent (tolerance : Z) (previous : list (list Z))
    (latest : list Z) : gmap Z Z :=
  fold_left
    (fun (indexCounts : gmap Z Z) index =>
       if isConsistent tolerance previous index
       then <[index := default 0 (indexCounts !! index) + 1]> indexCounts
       else indexCounts)
    latest ∅.

(** [updateAndGetConsistentIndices(currentValues)]: the tracker after the
    call and the returned set. [None] is the [TypeError] raised by
    iterating [this.buffer[-1]] when the buffer is empty after the push
    (a tracker built with [bufferSize] 0). *)
Definition updateAndGetConsistentIndices (t : SignalTracker) (currentValues : list Z)
    : option (SignalTracker * gset Z) :=
  let currentPeakIndices := peakIndices (threshold t) currentValues 0 in
  let pushed := buffer t ++ [currentPeakIndices] in
  let buffer' := if (bufferSize t <? length pushed)%nat then drop 1 pushed else pushed in
  if (length buffer' <? bufferSize t)%nat then
    Some (mkSignalTracker buffer' (bufferSize t) (threshold t) (tolerance t) ∅, ∅)
  else
    match last buffer' with
    | None => None
    | Some latest =>
        let previous := take (length buffer' - 1) buffer' in
        let indexCounts := countConsistent (tolerance t) previous latest in
        let result : gset Z := dom indexCounts in
        Some (mkSignalTracker buffer' (bufferSize t) (threshold t) (tolerance t) result,
              result)
    end.

(** The tracker fed with successive frames; the set it holds at the end
    is the one the last update returned. *)
Fixpoint feed (t : SignalTracker) (frames : list (list Z)) : option (SignalTracker * gset Z) :=
  match frames with
  | [] => Some (t, consistentIndices t)
  | currentValues :: frames' =>
      match updateAndGetConsistentIndices t currentValues with
      | None => None
      | Some (t', _) => feed t' frames'
      end
  end.

(** *** [extractAndProcessPacket] *)

(** The parsed packet; [depthCm], [temperature] and [driveVoltage] are
    scalings of the three metadata fields, which are kept as read. *)
Record Packet : Type := mkPacket {
  values : list Z;
  depthIndex : Z;
  tempScaled : Z;
  vDrvScaled : Z
}.

(** The header search [for (i = 0; i <= buffer.length - PACKET_LEN; i++)]:
    [rest] is the buffer from index [i] on, [count] the iterations left. *)
Fixpoint headerLoop (rest : list Z) (i : Z) (count : nat) {struct count} : Z :=
  match count, rest with
  | S count', b :: rest' =>
      if b =? PACKET_HEADER then i else headerLoop rest' (i + 1) count'
  | _, _ => -1
  end.

Definition findHeader (buffer : list Z) : Z :=
  headerLoop buffer 0
    (Z.to_nat (Z.of_nat (length buffer) - Z.of_nat PACKET_LEN + 1)).

(** Step 3, the reads on a payload whose checksum was accepted; [None]
    is an exception (caught by the [catch], [packet] stays [null]). *)
Definition unpackPayload (payload : list Z) : option Packet :=
  match readUInt16BE payload 0, readInt16BE payload 2, readUInt16BE payload 4 with
  | Some depthIndex, Some tempScaled, Some vDrvScaled =>
      match readSamples payload 6 0 NUM_SAMPLES with
      | Some values => Some (mkPacket values depthIndex tempScaled vDrvScaled)
      | None => None
      end
  | _, _, _ => None
  end.

(** [extractAndProcessPacket()], with the global [buffer] threaded
    through: the returned packet ([None] for [null]) and the buffer
    afterwards. The function calls itself after dropping a header whose
    checksum failed, and every such call nests one activation deeper in
    the JavaScript call stack. [stack] is the number of nested
    activations the stack still has room for below the current one; it
    depends on the engine and is a parameter. An activation that no
    longer fits throws a [RangeError] (maximum call stack size exceeded)
    before it has changed anything, in its own [try] or in that of its
    caller; the [catch] logs it and [null] is returned through all the
    callers, with the buffer as the enclosing activations trimmed it.
    The re-entry flag [isReading] is false on every entry (it is cleared
    before each return and before the recursive call) and is left out. *)
Fixpoint extractAndProcessPacket (stack : nat) (buffer : list Z) {struct stack}
    : option Packet * list Z :=
  let headerIndex := findHeader buffer in
  if (headerIndex =? -1)
     || (Z.of_nat (length buffer) <? headerIndex + Z.of_nat PACKET_LEN)
  then (None, buffer)
  else
    let h := Z.to_nat headerIndex in
    let potentialPacket := slice buffer h (h + PACKET_LEN) in
    let payload := slice potentialPacket 1 (1 + PAYLOAD_LEN) in
    let receivedChecksum := potentialPacket !! (PACKET_LEN - 1)%nat in
    let calculatedChecksum := xorBytes payload in
    if negb (bool_decide (Some calculatedChecksum = receivedChecksum)) then
      match stack with
      | O => (None, drop (h + 1) buffer)
      | S stack' => extractAndProcessPacket stack' (drop (h + 1) buffer)
      end
    else
      match unpackPayload payload with
      | Some packet => (Some packet, drop (h + PACKET_LEN) buffer)
      | None => (None, buffer)
      end.

End Console.

(** ** Vocabulary of the statements *)

Module Spec.

(** [samples[i]], for an index inside the array. *)
Definition sampleAt (samples : list Z) (i : Z) : Z :=
  nth (Z.to_nat i) samples 0.

(** [v] is the largest sample of the window [[start, length samples)]. *)
Definition windowMax (samples : list Z) (start v : Z) : Prop :=
  (exists i, start <= i < Z.of_nat (length samples) /\ sampleAt samples i = v) /\
  (forall i, start <= i < Z.of_nat (length samples) -> sampleAt samples i <= v).

(** [k] is the lowest index of the window at which [v] occurs. *)
Definition firstAt (samples : list Z) (start v k : Z) : Prop :=
  start <= k < Z.of_nat (length samples) /\
  sampleAt samples k = v /\
  (forall i, start <= i < k -> sampleAt samples i <> v).

(** Some sample of the window is strictly positive. *)
Definition windowPositive (samples : list Z) (start : Z) : Prop :=
  exists i, start <= i < Z.of_nat (length samples) /\ 0 < sampleAt samples i.

(** The buffer from its first header byte on (empty when it has none). *)
Fixpoint skipJunk (buffer : list Z) : list Z :=
  match buffer with
  | [] => []
  | b :: rest => if b =? Decoder.HEADER_BYTE then buffer else skipJunk rest
  end.

(** The packets a greedy left-to-right reading cuts out of a byte
    sequence: skip to the next header byte, take [PACKET_SIZE] bytes,
    repeat. The second component is what is left, from a header on. *)
Fixpoint scan (fuel : nat) (stream : list Z) : list Decoder.Frame * list Z :=
  let buffer1 := skipJunk stream in
  match fuel with
  | O => ([], buffer1)
  | S fuel' =>
      if (length buffer1 <? Decoder.PACKET_SIZE)%nat then ([], buffer1)
      else
        let '(frames, rest) := scan fuel' (drop Decoder.PACKET_SIZE buffer1) in
        (Decoder.processPacket (take Decoder.PACKET_SIZE buffer1) ++ frames, rest)
  end.

Definition scanAll (stream : list Z) : list Decoder.Frame * list Z :=
  scan (length stream) stream.

(** A stream made of packets, each preceded by junk, and trailing junk. *)
Fixpoint interleave (blocks : list (list Z * list Z)) (trailing : list Z) : list Z :=
  match blocks with
  | [] => trailing
  | (junk, packet) :: blocks' => junk ++ packet ++ interleave blocks' trailing
  end.

(** A well-formed packet on the wire: the header byte, then
    [PACKET_SIZE - 1] further bytes. *)
Definition framed (packet : list Z) : Prop :=
  length packet = Decoder.PACKET_SIZE /\ packet !! 0%nat = Some Decoder.HEADER_BYTE.

Definition headerFree (junk : list Z) : Prop :=
  Forall (fun b => b <> Decoder.HEADER_BYTE) junk.

(** A packet whose last byte is the XOR of its payload. *)
Definition validPacket (packet : list Z) : Prop :=
  framed packet /\
  packet !! (Decoder.PACKET_SIZE - 1)%nat
    = Some (Buf.xorBytes (Buf.slice packet 1 (Decoder.PACKET_SIZE - 1))).

(** The byte at position [pos] with bit [bit] inverted. *)
Definition flipBit (packet : list Z) (pos : nat) (bit : Z) : list Z :=
  match packet !! pos with
  | Some b => <[pos := Z.lxor b (2 ^ bit)]> packet
  | None => packet
  end.

(** A tracker with window [K] that has seen the peak lists [hist], oldest
    first: its buffer holds the last [K] of them. *)
Definition tracks (K : nat) (thr tol : Z) (t : Console.SignalTracker)
    (hist : list (list Z)) : Prop :=
  Console.buffer t = drop (length hist - K) hist /\
  Console.bufferSize t = K /\ Console.threshold t = thr /\ Console.tolerance t = tol.

(** The coefficients of the smoother as binary64 stores them: the
    doubles nearest to 0.1 and to [1 - 0.1]. *)
Definition alphaQ : Q := 7205759403792794 # 72057594037927936.
Definition betaQ : Q := 8106479329266893 # 9007199254740992.

(** The distance at which rounding can hold the state of the smoother
    away from a constant input [v], and the tolerance of the convergence. *)
Definition roundoffFloor (v : float) : Q := (45 * (u64 * Qabs (F2Q v) + eta64))%Q.
Definition tolerance64 (v : float) : Q := (2 ^ (-47) * Qabs (F2Q v) + 2 ^ (-1069))%Q.

(** A state of the smoother reached on frames of at most 1800 samples:
    nothing yet, or a finite distance between -0.22 and 392 cm. *)
Definition stateOk (last : option float) : Prop :=
  match last with
  | None => True
  | Some s => is_finite s = true /\ (- (22 # 100) <= F2Q s /\ F2Q s <= 392)%Q
  end.

(** Test data: a packet with the given payload bytes and its checksum. *)
Definition mkPacketBytes (payload : list Z) : list Z :=
  Decoder.HEADER_BYTE :: payload ++ [Buf.xorBytes payload].

(** Test data: a frame of [n] samples that are all [v]. *)
Definition constSamples (n : nat) (v : Z) : list Z := repeat v n.

(** Test data: 1800 samples, all 0 except the one at index [i]. *)
Definition spike (i : nat) (v : Z) : list Z :=
  <[i := v]> (repeat 0 1800).

End Spec.

(** ** The firmware (TUSS4470 Arduino sketches) *)

Module Firmware.

(** Conversion to [uint8_t] and to [unsigned int] (16 bits on the AVR). *)
Definition u8 (x : Z) : Z := x mod 2 ^ 8.
Definition u16 (x : Z) : Z := x mod 2 ^ 16.

(** [BitShiftCombine(x_high, x_low)]: [(x_high << 8) | x_low] as an
    [unsigned int]. *)
Definition BitShiftCombine (x_high x_low : Z) : Z :=
  u16 (Z.lor (Z.shiftl x_high 8) x_low).

(** The loop of [parity16]: [i] runs over the [count] bit positions from
    [i] on, [ones] is the [byte] counter. *)
Fixpoint parityLoop (val : Z) (i : Z) (count : nat) (ones : Z) : Z :=
  match count with
  | O => ones
  | S count' =>
      parityLoop val (i + 1) count'
        (if Z.land (Z.shiftr val i) 1 =? 0 then ones else u8 (ones + 1))
  end.

Definition parity16 (val : Z) : Z :=
  let ones := parityLoop val 0 16 0 in
  u8 ((ones + 1) mod 2).

(** [tuss4470Parity(spi16Val)] on the two bytes of [inByteArr]. *)
Definition tuss4470Parity (byte0 byte1 : Z) : Z :=
  parity16 (BitShiftCombine byte0 byte1).

(** [tuss4470Write(addr, data)]: the two bytes of [inByteArr] handed to
    [spiTransfer]. *)
Definition tuss4470Write (addr data : Z) : Z * Z :=
  let byte0 := u8 (Z.shiftl (Z.land addr 0x3F) 1) in
  let byte1 := data in
  let byte0 := Z.lor byte0 (tuss4470Parity byte0 byte1) in
  (byte0, byte1).

(** [tuss4470Read(addr)]: the two bytes sent; the register value is what
    the chip answers on MISO and is not part of the model. *)
Definition tuss4470Read (addr : Z) : Z * Z :=
  let byte0 := u8 (0x80 + Z.shiftl (Z.land addr 0x3F) 1) in
  let byte1 := 0x00 in
  let byte0 := Z.lor byte0 (tuss4470Parity byte0 byte1) in
  (byte0, byte1).

(** *** [sendData], sketch with 16-bit samples ([NUM_SAMPLES] 900) *)

Definition NUM_SAMPLES : nat := 900.

(** The sample loop: [out] is what has been written to [Serial] so far,
    [checksum] the running [uint8_t]. *)
Fixpoint sendSamples (analogValues : list Z) (out : list Z) (checksum : Z) : list Z * Z :=
  match analogValues with
  | [] => (out, checksum)
  | v :: rest =>
      let highByte := u8 (Z.shiftr v 8) in
      let lowByte := u8 (Z.land v 0xFF) in
      sendSamples rest (out ++ [highByte; lowByte])
        (Z.lxor checksum (Z.lxor highByte lowByte))
  end.

(** [sendData()]: the bytes written to [Serial]. The globals it reads are
    parameters: [depthDetectSample] (an [int]), [temp_scaled] (the
    [int16_t] obtained from [temperature * 100]), [vDrv] (an [int]) and the
    array [analogValues] of [NUM_SAMPLES] [uint16_t]. *)
Definition sendData (depthDetectSample temp_scaled vDrv : Z) (analogValues : list Z)
    : list Z :=
  let out := [0xAA] in
  let checksum := 0 in
  let depthHigh := u8 (Z.shiftr depthDetectSample 8) in
  let depthLow := u8 (Z.land depthDetectSample 0xFF) in
  let out := out ++ [depthHigh; depthLow] in
  let checksum := Z.lxor checksum (Z.lxor depthHigh depthLow) in
  let tempHigh := u8 (Z.shiftr temp_scaled 8) in
  let tempLow := u8 (Z.land temp_scaled 0xFF) in
  let out := out ++ [tempHigh; tempLow] in
  let checksum := Z.lxor checksum (Z.lxor tempHigh tempLow) in
  let vDrv_scaled := u16 (vDrv * 100) in
  let vDrvHigh := u8 (Z.shiftr vDrv_scaled 8) in
  let vDrvLow := u8 (Z.land vDrv_scaled 0xFF) in
  let out := out ++ [vDrvHigh; vDrvLow] in
  let checksum := Z.lxor checksum (Z.lxor vDrvHigh vDrvLow) in
  let '(out, checksum) := sendSamples analogValues out checksum in
  out ++ [checksum].

End Firmware.

(** The sketch TUSS4470_R3_with_TEMP_OUT.ino: 1800 samples of one byte. *)
Module FirmwareR3.
Import Firmware.

Definition NUM_SAMPLES : nat := 1800.

(** The sample loop over the [byte] array [analogValues]. *)
Fixpoint sendSamples (analogValues : list Z) (out : list Z) (checksum : Z) : list Z * Z :=
  match analogValues with
  | [] => (out, checksum)
  | v :: rest => sendSamples rest (out ++ [v]) (Z.lxor checksum v)
  end.

(** [sendData()] with the same parameters as [Firmware.sendData];
    [analogValues] holds [NUM_SAMPLES] bytes. *)
Definition sendData (depthDetectSample temp_scaled vDrv : Z) (analogValues : list Z)
    : list Z :=
  let out := [0xAA] in
  let checksum := 0 in
  let depthHigh := u8 (Z.shiftr depthDetectSample 8) in
  let depthLow := u8 (Z.land depthDetectSample 0xFF) in
  let out := out ++ [depthHigh; depthLow] in
  let checksum := Z.lxor checksum (Z.lxor depthHigh depthLow) in
  let tempHigh := u8 (Z.shiftr temp_scaled 8) in
  let tempLow := u8 (Z.land temp_scaled 0xFF) in
  let out := out ++ [tempHigh; tempLow] in
  let checksum := Z.lxor checksum (Z.lxor tempHigh tempLow) in
  let vDrv_scaled := u16 (vDrv * 100) in
  let vDrvHigh := u8 (Z.shiftr vDrv_scaled 8) in
  let vDrvLow := u8 (Z.land vDrv_scaled 0xFF) in
  let out := out ++ [vDrvHigh; vDrvLow] in
  let checksum := Z.lxor checksum (Z.lxor vDrvHigh vDrvLow) in
  let '(out, checksum) := sendSamples analogValues out checksum in
  out ++ [checksum].

End FirmwareR3.

(** ** The plotter server for 900 samples (second program of
       sonar_gps_data_logger_throttled_writes.js) *)

Module Plotter900.
Import Buf.

Definition NUM_SAMPLES : nat := 900.
Definition PACKET_SIZE : nat := 1 + 6 + 2 * NUM_SAMPLES + 1.

(** [dataToSend], with the metadata as read. *)
Record Frame : Type := mkFrame {
  depthIndex : Z;
  tempScaled : Z;
  vDrvScaled : Z;
  samples : list Z
}.

(** The reads of one packet. There is no [try] here: [None] is an
    exception that leaves the handler. *)
Definition unpack (payload : list Z) : option Frame :=
  match readUInt16BE payload 0, readInt16BE payload 2, readUInt16BE payload 4 with
  | Some depthIndex, Some tempScaled, Some vDrvScaled =>
      let samplesBuffer := drop 6 payload in
      match readSamples samplesBuffer 0 0 NUM_SAMPLES with
      | Some samples => Some (mkFrame depthIndex tempScaled vDrvScaled samples)
      | None => None
      end
  | _, _, _ => None
  end.

(** How a run of the handler ends: normally, with the frames sent and the
    buffer left, or by an exception after some frames were sent. *)
Inductive Outcome : Type :=
| Done (frames : list Frame) (buffer : list Z)
| Thrown (frames : list Frame).

(** The [while] loop; the outer [None] means [fuel] ran out. *)
Fixpoint drain (fuel : nat) (buffer : list Z) : option Outcome :=
  match fuel with
  | O => None
  | S fuel' =>
      if (PACKET_SIZE <=? length buffer)%nat then
        let headerIndex := indexOf buffer 0xAA in
        if headerIndex =? -1 then Some (Done [] [])
        else
          let buffer1 :=
            if 0 <? headerIndex then drop (Z.to_nat headerIndex) buffer else buffer in
          if (0 <? headerIndex) && (length buffer1 <? PACKET_SIZE)%nat
          then Some (Done [] buffer1)
          else
            let packet := slice buffer1 0 PACKET_SIZE in
            let payload := slice packet 1 (PACKET_SIZE - 1) in
            match unpack payload with
            | None => Some (Thrown [])
            | Some frame =>
                match drain fuel' (drop PACKET_SIZE buffer1) with
                | Some (Done frames buffer') => Some (Done (frame :: frames) buffer')
                | Some (Thrown frames) => Some (Thrown (frame :: frames))
                | None => None
                end
            end
      else Some (Done [] buffer)
  end.

Definition on_data (buffer data : list Z) : option Outcome :=
  drain (S (length (buffer ++ data))) (buffer ++ data).

End Plotter900.

(** ** Vocabulary of the further statements *)

Module Wire.

Definition isByte (b : Z) : Prop := 0 <= b < 256.

(** Big-endian bytes of 16-bit values, two per value. *)
Fixpoint bytesBE (values : list Z) : list Z :=
  match values with
  | [] => []
  | v :: rest => (v / 256) mod 256 :: v mod 256 :: bytesBE rest
  end.

(** Consecutive bytes taken two by two as big-endian 16-bit values (a
    last odd byte is dropped). *)
Fixpoint pairsBE (bytes : list Z) : list Z :=
  match bytes with
  | hi :: lo :: rest => hi * 256 + lo :: pairsBE rest
  | _ => []
  end.

(** What the firmware sends in one measurement cycle. *)
Record Cycle : Type := mkCycle {
  depthDetectSample : Z;
  temp_scaled : Z;
  vDrv : Z;
  analogValues : list Z
}.

(** The values of a cycle are within their C types' ranges that the wire
    format can carry: an index below 2^16, an [int16_t], [vDrv * 100]
    below 2^16 and [n] samples below 2^16. *)
Definition cycleInRange (n : nat) (c : Cycle) : Prop :=
  0 <= depthDetectSample c < 65536 /\
  -32768 <= temp_scaled c < 32768 /\
  0 <= vDrv c * 100 < 65536 /\
  length (analogValues c) = n /\
  Forall (fun v => 0 <= v < 65536) (analogValues c).

(** Number of one bits among the 16 low bits. *)
Definition ones16 (val : Z) : Z :=
  Z.of_nat (length (filter (fun i => Z.testbit val (Z.of_nat i)) (seq 0 16))).

(** All bytes, for exhaustive checks. *)
Definition allBytes : list Z := map Z.of_nat (seq 0 256).

End Wire.

(** ** Boolean checks used in exhaustive proofs *)

Module Check.
Import Firmware Wire.

(** A write command is well formed: odd number of one bits in the 16-bit
    word, register address in bits 6..1 of the first byte, bit 7 clear,
    data in the second byte. *)
Definition spiWriteOk (addr data : Z) : bool :=
  let '(w0, w1) := tuss4470Write addr data in
  Z.odd (ones16 (w0 * 256 + w1))
  && (Z.shiftr (Z.land w0 0x7E) 1 =? Z.land addr 0x3F)
  && negb (Z.testbit w0 7)
  && (w1 =? data) && (0 <=? w0) && (w0 <? 256).

(** A read command is well formed: odd parity, address in bits 6..1, bit
    7 set, empty second byte. *)
Definition spiReadOk (addr : Z) : bool :=
  let '(r0, r1) := tuss4470Read addr in
  Z.odd (ones16 (r0 * 256 + r1))
  && (Z.shiftr (Z.land r0 0x7E) 1 =? Z.land addr 0x3F)
  && Z.testbit r0 7
  && (r1 =? 0) && (0 <=? r0) && (r0 <? 256).

End Check.

(** ** Ranges of the values the server hands on *)

Module Range.
Import Wire.

(** The fields of an unpacked frame fit their wire types and the frame
    has all its samples. *)
Definition frameInRange (frame : Decoder.Frame) : Prop :=
  0 <= Decoder.depthIndex frame < 65536 /\
  -32768 <= Decoder.tempScaled frame < 32768 /\
  0 <= Decoder.vDrvScaled frame < 65536 /\
  length (Decoder.samples frame) = Decoder.NUM_SAMPLES /\
  Forall (fun v => 0 <= v < 65536) (Decoder.samples frame).

End Range.

(** ** The data handler of the serial console ([runSerialConsole]) *)

Module ConsoleHandler.
Import Buf Console.

(** One cell of the printed line: the value of a consistent peak, ["  * "]
    for a peak that is not consistent, [" .  "] for background. *)
Inductive Mark : Type :=
| Shown (value : Z)
| Star
| Dot.

(** The loop that fills [highlightedSamples]; [rest] holds the values
    from index [i] on. *)
Fixpoint highlightLoop (consistentIndices : gset Z) (rest : list Z) (i : Z) : list Mark :=
  match rest with
  | [] => []
  | value :: rest' =>
      let isConsistent := bool_decide (i ∈ consistentIndices) in
      (if isConsistent && (THRESHOLD <=? value) then Shown value
       else if THRESHOLD <=? value then Star
       else Dot) :: highlightLoop consistentIndices rest' (i + 1)
  end.

(** How a run of the handler ends: normally, with the lines printed, the
    buffer and the tracker, or by the [TypeError] of the tracker, which
    nothing catches. *)
Inductive Outcome : Type :=
| Done (lines : list (list Mark)) (buffer : list Z) (tracker : SignalTracker)
| Thrown (lines : list (list Mark)) (buffer : list Z).

(** [while ((packet = extractAndProcessPacket())) { ... }], every call
    made with room for [stack] nested calls; the outer [None] means
    [fuel] ran out. *)
Fixpoint printLoop (stack fuel : nat) (buffer : list Z) (tracker : SignalTracker)
    {struct fuel} : option Outcome :=
  match fuel with
  | O => None
  | S fuel' =>
      match extractAndProcessPacket stack buffer with
      | (None, buffer') => Some (Done [] buffer' tracker)
      | (Some packet, buffer') =>
          match updateAndGetConsistentIndices tracker (values packet) with
          | None => Some (Thrown [] buffer')
          | Some (tracker', consistentIndices) =>
              let highlightedSamples :=
                highlightLoop consistentIndices (values packet) 0 in
              match printLoop stack fuel' buffer' tracker' with
              | Some (Done lines buffer'' tracker'') =>
                  Some (Done (highlightedSamples :: lines) buffer'' tracker'')
              | Some (Thrown lines buffer'') =>
                  Some (Thrown (highlightedSamples :: lines) buffer'')
              | None => None
              end
          end
      end
  end.

(** The handler: [buffer = Buffer.concat([buffer, data])], then the loop. *)
Definition on_data (stack : nat) (buffer : list Z) (tracker : SignalTracker)
    (data : list Z) : option Outcome :=
  printLoop stack (S (length (buffer ++ data))) (buffer ++ data) tracker.

End ConsoleHandler.

(** ** [Math.round] and the binary message of the sonar handlers *)

(** The result of [Math.round]: an integer ([-0] is [IntVal 0]), [NaN] or
    an infinity. *)
Inductive JsInteger : Type :=
| IntVal (z : Z)
| NaNVal
| InfVal (negative : bool).

Class JsRound (num : Type) : Type := {
  num_round : num -> JsInteger
}.

(** [Math.round] on a double: the integer nearest to the exact value, a
    tie going towards plus infinity, that is the floor of [x + 1/2]
    computed without rounding. *)
Definition float_round (x : float) : JsInteger :=
  match Prim2SF x with
  | S754_zero _ => IntVal 0
  | S754_infinity negative => InfVal negative
  | S754_nan => NaNVal
  | S754_finite negative m e =>
      let v := if negative then Z.neg m else Z.pos m in
      if 0 <=? e then IntVal (v * 2 ^ e)
      else IntVal ((2 * v + 2 ^ (- e)) / 2 ^ (- e + 1))
  end.

#[export] Instance float_JsRound : JsRound float := {| num_round := float_round |}.

Module SonarHandler.
Import Echo.
Section WithNumbers.
Context {num : Type} `{JsNum num} `{JsRound num}.

(** [bufferToSend.writeUInt16BE(value, offset)] at an offset inside the
    buffer: the two bytes written, [None] for the [RangeError] thrown when
    the value is outside [0, 65535]. [NaN] passes the range check and is
    stored as 0. *)
Definition writeUInt16BE (value : JsInteger) : option (list Z) :=
  match value with
  | IntVal z =>
      if (65535 <? z) || (z <? 0) then None
      else Some [Z.land (Z.shiftr z 8) 0xFF; Z.land z 0xFF]
  | NaNVal => Some [0; 0]
  | InfVal _ => None
  end.

(** [bufferToSend.writeUInt8(value, offset)], likewise. *)
Definition writeUInt8 (value : Z) : option (list Z) :=
  if (255 <? value) || (value <? 0) then None else Some [Z.land value 0xFF].

(** What becomes of one unpacked frame: the message pushed to the
    WebSocket clients, the frame skipped as too weak, or an exception
    caught by the [catch] of the handler. *)
Inductive Outcome : Type :=
| Sent (bufferToSend : list Z)
| Skipped
| Caught.

(** server.js, [sonarPacketHandler]: the statements of the [try] block
    from [findPrimaryReflection] on. The 5-byte message is built before
    the quality gate. The result is the outcome and the new
    [lastSmoothedDistance]. *)
Definition handleSamples (lastSmoothedDistance : option num) (rawSamples : list Z)
    : Outcome * option num :=
  let reflection := findPrimaryReflection rawSamples in
  let '(smoothedDistance, last') :=
    applyExponentialSmoothing lastSmoothedDistance (distance reflection) in
  let distMM := num_round (num_mul smoothedDistance (num_of_Z 10)) in
  let peakVal := Z.min (value reflection) 255 in
  let peakIdx := index reflection in
  match writeUInt16BE distMM with
  | None => (Caught, last')
  | Some bytes01 =>
      match writeUInt8 peakVal with
      | None => (Caught, last')
      | Some bytes2 =>
          match writeUInt16BE (IntVal peakIdx) with
          | None => (Caught, last')
          | Some bytes34 =>
              if value reflection <? 50 then (Skipped, last')
              else (Sent (bytes01 ++ bytes2 ++ bytes34), last')
          end
      end
  end.

(** server-gps-d3-serial.js, [startComPortListener]: the same statements,
    with the quality gate first and a 3-byte message. (On the path that
    sends, the frame is also pushed to [collectedSonarData].) *)
Definition handleSamplesGps (lastSmoothedDistance : option num) (rawSamples : list Z)
    : Outcome * option num :=
  let reflection := findPrimaryReflection rawSamples in
  let '(smoothedDistance, last') :=
    applyExponentialSmoothing lastSmoothedDistance (distance reflection) in
  if value reflection <? 50 then (Skipped, last')
  else
    let distMM := num_round (num_mul smoothedDistance (num_of_Z 10)) in
    let peakVal := Z.min (value reflection) 255 in
    match writeUInt16BE distMM with
    | None => (Caught, last')
    | Some bytes01 =>
        match writeUInt8 peakVal with
        | None => (Caught, last')
        | Some bytes2 => (Sent (bytes01 ++ bytes2), last')
        end
    end.

(** The frames of successive packets through [handleSamples]: the
    outcomes in order and the final [lastSmoothedDistance]. *)
Fixpoint handleFrames (lastSmoothedDistance : option num) (frames : list (list Z))
    : list Outcome * option num :=
  match frames with
  | [] => ([], lastSmoothedDistance)
  | rawSamples :: frames' =>
      let '(outcome, last') := handleSamples lastSmoothedDistance rawSamples in
      let '(outcomes, last'') := handleFrames last' frames' in
      (outcome :: outcomes, last'')
  end.

End WithNumbers.

End SonarHandler.

(** ** The throttled logger (sonar_gps_data_logger_throttled_writes.js) *)

Module Logger.
Import Echo.
Section WithNumbers.
Context {num : Type} `{JsNum num}.

(** The values [report.lat] and [report.lon] of a parsed gpsd report,
    with their JavaScript truthiness; [None] stands for [null] or a
    missing field, which are falsy. *)
Context {coord : Type} (truthy : coord -> bool).

Definition DB_WRITE_INTERVAL_MS : Z := 5000.

(** [currentGpsData] *)
Record GpsData : Type := mkGpsData {
  lat : option coord;
  lon : option coord;
  initialized : bool
}.

Definition initialGpsData : GpsData :=
  {| lat := None; lon := None; initialized := false |}.

(** A line of gpsd output that parsed: whether [report.class === 'TPV'],
    and the two fields. *)
Record Report : Type := mkReport {
  isTPV : bool;
  reportLat : option coord;
  reportLon : option coord
}.

Definition isTruthy (v : option coord) : bool :=
  match v with
  | Some c => truthy c
  | None => false
  end.

(** The body of [lines.forEach] in [startGpsdClient] for one report. *)
Definition onReport (currentGpsData : GpsData) (report : Report) : GpsData :=
  if isTPV report && isTruthy (reportLat report) && isTruthy (reportLon report)
  then {| lat := reportLat report; lon := reportLon report; initialized := true |}
  else currentGpsData.

Definition getGpsCoordinates (currentGpsData : GpsData) : option coord * option coord :=
  if negb (initialized currentGpsData) then (None, None)
  else (lat currentGpsData, lon currentGpsData).

(** The stored position is truthy once there is one. *)
Definition gpsOk (currentGpsData : GpsData) : Prop :=
  initialized currentGpsData = true ->
  isTruthy (lat currentGpsData) = true /\ isTruthy (lon currentGpsData) = true.

(** The globals of the logger. *)
Record State : Type := mkState {
  lastSmoothedDistance : option num;
  lastDbWriteTimestamp : Z;
  currentGpsData : GpsData
}.

Definition initialState : State :=
  {| lastSmoothedDistance := None; lastDbWriteTimestamp := 0;
     currentGpsData := initialGpsData |}.

(** What [processDataPacket] does with a frame: skips it as too weak,
    skips the database as throttled or for want of a GPS position, or
    issues the [INSERT] with these values. *)
Inductive Action : Type :=
| SkipWeak
| Throttled
| NoGps
| Insert (timestamp : Z) (latitude longitude : coord)
         (max_value max_sample_index : Z) (max_distance_cm : num).

(** [processDataPacket(rawSamples)] up to its [await]; [currentTime] is
    [new Date().getTime()], in milliseconds. *)
Definition processDataPacket (st : State) (currentTime : Z) (rawSamples : list Z)
    : State * Action :=
  let reflection := findPrimaryReflection rawSamples in
  let '(smoothedDistance, last') :=
    applyExponentialSmoothing (lastSmoothedDistance st) (distance reflection) in
  let st1 := {| lastSmoothedDistance := last';
                lastDbWriteTimestamp := lastDbWriteTimestamp st;
                currentGpsData := currentGpsData st |} in
  if value reflection <? 50 then (st1, SkipWeak)
  else if currentTime - lastDbWriteTimestamp st <? DB_WRITE_INTERVAL_MS
  then (st1, Throttled)
  else
    let st2 := {| lastSmoothedDistance := last';
                  lastDbWriteTimestamp := currentTime;
                  currentGpsData := currentGpsData st |} in
    let gps := getGpsCoordinates (currentGpsData st) in
    if negb (isTruthy (fst gps)) || negb (isTruthy (snd gps)) then (st2, NoGps)
    else
      match gps with
      | (Some gpsLat, Some gpsLon) =>
          (st2, Insert currentTime gpsLat gpsLon (value reflection) (index reflection)
                  smoothedDistance)
      | _ => (st2, NoGps)
      end.

(** What reaches the logger: a gpsd report, or a sonar frame at a time. *)
Inductive Event : Type :=
| GpsReport (report : Report)
| SonarFrame (currentTime : Z) (rawSamples : list Z).

(** The events in order: the final state and what was done with each
    frame, with its time. *)
Fixpoint run (st : State) (events : list Event) : State * list (Z * Action) :=
  match events with
  | [] => (st, [])
  | GpsReport report :: events' =>
      run {| lastSmoothedDistance := lastSmoothedDistance st;
             lastDbWriteTimestamp := lastDbWriteTimestamp st;
             currentGpsData := onReport (currentGpsData st) report |} events'
  | SonarFrame currentTime rawSamples :: events' =>
      let '(st', action) := processDataPacket st currentTime rawSamples in
      let '(st'', trace) := run st' events' in
      (st'', (currentTime, action) :: trace)
  end.

(** The times of the frames that were inserted. *)
Fixpoint insertTimes (trace : list (Z * Action)) : list Z :=
  match trace with
  | [] => []
  | (currentTime, Insert _ _ _ _ _ _) :: trace' => currentTime :: insertTimes trace'
  | _ :: trace' => insertTimes trace'
  end.

End WithNumbers.
Arguments GpsData : clear implicits.
Arguments Report : clear implicits.
Arguments State : clear implicits.
Arguments Action : clear implicits.
Arguments Event : clear implicits.

(** Each time is at least [gap] after the one before, the first after
    [from]. *)
Fixpoint spaced (gap from : Z) (times : list Z) : Prop :=
  match times with
  | [] => True
  | t :: rest => from + gap <= t /\ spaced gap t rest
  end.

(** Test data: positions as numbers of microdegrees; 0 is falsy. *)
Definition nonzero (c : Z) : bool := negb (c =? 0).

End Logger.

(** * Properties *)

Section EchoFacts.
Import Echo Spec.
Context {num : Type} `{JsNum num}.

Lemma sumSamples_from (l : list Z) (a : Z) :
  fold_left (fun acc val => acc + val) l a = a + fold_right Z.add 0 l.
Proof.
  revert a. induction l as [|x l IH]; intros a; simpl.
  - lia.
  - rewrite IH. lia.
Qed.

Lemma sumSamples_sum (l : list Z) : sumSamples l = fold_right Z.add 0 l.
Proof. unfold sumSamples. rewrite sumSamples_from. lia. Qed.

Lemma blindZoneLoop_nonneg threshold rest i count :
  0 <= i -> 0 <= blindZoneLoop threshold rest i count.
Proof.
  revert rest i. induction count as [|c IH]; intros rest i Hi; simpl.
  - lia.
  - destruct rest as [|s rest]; [lia|].
    destruct (num_leb (num_of_Z s) threshold); [lia|]. apply IH. lia.
Qed.

Lemma findBlindZoneEnd_nonneg samples noiseFloor :
  0 <= findBlindZoneEnd samples noiseFloor.
Proof. unfold findBlindZoneEnd. apply blindZoneLoop_nonneg. lia. Qed.

Lemma peakLoop_cases rest : forall i mv mi v k,
  peakLoop rest i mv mi = (v, k) ->
  (Forall (fun s => s <= mv) rest /\ v = mv /\ k = mi) \/
  (exists j : nat, (j < length rest)%nat /\ k = i + Z.of_nat j /\
     nth j rest 0 = v /\ mv < v /\
     (forall j', (j' < length rest)%nat -> nth j' rest 0 <= v) /\
     (forall j', (j' < j)%nat -> nth j' rest 0 < v)).
Proof.
  induction rest as [|s rest IH]; intros i mv mi v k Hloop; simpl in Hloop.
  - left. inversion Hloop; subst. auto.
  - destruct (Z.ltb_spec mv s) as [Hlt|Hge].
    + apply IH in Hloop as [(Hall & -> & ->)|(j & Hj & -> & Hnth & Hsv & Hmax & Hfirst)].
      * right. exists 0%nat. simpl. repeat split; try lia.
        -- intros [|j'] Hj'; [lia|]. rewrite Forall_forall in Hall.
           apply Hall. apply list_elem_of_In, nth_In. lia.
      * right. exists (S j). simpl. repeat split; try lia.
        -- intros [|j'] Hj'; [lia|]. apply Hmax. lia.
        -- intros [|j'] Hj'; [lia|]. apply Hfirst. lia.
    + apply IH in Hloop as [(Hall & -> & ->)|(j & Hj & -> & Hnth & Hsv & Hmax & Hfirst)].
      * left. repeat split; auto.
      * right. exists (S j). simpl. repeat split; try lia.
        -- intros [|j'] Hj'; [lia|]. apply Hmax. lia.
        -- intros [|j'] Hj'; [lia|]. apply Hfirst. lia.
Qed.

Lemma sampleAt_drop samples (start : Z) (j : nat) :
  0 <= start ->
  nth j (drop (Z.to_nat start) samples) 0 = sampleAt samples (start + Z.of_nat j).
Proof.
  intros Hs. unfold sampleAt.
  replace (Z.to_nat (start + Z.of_nat j)) with (Z.to_nat start + j)%nat by lia.
  generalize (Z.to_nat start) as n. intros n. revert samples.
  induction n as [|n IH]; intros samples; simpl; [reflexivity|].
  destruct samples as [|x samples]; simpl; [destruct j; reflexivity|]. apply IH.
Qed.

(** The scan of [findPrimaryReflection] over the window that starts at
    [start]: either no sample of the window exceeds 0 and the initial
    [(0, -1)] is returned, or the maximum and its first position. *)
Lemma peakLoop_window samples start v k :
  0 <= start ->
  peakLoop (drop (Z.to_nat start) samples) start 0 (-1) = (v, k) ->
  (~ windowPositive samples start /\ v = 0 /\ k = -1) \/
  (windowPositive samples start /\ 0 < v /\
   windowMax samples start v /\ firstAt samples start v k).
Proof.
  intros Hs Hloop.
  assert (Hlen : forall j : nat, (j < length (drop (Z.to_nat start) samples))%nat ->
            start <= start + Z.of_nat j < Z.of_nat (length samples)).
  { intros j Hj. rewrite length_drop in Hj. lia. }
  apply peakLoop_cases in Hloop
    as [(Hall & -> & ->)|(j & Hj & -> & Hnth & Hv & Hmax & Hfirst)].
  - left. split; [|auto]. intros (i & Hi & Hpos).
    rewrite Forall_forall in Hall.
    assert (Hin : sampleAt samples i ∈ drop (Z.to_nat start) samples).
    { replace i with (start + Z.of_nat (Z.to_nat (i - start))) by lia.
      rewrite <- sampleAt_drop by lia. apply list_elem_of_In, nth_In.
      rewrite length_drop. lia. }
    apply Hall in Hin. lia.
  - rewrite sampleAt_drop in Hnth by lia.
    right. split; [|split; [lia|split]].
    + exists (start + Z.of_nat j). split; [auto|lia].
    + split.
      * exists (start + Z.of_nat j). auto.
      * intros i Hi. replace i with (start + Z.of_nat (Z.to_nat (i - start))) by lia.
        rewrite <- sampleAt_drop by lia. apply Hmax. rewrite length_drop. lia.
    + split; [auto|split; [auto|]].
      intros i Hi. replace i with (start + Z.of_nat (Z.to_nat (i - start))) by lia.
      rewrite <- sampleAt_drop by lia.
      assert (nth (Z.to_nat (i - start)) (drop (Z.to_nat start) samples) 0 < v)
        by (apply Hfirst; lia).
      lia.
Qed.

(** What [findPrimaryReflection] returns, in terms of its window. *)
Lemma findPrimaryReflection_window samples :
  let r := findPrimaryReflection samples in
  (~ windowPositive samples (blindZoneEndIndex r) /\ value r = 0 /\ index r = -1) \/
  (windowPositive samples (blindZoneEndIndex r) /\ 0 < value r /\
   windowMax samples (blindZoneEndIndex r) (value r) /\
   firstAt samples (blindZoneEndIndex r) (value r) (index r)).
Proof.
  unfold findPrimaryReflection.
  destruct (Nat.eqb_spec (length samples) 0) as [Hlen|Hlen]; simpl.
  - left. split; [|auto]. intros (i & Hi & _). lia.
  - destruct (peakLoop _ _ _ _) as [v k] eqn:Hloop; simpl.
    apply peakLoop_window in Hloop; [exact Hloop|apply findBlindZoneEnd_nonneg].
Qed.

Lemma blindZoneEndIndex_eq samples :
  samples <> [] ->
  blindZoneEndIndex (findPrimaryReflection samples)
  = findBlindZoneEnd samples (calculateNoiseFloor samples).
Proof.
  intros Hne. unfold findPrimaryReflection.
  destruct (Nat.eqb_spec (length samples) 0) as [Hlen|Hlen].
  - destruct samples; [congruence|discriminate].
  - destruct (peakLoop _ _ _ _); reflexivity.
Qed.

Lemma distance_eq samples :
  samples <> [] ->
  distance (findPrimaryReflection samples)
  = num_mul (num_of_Z (index (findPrimaryReflection samples))) SAMPLE_RESOLUTION.
Proof.
  intros Hne. unfold findPrimaryReflection.
  destruct (Nat.eqb_spec (length samples) 0) as [Hlen|Hlen].
  - destruct samples; [congruence|discriminate].
  - destruct (peakLoop _ _ _ _); reflexivity.
Qed.

Lemma all_zero_not_positive samples start :
  Forall (fun s => s = 0) samples -> ~ windowPositive samples start.
Proof.
  intros Hall (i & Hi & Hpos). unfold sampleAt in Hpos.
  rewrite Forall_forall in Hall.
  destruct (Nat.lt_ge_cases (Z.to_nat i) (length samples)) as [Hlt|Hge].
  - assert (nth (Z.to_nat i) samples 0 = 0)
      by (apply Hall, list_elem_of_In, nth_In; exact Hlt).
    lia.
  - rewrite nth_overflow in Hpos by exact Hge. lia.
Qed.

End EchoFacts.

Section EchoClaims.
Import Echo Spec.
Context {num : Type} `{JsNum num}.

(** C5 (amended): the scan of [findPrimaryReflection] over
    [samples[blindZoneEnd, N)] returns the maximum of the window and the
    lowest index at which it occurs whenever some sample of the window is
    strictly positive; when none is (in particular for an all-zero array
    and whenever [blindZoneEnd >= N]) it returns [value = 0] and
    [index = -1]. *)
Theorem C5_primary_reflection_scan (samples : list Z) :
  let r := findPrimaryReflection samples in
  let start := blindZoneEndIndex r in
  (windowPositive samples start ->
     windowMax samples start (value r) /\ firstAt samples start (value r) (index r)) /\
  (~ windowPositive samples start -> value r = 0 /\ index r = -1) /\
  (Forall (fun s => s = 0) samples -> value r = 0 /\ index r = -1) /\
  (Z.of_nat (length samples) <= start -> value r = 0 /\ index r = -1).
Proof.
  intros r start.
  assert (Hnone : ~ windowPositive samples start -> value r = 0 /\ index r = -1).
  { intros Hno.
    destruct (findPrimaryReflection_window samples) as [(_ & Hv & Hk)|(Hpos & _)];
      [auto|contradiction]. }
  split; [|split; [exact Hnone|split]].
  - intros Hpos.
    destruct (findPrimaryReflection_window samples) as [(Hno & _)|(_ & _ & Hmax & Hfirst)];
      [contradiction|auto].
  - intros Hall. apply Hnone. apply all_zero_not_positive. exact Hall.
  - intros Hlen. apply Hnone. intros (i & Hi & _). lia.
Qed.

(** C7: the noise floor is the arithmetic mean of the last
    [NOISE_FLOOR_RANGE] = 100 samples (their sum divided by their number),
    and 0 for an array of fewer than 100 samples. *)
Theorem C7_noise_floor_mean (samples : list Z) :
  ((length samples < 100)%nat -> calculateNoiseFloor samples = num_of_Z 0) /\
  ((100 <= length samples)%nat ->
     exists front tail,
       samples = front ++ tail /\ length tail = 100%nat /\
       calculateNoiseFloor samples
       = num_div (num_of_Z (fold_right Z.add 0 tail))
                 (num_of_Z (Z.of_nat (length tail)))).
Proof.
  unfold calculateNoiseFloor, NOISE_FLOOR_RANGE. split; intros Hlen.
  - destruct (Z.ltb_spec (Z.of_nat (length samples) - 100) 0); [reflexivity|lia].
  - destruct (Z.ltb_spec (Z.of_nat (length samples) - 100) 0); [lia|].
    set (start := Z.to_nat (Z.of_nat (length samples) - 100)).
    exists (take start samples), (drop start samples).
    assert (Htail : length (drop start samples) = 100%nat)
      by (rewrite length_drop; lia).
    split; [symmetry; apply take_drop|split; [exact Htail|]].
    rewrite Htail, sumSamples_sum. reflexivity.
Qed.

(** C1 (amended): for a reflection whose peak value is below 50 the frame
    is dropped by the quality gate, but only after
    [applyExponentialSmoothing] has been called on its raw distance:
    [lastSmoothedDistance] is then the value that call returned. *)
Theorem C1_weak_frame_is_smoothed (last : option num) (samples : list Z) :
  value (findPrimaryReflection samples) < 50 ->
  let fr := processSamples last samples in
  skipped fr = true /\
  (smoothedDistance fr, lastSmoothedDistance' fr)
  = applyExponentialSmoothing last (distance (findPrimaryReflection samples)) /\
  lastSmoothedDistance' fr = Some (smoothedDistance fr).
Proof.
  intros Hweak. unfold processSamples.
  destruct (applyExponentialSmoothing last _) as [sm last'] eqn:Hsm; simpl.
  split; [apply Z.ltb_lt; exact Hweak|split; [reflexivity|]].
  unfold applyExponentialSmoothing in Hsm.
  destruct last; inversion Hsm; reflexivity.
Qed.

(** The part of C10 that holds in every arithmetic. *)
Lemma no_echo_distance (last : option num) (samples : list Z) :
  samples <> [] ->
  ~ windowPositive samples (findBlindZoneEnd samples (calculateNoiseFloor samples)) ->
  let r := findPrimaryReflection samples in
  let fr := processSamples last samples in
  index r = -1 /\
  distance r = num_mul (num_of_Z (-1)) SAMPLE_RESOLUTION /\
  (smoothedDistance fr, lastSmoothedDistance' fr)
  = applyExponentialSmoothing last (num_mul (num_of_Z (-1)) SAMPLE_RESOLUTION).
Proof.
  intros Hne Hno r fr.
  rewrite <- blindZoneEndIndex_eq in Hno by exact Hne.
  assert (Hk : index r = -1).
  { destruct (findPrimaryReflection_window samples) as [(_ & _ & Hk)|(Hpos & _)];
      [exact Hk|contradiction]. }
  assert (Hd : distance r = num_mul (num_of_Z (-1)) SAMPLE_RESOLUTION).
  { unfold r. rewrite distance_eq by exact Hne. fold r. rewrite Hk. reflexivity. }
  split; [exact Hk|split; [exact Hd|]].
  unfold fr, processSamples. fold r. rewrite Hd.
  destruct (applyExponentialSmoothing last _); reflexivity.
Qed.

End EchoClaims.

Section EchoPipeline.
Import Echo Spec.

(** C10: for a non-empty sample array with no strictly positive sample in
    [[blindZoneEnd, N)], [findPrimaryReflection] returns [index = -1] and
    [distance = -1 * SAMPLE_RESOLUTION], which in binary64 is the negative
    number -0.2178 and not 0, and the pipeline passes this distance to
    [applyExponentialSmoothing]. *)
Theorem C10_no_echo_negative_distance :
  (forall (num : Type) (N : JsNum num) (last : option num) (samples : list Z),
     samples <> [] ->
     (forall i, findBlindZoneEnd samples (calculateNoiseFloor samples) <= i
                  < Z.of_nat (length samples) ->
                ~ 0 < sampleAt samples i) ->
     let r := findPrimaryReflection samples in
     let fr := processSamples last samples in
     index r = -1 /\
     distance r = num_mul (num_of_Z (-1)) SAMPLE_RESOLUTION /\
     (smoothedDistance fr, lastSmoothedDistance' fr)
     = applyExponentialSmoothing last (num_mul (num_of_Z (-1)) SAMPLE_RESOLUTION)) /\
  num_mul (num_of_Z (-1)) (SAMPLE_RESOLUTION (num := float)) = (-0.2178)%float /\
  PrimFloat.ltb (num_mul (num_of_Z (-1)) (SAMPLE_RESOLUTION (num := float))) 0%float = true.
Proof.
  split; [|split; reflexivity].
  intros num N last samples Hne Hno.
  apply no_echo_distance; [exact Hne|].
  intros (i & Hi & Hpos). exact (Hno i Hi Hpos).
Qed.

Lemma C10_witness :
  let samples := constSamples 1800 0 in
  let r := findPrimaryReflection (num := float) samples in
  let fr := processSamples None samples in
  index r = -1 /\
  distance r = (-0.2178)%float /\
  (smoothedDistance fr, lastSmoothedDistance' fr)
  = ((-0.2178)%float, Some (-0.2178)%float).
Proof.
  pose proof (proj1 C10_no_echo_negative_distance float float_JsNum None
                (constSamples 1800 0)) as Hw.
  apply Hw.
  - discriminate.
  - intros i Hi Hpos.
    apply (all_zero_not_positive (constSamples 1800 0)
             (findBlindZoneEnd (num := float) (constSamples 1800 0)
                (calculateNoiseFloor (constSamples 1800 0)))).
    + apply Forall_forall. intros x Hx. apply list_elem_of_In in Hx.
      apply repeat_spec in Hx. exact Hx.
    + exists i. split; [exact Hi|exact Hpos].
Defined.

End EchoPipeline.

(** ** Rounding in binary64 *)

Section ShiftRight.

Lemma shr_1_represents m0 k mrs :
  0 <= k -> represents m0 k mrs -> represents m0 (k + 1) (shr_1 mrs).
Proof.
  intros Hk (R & Hm & HR & Hpos & Hr & Hs).
  destruct mrs as [m r s]. cbn [shr_m shr_r shr_s] in *.
  unfold represents. rewrite Z.pow_add_r, Z.pow_1_r by lia.
  assert (HP : 0 < 2 ^ k) by (apply Z.pow_pos_nonneg; lia).
  set (P := 2 ^ k) in *.
  assert (Hor : (r || s = true <-> R <> 0)%bool).
  { rewrite orb_true_iff, Hr, Hs. lia. }
  destruct m as [|[p|p|]|p]; cbn [shr_1 shr_m shr_r shr_s]; try lia.
  - exists R. split; [lia|]. split; [lia|]. split; [lia|].
    split; [split; [discriminate|lia]|].
    rewrite Hor. split; [intros; split; [assumption|lia]|intros [? _]; assumption].
  - exists (R + P). split; [lia|]. split; [lia|]. split; [lia|].
    split; [split; [lia|reflexivity]|].
    rewrite Hor. split; [intros; split; lia|intros [? ?]; lia].
  - exists R. split; [lia|]. split; [lia|]. split; [lia|].
    split; [split; [discriminate|lia]|].
    rewrite Hor. split; [intros; split; [assumption|lia]|intros [? _]; assumption].
  - exists (R + P). split; [lia|]. split; [lia|]. split; [lia|].
    split; [split; [lia|reflexivity]|].
    rewrite Hor. split; [intros; split; lia|intros [? ?]; lia].
Qed.

Lemma iter_represents m0 : forall p k mrs,
  0 <= k -> represents m0 k mrs ->
  represents m0 (k + Zpos p) (SpecFloat.iter_pos shr_1 p mrs).
Proof.
  induction p as [p IH|p IH|]; intros k mrs Hk Hrep; cbn [SpecFloat.iter_pos].
  - replace (k + Zpos p~1) with (k + 1 + Zpos p + Zpos p) by lia.
    apply IH; [lia|]. apply IH; [lia|]. apply shr_1_represents; assumption.
  - replace (k + Zpos p~0) with (k + Zpos p + Zpos p) by lia.
    apply IH; [lia|]. apply IH; assumption.
  - apply shr_1_represents; assumption.
Qed.

(** Shifting right by [p] bits and rounding to nearest even moves the
    number by at most half a unit of the last place kept. *)
Lemma shr_round_spec (m0 : Z) (p : positive) :
  0 <= m0 ->
  let mrs := SpecFloat.iter_pos shr_1 p (Build_shr_record m0 false false) in
  let m' := round_nearest_even (shr_m mrs) (loc_of_shr_record mrs) in
  0 <= m' /\ 2 * Z.abs (m' * 2 ^ Zpos p - m0) <= 2 ^ Zpos p.
Proof.
  intros Hm0 mrs m'.
  assert (Hrep : represents m0 (0 + Zpos p) mrs).
  { apply iter_represents; [lia|]. exists 0. cbn [shr_m shr_r shr_s].
    rewrite Z.pow_0_r. split; [lia|]. split; [lia|]. split; [lia|].
    split; split; try discriminate; lia. }
  rewrite Z.add_0_l in Hrep. destruct Hrep as (R & Hm & HR & Hpos & Hr & Hs).
  unfold m'. destruct mrs as [m r s]. cbn [shr_m shr_r shr_s] in *.
  set (P := 2 ^ Zpos p) in *.
  destruct r, s; cbn [loc_of_shr_record round_nearest_even].
  - assert (P <= 2 * R) by (apply Hr; reflexivity). lia.
  - assert (P <= 2 * R) by (apply Hr; reflexivity).
    assert (2 * R = P).
    { destruct (Z.eq_dec (2 * R) P) as [He|Hne]; [exact He|].
      assert (false = true) by (apply Hs; split; lia). discriminate. }
    destruct (Z.even m); lia.
  - destruct Hs as [Hs _]. destruct (Hs eq_refl).
    assert (~ P <= 2 * R) by (intros Hc; apply Hr in Hc; discriminate). lia.
  - assert (R = 0).
    { destruct (Z.eq_dec R 0) as [He|Hne]; [exact He|].
      assert (~ P <= 2 * R) by (intros Hc; apply Hr in Hc; discriminate).
      assert (false = true) by (apply Hs; split; lia). discriminate. }
    lia.
Qed.

End ShiftRight.

Section Powers.
Local Open Scope Q_scope.

Lemma pow2_pos (e : Z) : 0 < 2 ^ e.
Proof. apply Qpower_0_lt. reflexivity. Qed.

Lemma pow2_add (a b : Z) : 2 ^ (a + b) == 2 ^ a * 2 ^ b.
Proof. apply Qpower_plus. discriminate. Qed.

Lemma pow2_le (a b : Z) : (a <= b)%Z -> 2 ^ a <= 2 ^ b.
Proof. intros Hab. apply Qpower_le_compat_l; [exact Hab|discriminate]. Qed.

Lemma pow2_lt_inv (a b : Z) : 2 ^ a < 2 ^ b -> (a < b)%Z.
Proof. intros Hab. apply (Qpower_lt_compat_l_inv 2); [exact Hab|reflexivity]. Qed.

Lemma pow2_inject (k : Z) : (0 <= k)%Z -> inject_Z (2 ^ k) == 2 ^ k.
Proof. intros Hk. rewrite Zpower_Qpower by exact Hk. reflexivity. Qed.

Lemma pow2_half (e : Z) : 2 ^ e == 2 * 2 ^ (e - 1).
Proof.
  replace e with (1 + (e - 1))%Z at 1 by lia. rewrite pow2_add. reflexivity.
Qed.

End Powers.

Section Digits.

Lemma digits2_pos_spec (m : positive) :
  2 ^ (Zpos (digits2_pos m) - 1) <= Zpos m < 2 ^ Zpos (digits2_pos m).
Proof.
  induction m as [m IH|m IH|]; cbn [digits2_pos].
  - rewrite Pos2Z.inj_succ.
    replace (Z.succ (Zpos (digits2_pos m)) - 1) with (Z.succ (Zpos (digits2_pos m) - 1)) by lia.
    rewrite !Z.pow_succ_r by lia. lia.
  - rewrite Pos2Z.inj_succ.
    replace (Z.succ (Zpos (digits2_pos m)) - 1) with (Z.succ (Zpos (digits2_pos m) - 1)) by lia.
    rewrite !Z.pow_succ_r by lia. lia.
  - cbn. lia.
Qed.

Lemma digits2_pos_le (m : positive) (k : Z) :
  Zpos m < 2 ^ k -> Zpos (digits2_pos m) <= k.
Proof.
  intros Hm. destruct (digits2_pos_spec m) as [Hlo _].
  destruct (Z.le_gt_cases (Zpos (digits2_pos m)) k) as [Hle|Hgt]; [exact Hle|].
  assert (2 ^ k <= 2 ^ (Zpos (digits2_pos m) - 1)).
  { apply Z.pow_le_mono_r; lia. }
  lia.
Qed.

Lemma digits2_pos_mul (a b : positive) :
  Zpos (digits2_pos a) + Zpos (digits2_pos b) - 1 <= Zpos (digits2_pos (a * b)).
Proof.
  destruct (digits2_pos_spec a) as [Ha _]. destruct (digits2_pos_spec b) as [Hb _].
  destruct (digits2_pos_spec (a * b)) as [_ Hab].
  set (da := Zpos (digits2_pos a)) in *. set (db := Zpos (digits2_pos b)) in *.
  set (d := Zpos (digits2_pos (a * b))) in *.
  destruct (Z.le_gt_cases (da + db - 1) d) as [Hle|Hgt]; [exact Hle|].
  assert (H1 : 2 ^ d <= 2 ^ (da - 1 + (db - 1))) by (apply Z.pow_le_mono_r; lia).
  rewrite Z.pow_add_r in H1 by lia.
  rewrite Pos2Z.inj_mul in Hab.
  assert (2 ^ (da - 1) * 2 ^ (db - 1) <= Zpos a * Zpos b) by (apply Z.mul_le_mono_nonneg; lia).
  lia.
Qed.

Lemma iter_xO_value (m d : positive) : Zpos (Pos.iter xO m d) = Zpos m * 2 ^ Zpos d.
Proof.
  induction d as [|d IH] using Pos.peano_ind.
  - cbn [Pos.iter]. rewrite Z.pow_1_r. lia.
  - rewrite Pos.iter_succ, Pos2Z.inj_succ, Z.pow_succ_r by lia.
    rewrite Pos2Z.inj_xO, IH. lia.
Qed.

Lemma iter_xO_digits (m d : positive) :
  Zpos (digits2_pos (Pos.iter xO m d)) = Zpos (digits2_pos m) + Zpos d.
Proof.
  induction d as [|d IH] using Pos.peano_ind.
  - cbn [Pos.iter digits2_pos]. lia.
  - rewrite Pos.iter_succ. cbn [digits2_pos]. rewrite !Pos2Z.inj_succ, IH. lia.
Qed.

End Digits.

Section RoundAux.
Local Open Scope Q_scope.

Lemma fexp_eq (e : Z) : fexp prec emax e = Z.max (e - 53) (-1074).
Proof. reflexivity. Qed.

(** The second normalisation of [binary_round_aux]: a mantissa of at
    most 53 bits is kept, [2^53] becomes [2^52] one exponent higher. *)
Lemma second_shift (m' e' : Z) :
  (0 <= m' <= 2 ^ 53)%Z -> (-1074 <= e')%Z ->
  exists m'' e'',
    shr_fexp prec emax m' e' loc_Exact = (Build_shr_record m'' false false, e'') /\
    (e' <= e'' <= e' + 1)%Z /\ (0 <= m'')%Z /\
    inject_Z m'' * 2 ^ e'' == inject_Z m' * 2 ^ e'.
Proof.
  intros Hm He. unfold shr_fexp. cbn [shr_record_of_loc].
  destruct (Z.eq_dec m' (2 ^ 53)%Z) as [->|Hne].
  - change (Zdigits2 (2 ^ 53)%Z) with 54%Z. rewrite fexp_eq.
    replace (Z.max (54 + e' - 53) (-1074) - e')%Z with 1%Z by lia.
    exists (2 ^ 52)%Z, (e' + 1)%Z. split; [reflexivity|]. split; [lia|].
    split; [lia|]. rewrite pow2_add.
    change (2 ^ 1) with 2. change (inject_Z (2 ^ 53)) with (2 * inject_Z (2 ^ 52)).
    ring.
  - exists m', e'. split.
    + assert (Hn : (fexp prec emax (Zdigits2 m' + e') - e' <= 0)%Z).
      { rewrite fexp_eq. destruct m' as [|q|q]; cbn [Zdigits2]; [lia| |lia].
        assert (Zpos (digits2_pos q) <= 53)%Z by (apply digits2_pos_le; lia). lia. }
      unfold shr. destruct (fexp prec emax (Zdigits2 m' + e') - e')%Z; [reflexivity|lia|reflexivity].
    + split; [lia|]. split; [lia|reflexivity].
Qed.

Lemma cond_Zopp_Q (s : bool) (z : Z) (q : Q) :
  Qabs (inject_Z (cond_Zopp s z) * q) == Qabs (inject_Z z * q).
Proof.
  destruct s; cbn [cond_Zopp]; [|reflexivity].
  rewrite inject_Z_opp.
  setoid_replace (- inject_Z z * q) with (- (inject_Z z * q))
      using relation Qeq by ring.
  apply Qabs_opp.
Qed.

(** Rounding a positive [m * 2^e] whose exponent is not above the
    canonical one: the result is finite below the overflow threshold and
    at most half a unit in the last place away. *)
Lemma binary_round_aux_spec (s : bool) (m : positive) (e : Z) :
  let e' := fexp prec emax (Zpos (digits2_pos m) + e) in
  (e <= e')%Z -> (e' <= 970)%Z ->
  let r := binary_round_aux prec emax s (Zpos m) e loc_Exact in
  SFfinite r = true /\
  Qabs (SF2Q r - inject_Z (cond_Zopp s (Zpos m)) * 2 ^ e) <= 2 ^ (e' - 1).
Proof.
  intros e' Hle Hmax r.
  assert (Hemin : (-1074 <= e')%Z) by (unfold e'; rewrite fexp_eq; lia).
  assert (Hd : (Zpos (digits2_pos m) + e - 53 <= e')%Z) by (unfold e'; rewrite fexp_eq; lia).
  pose proof (digits2_pos_spec m) as [_ Hmd].
  assert (Hfirst : exists mrs',
            shr_fexp prec emax (Zpos m) e loc_Exact = (mrs', e') /\
            let m' := round_nearest_even (shr_m mrs') (loc_of_shr_record mrs') in
            (0 <= m' <= 2 ^ 53)%Z /\
            Qabs (inject_Z m' * 2 ^ e' - inject_Z (Zpos m) * 2 ^ e) <= 2 ^ (e' - 1)).
  { unfold shr_fexp. cbn [Zdigits2 shr_record_of_loc]. fold e'. unfold shr.
    destruct (e' - e)%Z as [|p|p] eqn:Hn; [| |lia].
    - (* no shift *)
      assert (He : e = e') by lia.
      exists {| shr_m := Z.pos m; shr_r := false; shr_s := false |}.
      split; [rewrite He; reflexivity|].
      cbn [shr_m loc_of_shr_record round_nearest_even]. split.
      + split; [lia|].
        assert (2 ^ Zpos (digits2_pos m) <= 2 ^ 53)%Z by (apply Z.pow_le_mono_r; lia). lia.
      + rewrite <- He.
        setoid_replace (inject_Z (Z.pos m) * 2 ^ e - inject_Z (Z.pos m) * 2 ^ e) with 0
      using relation Qeq by ring.
        cbn [Qabs Z.abs]. apply Qlt_le_weak, pow2_pos.
    - (* shift by p bits *)
      pose proof (shr_round_spec (Zpos m) p ltac:(lia)) as Hround. cbn zeta in Hround.
      set (mrs := SpecFloat.iter_pos shr_1 p
                    {| shr_m := Z.pos m; shr_r := false; shr_s := false |}) in *.
      exists mrs. split; [f_equal; lia|]. cbn zeta.
      set (m' := round_nearest_even (shr_m mrs) (loc_of_shr_record mrs)) in *.
      destruct Hround as [Hpos Herr].
      assert (He' : (e + Zpos p = e')%Z) by lia.
      split.
      + split; [exact Hpos|].
        assert (H2 : (2 ^ Zpos (digits2_pos m) <= 2 ^ (53 + Zpos p))%Z)
          by (apply Z.pow_le_mono_r; lia).
        rewrite Z.pow_add_r in H2 by lia.
        assert (HP : (0 < 2 ^ Zpos p)%Z) by (apply Z.pow_pos_nonneg; lia).
        set (P := (2 ^ Zpos p)%Z) in *.
        assert (m' * P < (2 ^ 53 + 1) * P)%Z by lia.
        assert (m' < 2 ^ 53 + 1)%Z by (apply (Z.mul_lt_mono_pos_r P); assumption).
        lia.
      + rewrite <- He', pow2_add, <- (pow2_inject (Zpos p)) by lia.
        setoid_replace (inject_Z m' * (2 ^ e * inject_Z (2 ^ Z.pos p))
                        - inject_Z (Z.pos m) * 2 ^ e)
          with (inject_Z (m' * 2 ^ Zpos p - Zpos m) * 2 ^ e)
      using relation Qeq
          by (rewrite <- Z.add_opp_r, inject_Z_plus, inject_Z_mult, inject_Z_opp; ring).
        rewrite Qabs_Qmult. rewrite (Qabs_pos (2 ^ e)) by (apply Qlt_le_weak, pow2_pos).
        replace (e + Zpos p - 1)%Z with (e + (Zpos p - 1))%Z by lia.
        rewrite (pow2_add e (Zpos p - 1)).
        rewrite (Qmult_comm (2 ^ e)). apply Qmult_le_compat_r; [|apply Qlt_le_weak, pow2_pos].
        rewrite <- (pow2_inject (Zpos p - 1)) by lia.
        change (Qabs (inject_Z (m' * 2 ^ Z.pos p - Z.pos m)))
          with (inject_Z (Z.abs (m' * 2 ^ Z.pos p - Z.pos m))).
        rewrite <- Zle_Qle.
        replace (Zpos p) with (Z.succ (Zpos p - 1)) in Herr at 2 by lia.
        rewrite Z.pow_succ_r in Herr by lia. lia. }
  destruct Hfirst as (mrs' & Hfirst & Hm' & Hbound).
  unfold r, binary_round_aux. rewrite Hfirst.
  set (m' := round_nearest_even (shr_m mrs') (loc_of_shr_record mrs')) in *.
  destruct (second_shift m' e' Hm' Hemin) as (m'' & e'' & -> & Hee & Hpos'' & Hval).
  cbn [shr_m].
  assert (Hsign : forall z : Z,
            Qabs (inject_Z (cond_Zopp s z) * 2 ^ e''
                  - inject_Z (cond_Zopp s (Zpos m)) * 2 ^ e)
            == Qabs (inject_Z z * 2 ^ e'' - inject_Z (Zpos m) * 2 ^ e)).
  { intros z. destruct s; cbn [cond_Zopp]; [|reflexivity].
    rewrite !inject_Z_opp.
    setoid_replace (- inject_Z z * 2 ^ e'' - - inject_Z (Z.pos m) * 2 ^ e)
      with (- (inject_Z z * 2 ^ e'' - inject_Z (Z.pos m) * 2 ^ e))
      using relation Qeq by ring.
    apply Qabs_opp. }
  destruct m'' as [|q|q]; [| |lia].
  - split; [reflexivity|]. cbn [SF2Q].
    rewrite <- Hval in Hbound.
    setoid_replace (0 - inject_Z (cond_Zopp s (Z.pos m)) * 2 ^ e)
      with (inject_Z (cond_Zopp s 0) * 2 ^ e'' - inject_Z (cond_Zopp s (Z.pos m)) * 2 ^ e)
      using relation Qeq
      by (destruct s; cbn [cond_Zopp]; change (inject_Z (- 0)) with 0;
          change (inject_Z 0) with 0; ring).
    rewrite Hsign. exact Hbound.
  - destruct (Z.leb_spec e'' (emax - prec)) as [_|Hc]; [|unfold emax, prec in Hc; lia].
    split; [reflexivity|]. cbn [SF2Q]. rewrite Hsign, Hval. exact Hbound.
Qed.

End RoundAux.

Section Operations.
Local Open Scope Q_scope.

Lemma mantissa_value_abs (s : bool) (m : positive) (e : Z) :
  Qabs (inject_Z (cond_Zopp s (Zpos m)) * 2 ^ e) == inject_Z (Zpos m) * 2 ^ e.
Proof.
  rewrite cond_Zopp_Q. apply Qabs_pos.
  apply Qmult_le_0_compat; [|apply Qlt_le_weak, pow2_pos].
  change 0 with (inject_Z 0). rewrite <- Zle_Qle. lia.
Qed.

Lemma digits_value_lower (m : positive) (e : Z) :
  2 ^ (Zpos (digits2_pos m) - 1 + e) <= inject_Z (Zpos m) * 2 ^ e.
Proof.
  rewrite pow2_add. apply Qmult_le_compat_r; [|apply Qlt_le_weak, pow2_pos].
  rewrite <- pow2_inject by lia. rewrite <- Zle_Qle. apply digits2_pos_spec.
Qed.

(** [binary_round_aux] in relative form. *)
Lemma binary_round_aux_rel (s : bool) (m : positive) (e : Z) :
  let val := inject_Z (cond_Zopp s (Zpos m)) * 2 ^ e in
  (e <= fexp prec emax (Zpos (digits2_pos m) + e))%Z ->
  Qabs val <= 2 ^ 1000 ->
  let r := binary_round_aux prec emax s (Zpos m) e loc_Exact in
  SFfinite r = true /\ Qabs (SF2Q r - val) <= u64 * Qabs val + eta64.
Proof.
  intros val Hle Hmax r.
  unfold val in Hmax. rewrite mantissa_value_abs in Hmax.
  pose proof (digits_value_lower m e) as Hlow.
  assert (Hd : (Zpos (digits2_pos m) - 1 + e <= 1000)%Z).
  { apply (Qpower_le_compat_l_inv 2); [|reflexivity].
    eapply Qle_trans; [exact Hlow|exact Hmax]. }
  destruct (binary_round_aux_spec s m e Hle) as [Hfin Herr].
  { rewrite fexp_eq. lia. }
  split; [exact Hfin|]. fold r in Herr. fold val in Herr.
  eapply Qle_trans; [exact Herr|].
  unfold val. rewrite mantissa_value_abs.
  rewrite fexp_eq.
  assert (Hu : 0 <= u64 * (inject_Z (Z.pos m) * 2 ^ e)).
  { apply Qmult_le_0_compat; [apply Qlt_le_weak, pow2_pos|].
    apply Qmult_le_0_compat; [|apply Qlt_le_weak, pow2_pos].
    change 0 with (inject_Z 0). rewrite <- Zle_Qle. lia. }
  assert (Heta : 0 < eta64) by apply pow2_pos.
  destruct (Z.max_spec (Zpos (digits2_pos m) + e - 53) (-1074)) as [[_ ->]|[_ ->]].
  - change (2 ^ (-1074 - 1)) with eta64. lra.
  - replace (Zpos (digits2_pos m) + e - 53 - 1)%Z
      with (-53 + (Zpos (digits2_pos m) - 1 + e))%Z by lia.
    rewrite pow2_add. fold u64.
    assert (u64 * 2 ^ (Z.pos (digits2_pos m) - 1 + e) <= u64 * (inject_Z (Z.pos m) * 2 ^ e)).
    { apply Qmult_le_l; [apply pow2_pos|exact Hlow]. }
    lra.
Qed.

Lemma canonical_exponent (m : positive) (e : Z) :
  bounded prec emax m e = true ->
  e = fexp prec emax (Zpos (digits2_pos m) + e).
Proof.
  unfold bounded, canonical_mantissa. intros Hb.
  apply andb_true_iff in Hb as [Hc _]. apply Z.eqb_eq in Hc. symmetry. exact Hc.
Qed.

Lemma SF2Q_mul (sx sy : bool) (mx my : positive) (ex ey : Z) :
  inject_Z (cond_Zopp (xorb sx sy) (Zpos (mx * my))) * 2 ^ (ex + ey)
  == SF2Q (S754_finite sx mx ex) * SF2Q (S754_finite sy my ey).
Proof.
  cbn [SF2Q]. rewrite pow2_add, Pos2Z.inj_mul.
  destruct sx, sy; cbn [xorb cond_Zopp];
    rewrite ?inject_Z_opp, inject_Z_mult; ring.
Qed.

(** Multiplication: correctly rounded unless it overflows. *)
Lemma SFmul_error (x y : spec_float) :
  valid_binary x = true -> valid_binary y = true ->
  SFfinite x = true -> SFfinite y = true ->
  Qabs (SF2Q x * SF2Q y) <= 2 ^ 1000 ->
  SFfinite (SFmul prec emax x y) = true /\
  Qabs (SF2Q (SFmul prec emax x y) - SF2Q x * SF2Q y)
  <= u64 * Qabs (SF2Q x * SF2Q y) + eta64.
Proof.
  intros Hvx Hvy Hfx Hfy Hmax.
  assert (Hz : forall q, q == 0 -> Qabs (0 - q) <= u64 * Qabs q + eta64).
  { intros q Hq. rewrite Hq. cbn. discriminate. }
  destruct x as [sx|sx| |sx mx ex]; try discriminate Hfx;
    destruct y as [sy|sy| |sy my ey]; try discriminate Hfy; cbn [SFmul].
  - split; [reflexivity|]. cbn [SF2Q]. apply Hz. ring.
  - split; [reflexivity|]. cbn [SF2Q]. apply Hz. ring.
  - split; [reflexivity|]. cbn [SF2Q]. apply Hz. ring.
  - cbn [valid_binary] in Hvx, Hvy.
    pose proof (canonical_exponent mx ex Hvx) as Hex.
    pose proof (canonical_exponent my ey Hvy) as Hey.
    pose proof (digits2_pos_mul mx my) as Hdig.
    rewrite fexp_eq in Hex, Hey.
    rewrite <- SF2Q_mul in *.
    apply binary_round_aux_rel; [|exact Hmax].
    rewrite fexp_eq. lia.
Qed.

Lemma shl_align_value (mx : positive) (ex ez : Z) :
  (ez <= ex)%Z ->
  inject_Z (Zpos (fst (shl_align mx ex ez))) * 2 ^ ez == inject_Z (Zpos mx) * 2 ^ ex.
Proof.
  intros Hle. unfold shl_align.
  destruct (ez - ex)%Z as [|d|d] eqn:Hd; cbn [fst]; [|lia|].
  - replace ez with ex by lia. reflexivity.
  - rewrite iter_xO_value, inject_Z_mult, pow2_inject by lia.
    replace ex with (Zpos d + ez)%Z by lia. rewrite pow2_add. ring.
Qed.

(** [binary_round]: the mantissa is first shifted left to the canonical
    exponent when it has too few bits. *)
Lemma binary_round_rel (s : bool) (m : positive) (e : Z) :
  let val := inject_Z (cond_Zopp s (Zpos m)) * 2 ^ e in
  Qabs val <= 2 ^ 1000 ->
  let r := binary_round prec emax s m e in
  SFfinite r = true /\ Qabs (SF2Q r - val) <= u64 * Qabs val + eta64.
Proof.
  intros val Hmax r. unfold r, binary_round, shl_align.
  set (f := fexp prec emax (Zpos (digits2_pos m) + e)).
  destruct (f - e)%Z as [|d|d] eqn:Hd.
  - apply binary_round_aux_rel; [fold f; lia|exact Hmax].
  - apply binary_round_aux_rel; [fold f; lia|exact Hmax].
  - assert (Hval : inject_Z (cond_Zopp s (Zpos (Pos.iter xO m d))) * 2 ^ f == val).
    { unfold val. destruct s; cbn [cond_Zopp];
        rewrite ?inject_Z_opp, iter_xO_value, inject_Z_mult, pow2_inject by lia;
        replace e with (Zpos d + f)%Z by lia; rewrite pow2_add; ring. }
    rewrite <- Hval in *. apply binary_round_aux_rel; [|exact Hmax].
    rewrite iter_xO_digits.
    replace (Zpos (digits2_pos m) + Zpos d + f)%Z with (Zpos (digits2_pos m) + e)%Z by lia.
    fold f. lia.
Qed.

Lemma binary_normalize_rel (z e : Z) :
  let val := inject_Z z * 2 ^ e in
  Qabs val <= 2 ^ 1000 ->
  let r := binary_normalize prec emax z e false in
  SFfinite r = true /\ Qabs (SF2Q r - val) <= u64 * Qabs val + eta64.
Proof.
  intros val Hmax r. unfold r, binary_normalize. destruct z as [|m|m].
  - split; [reflexivity|]. cbn [SF2Q]. unfold val.
    setoid_replace (inject_Z 0 * 2 ^ e) with 0
      using relation Qeq by (change (inject_Z 0) with 0; ring).
    cbn. discriminate.
  - apply (binary_round_rel false m e). exact Hmax.
  - apply (binary_round_rel true m e). exact Hmax.
Qed.

(** Addition: correctly rounded unless it overflows. *)
Lemma SFadd_error (x y : spec_float) :
  SFfinite x = true -> SFfinite y = true ->
  Qabs (SF2Q x + SF2Q y) <= 2 ^ 1000 ->
  SFfinite (SFadd prec emax x y) = true /\
  Qabs (SF2Q (SFadd prec emax x y) - (SF2Q x + SF2Q y))
  <= u64 * Qabs (SF2Q x + SF2Q y) + eta64.
Proof.
  intros Hfx Hfy Hmax.
  assert (Hexact : forall r q, SFfinite r = true -> SF2Q r == q ->
            SFfinite r = true /\ Qabs (SF2Q r - q) <= u64 * Qabs q + eta64).
  { intros r q Hr Hq. split; [exact Hr|]. rewrite Hq.
    setoid_replace (q - q) with 0
      using relation Qeq by ring.
    change (Qabs 0) with 0.
    assert (0 < eta64) by apply pow2_pos.
    assert (0 <= u64 * Qabs q)
      by (apply Qmult_le_0_compat; [apply Qlt_le_weak, pow2_pos|apply Qabs_nonneg]).
    lra. }
  destruct x as [sx|sx| |sx mx ex]; try discriminate Hfx;
    destruct y as [sy|sy| |sy my ey]; try discriminate Hfy; cbn [SFadd].
  - apply Hexact; [destruct sx, sy; reflexivity|destruct sx, sy; cbn [SF2Q]; ring].
  - apply Hexact; [reflexivity|cbn [SF2Q]; ring].
  - apply Hexact; [reflexivity|cbn [SF2Q]; ring].
  - set (ez := Z.min ex ey).
    set (z := (cond_Zopp sx (Zpos (fst (shl_align mx ex ez)))
               + cond_Zopp sy (Zpos (fst (shl_align my ey ez))))%Z).
    assert (Hval : inject_Z z * 2 ^ ez
                   == SF2Q (S754_finite sx mx ex) + SF2Q (S754_finite sy my ey)).
    { unfold z. cbn [SF2Q]. rewrite inject_Z_plus.
      pose proof (shl_align_value mx ex ez ltac:(unfold ez; lia)) as Hx.
      pose proof (shl_align_value my ey ez ltac:(unfold ez; lia)) as Hy.
      destruct sx, sy; cbn [cond_Zopp]; rewrite ?inject_Z_opp; lra. }
    rewrite <- Hval in *. apply binary_normalize_rel. exact Hmax.
Qed.

End Operations.

Section Primitive.
Local Open Scope Q_scope.

Lemma mul_error (x y : float) :
  is_finite x = true -> is_finite y = true ->
  Qabs (F2Q x * F2Q y) <= 2 ^ 1000 ->
  is_finite (x * y)%float = true /\
  Qabs (F2Q (x * y)%float - F2Q x * F2Q y) <= u64 * Qabs (F2Q x * F2Q y) + eta64.
Proof.
  unfold is_finite, F2Q. rewrite mul_spec. intros Hx Hy Hmax.
  apply SFmul_error; try assumption; apply Prim2SF_valid.
Qed.

Lemma add_error (x y : float) :
  is_finite x = true -> is_finite y = true ->
  Qabs (F2Q x + F2Q y) <= 2 ^ 1000 ->
  is_finite (x + y)%float = true /\
  Qabs (F2Q (x + y)%float - (F2Q x + F2Q y)) <= u64 * Qabs (F2Q x + F2Q y) + eta64.
Proof.
  unfold is_finite, F2Q. rewrite add_spec. intros Hx Hy Hmax.
  apply SFadd_error; assumption.
Qed.

End Primitive.

Section SmootherBinary64.
Import Echo Spec.
Local Open Scope Q_scope.

Lemma EMA_ALPHA_binary64 :
  is_finite (EMA_ALPHA (num := float)) = true /\
  F2Q (EMA_ALPHA (num := float)) == alphaQ.
Proof. split; vm_compute; reflexivity. Qed.

Lemma EMA_BETA_binary64 :
  is_finite (num_sub (num_of_Z 1) (EMA_ALPHA (num := float))) = true /\
  F2Q (num_sub (num_of_Z 1) (EMA_ALPHA (num := float))) == betaQ.
Proof. split; vm_compute; reflexivity. Qed.

Lemma u64_eq : u64 == 1 # 9007199254740992.
Proof. reflexivity. Qed.

Lemma eta64_pos : 0 < eta64.
Proof. apply pow2_pos. Qed.

Lemma eta64_small : eta64 <= 1.
Proof. change 1 with (2 ^ 0). apply pow2_le. lia. Qed.

Lemma Qabs_bounds (x : Q) : - Qabs x <= x /\ x <= Qabs x.
Proof. apply Qabs_Qle_condition. apply Qle_refl. Qed.

Lemma Qabs_scale (c x : Q) : 0 <= c -> Qabs (c * x) == c * Qabs x.
Proof. intros Hc. rewrite Qabs_Qmult, (Qabs_pos c) by exact Hc. reflexivity. Qed.

(** One call of the smoother in binary64, against the exact formula with
    the two coefficients as they are stored. *)
Lemma smooth_step_binary64 (s v : float) :
  is_finite s = true -> is_finite v = true ->
  Qabs (F2Q s) <= 2 ^ 995 -> Qabs (F2Q v) <= 2 ^ 995 ->
  let o := fst (applyExponentialSmoothing (Some s) v) in
  is_finite o = true /\
  Qabs (F2Q o - (alphaQ * F2Q v + betaQ * F2Q s))
  <= 3 * u64 * (alphaQ * Qabs (F2Q v) + betaQ * Qabs (F2Q s)) + 4 * eta64.
Proof.
  intros Hs Hv HS HV o.
  destruct EMA_ALPHA_binary64 as [Hfa Ha]. destruct EMA_BETA_binary64 as [Hfb Hb].
  change o with (PrimFloat.add (PrimFloat.mul EMA_ALPHA v)
                   (PrimFloat.mul (num_sub (num_of_Z 1) EMA_ALPHA) s)).
  set (b := num_sub (num_of_Z 1) (EMA_ALPHA (num := float))) in *.
  set (a := EMA_ALPHA (num := float)) in Hfa, Ha |- *.
  pose proof eta64_pos as Heta. pose proof eta64_small as Heta1.
  pose proof (Qabs_nonneg (F2Q v)) as HV0. pose proof (Qabs_nonneg (F2Q s)) as HS0.
  assert (H995 : 2 ^ 995 * 4 <= 2 ^ 1000).
  { change 4 with (2 ^ 2). rewrite <- pow2_add. apply pow2_le. lia. }
  assert (H995' : 1 <= 2 ^ 995).
  { change 1 with (2 ^ 0). apply pow2_le. lia. }
  set (T := 2 ^ 995) in *. set (M := 2 ^ 1000) in *.
  destruct (mul_error a v Hfa Hv) as [Hf1 He1].
  { rewrite Ha, Qabs_scale by discriminate. fold M. unfold alphaQ. lra. }
  destruct (mul_error b s Hfb Hs) as [Hf2 He2].
  { rewrite Hb, Qabs_scale by discriminate. fold M. unfold betaQ. lra. }
  rewrite Ha, Qabs_scale in He1 by discriminate.
  rewrite Hb, Qabs_scale in He2 by discriminate.
  rewrite u64_eq in He1, He2.
  apply Qabs_diff_Qle_condition in He1, He2.
  set (P1 := F2Q (a * v)%float) in *. set (P2 := F2Q (b * s)%float) in *.
  pose proof (Qabs_bounds (F2Q v)) as [HVl HVu].
  pose proof (Qabs_bounds (F2Q s)) as [HSl HSu].
  set (V := F2Q v) in *. set (S := F2Q s) in *.
  set (aV := Qabs V) in *. set (aS := Qabs S) in *.
  unfold alphaQ, betaQ in *.
  assert (Hsum : Qabs (P1 + P2)
                 <= (alphaQ * aV + betaQ * aS) * (1 + (1 # 9007199254740992)) + 2 * eta64).
  { apply Qabs_Qle_condition. unfold alphaQ, betaQ. split; lra. }
  destruct (add_error (a * v)%float (b * s)%float Hf1 Hf2) as [Hf3 He3].
  { fold P1 P2 M. eapply Qle_trans; [exact Hsum|]. unfold alphaQ, betaQ. lra. }
  split; [exact Hf3|].
  fold P1 P2 in He3. rewrite u64_eq in He3.
  pose proof (Qabs_nonneg (P1 + P2)) as HP0.
  set (aP := Qabs (P1 + P2)) in *.
  apply Qabs_diff_Qle_condition in He3.
  rewrite u64_eq. unfold alphaQ, betaQ in Hsum.
  apply Qabs_diff_Qle_condition. split; lra.
Qed.

End SmootherBinary64.

Section SmootherConvergence.
Import Echo Spec.
Local Open Scope Q_scope.

Lemma tolerance64_eq (v : float) : tolerance64 v == 64 * (u64 * Qabs (F2Q v) + eta64).
Proof.
  unfold tolerance64, u64, eta64.
  setoid_replace (2 ^ (-1069)) with (64 * 2 ^ (-1075)) using relation Qeq
    by (change 64 with (2 ^ 6); rewrite <- pow2_add; reflexivity).
  setoid_replace (2 ^ (-47)) with (64 * 2 ^ (-53)) using relation Qeq by reflexivity.
  ring.
Qed.

Lemma smooth_contracts (s v : float) :
  is_finite s = true -> is_finite v = true ->
  Qabs (F2Q s) <= 2 ^ 995 -> Qabs (F2Q v) <= 2 ^ 995 ->
  let o := fst (applyExponentialSmoothing (Some s) v) in
  is_finite o = true /\
  Qabs (F2Q o - F2Q v)
  <= (91 # 100) * Qabs (F2Q s - F2Q v) + 4 * (u64 * Qabs (F2Q v) + eta64).
Proof.
  intros Hs Hv HS HV o.
  destruct (smooth_step_binary64 s v Hs Hv HS HV) as [Hfin Herr]. fold o in Hfin, Herr.
  split; [exact Hfin|].
  rewrite u64_eq in *. unfold alphaQ, betaQ in Herr.
  pose proof (Qabs_bounds (F2Q v)) as [HVl HVu].
  pose proof (Qabs_bounds (F2Q s - F2Q v)) as [HDl HDu].
  assert (HSa : Qabs (F2Q s) <= Qabs (F2Q v) + Qabs (F2Q s - F2Q v)).
  { setoid_replace (F2Q s) with (F2Q v + (F2Q s - F2Q v)) using relation Qeq at 1 by ring.
    apply Qabs_triangle. }
  pose proof (Qabs_nonneg (F2Q v)). pose proof (Qabs_nonneg (F2Q s)).
  pose proof (Qabs_nonneg (F2Q s - F2Q v)). pose proof eta64_pos.
  set (V := F2Q v) in *. set (S := F2Q s) in *.
  set (aV := Qabs V) in *. set (aS := Qabs S) in *. set (aD := Qabs (S - V)) in *.
  apply Qabs_diff_Qle_condition in Herr.
  apply Qabs_diff_Qle_condition. split; lra.
Qed.

Lemma smoothRepeat_succ (n : nat) (s v : float) :
  smoothRepeat (S n) (Some s) v
  = smoothRepeat n (Some (fst (applyExponentialSmoothing (Some s) v))) v.
Proof. reflexivity. Qed.

Lemma smoothRepeat_excess (v : float) :
  is_finite v = true -> Qabs (F2Q v) <= 2 ^ 990 ->
  forall (n : nat) (s : float) (W : Q),
    is_finite s = true -> 0 <= W -> W <= 2 ^ 992 ->
    Qabs (F2Q s - F2Q v) <= roundoffFloor v + W ->
    let o := fst (smoothRepeat n (Some s) v) in
    is_finite o = true /\
    (Qabs (F2Q o - F2Q v) - roundoffFloor v) * (inject_Z (Z.of_nat n) + 12) <= 11 * W.
Proof.
  intros Hv HV.
  assert (H990 : 1 <= 2 ^ 990) by (change 1 with (2 ^ 0); apply pow2_le; lia).
  assert (H992 : 2 ^ 992 == 4 * 2 ^ 990).
  { change 4 with (2 ^ 2). rewrite <- pow2_add. reflexivity. }
  assert (H995 : 2 ^ 995 == 32 * 2 ^ 990).
  { change 32 with (2 ^ 5). rewrite <- pow2_add. reflexivity. }
  pose proof eta64_pos as Heta. pose proof eta64_small as Heta1.
  pose proof (Qabs_nonneg (F2Q v)) as HV0.
  assert (Hstep : forall (s : float) (W : Q),
            is_finite s = true -> 0 <= W -> W <= 2 ^ 992 ->
            Qabs (F2Q s - F2Q v) <= roundoffFloor v + W ->
            let o := fst (applyExponentialSmoothing (Some s) v) in
            is_finite o = true /\
            Qabs (F2Q o - F2Q v) <= roundoffFloor v + (91 # 100) * W).
  { intros s W Hs HW0 HW HE o.
    assert (HS : Qabs (F2Q s) <= 2 ^ 995).
    { setoid_replace (F2Q s) with (F2Q v + (F2Q s - F2Q v)) using relation Qeq by ring.
      eapply Qle_trans; [apply Qabs_triangle|].
      unfold roundoffFloor in HE. rewrite u64_eq in HE. rewrite H995. rewrite H992 in HW.
      set (T := 2 ^ 990) in *. lra. }
    destruct (smooth_contracts s v Hs Hv HS) as [Hfin Hc].
    { rewrite H995. set (T := 2 ^ 990) in *. lra. }
    split; [exact Hfin|]. fold o in Hc.
    unfold roundoffFloor in *. rewrite u64_eq in *.
    set (aV := Qabs (F2Q v)) in *. lra. }
  induction n as [|n IH]; intros s W Hs HW0 HW HE o.
  - destruct (Hstep s W Hs HW0 HW HE) as [Hfin Hc].
    split; [exact Hfin|].
    change o with (fst (applyExponentialSmoothing (Some s) v)).
    change (inject_Z (Z.of_nat 0)) with 0. lra.
  - destruct (Hstep s W Hs HW0 HW HE) as [Hfin Hc].
    unfold o. rewrite smoothRepeat_succ.
    set (s1 := fst (applyExponentialSmoothing (Some s) v)) in *.
    destruct (IH s1 ((91 # 100) * W) Hfin ltac:(lra) ltac:(lra) Hc) as [Hfin' Hx].
    split; [exact Hfin'|].
    set (X := Qabs (F2Q (fst (smoothRepeat n (Some s1) v)) - F2Q v) - roundoffFloor v) in *.
    assert (Hm : 0 <= inject_Z (Z.of_nat n)).
    { change 0 with (inject_Z 0). rewrite <- Zle_Qle. lia. }
    assert (HS : inject_Z (Z.of_nat (Datatypes.S n)) == inject_Z (Z.of_nat n) + 1).
    { rewrite Nat2Z.inj_succ. unfold Z.succ. rewrite inject_Z_plus. reflexivity. }
    rewrite HS. set (m := inject_Z (Z.of_nat n)) in *.
    destruct (Qlt_le_dec 0 X) as [Hpos|Hneg].
    + assert (0 <= X * m) by (apply Qmult_le_0_compat; lra). lra.
    + assert (X * (m + 1 + 12) <= 0).
      { setoid_replace (X * (m + 1 + 12)) with (- ((- X) * (m + 13))) using relation Qeq by ring.
        assert (0 <= (- X) * (m + 13)) by (apply Qmult_le_0_compat; lra). lra. }
      lra.
Qed.

(** After a [null] start every output stays within the tolerance. *)
Lemma smoothRepeat_from_null_binary64 (v : float) (n : nat) :
  is_finite v = true -> Qabs (F2Q v) <= 2 ^ 990 ->
  let o := fst (smoothRepeat n None v) in
  is_finite o = true /\ Qabs (F2Q o - F2Q v) <= tolerance64 v.
Proof.
  intros Hv HV o.
  pose proof eta64_pos as Heta. pose proof (Qabs_nonneg (F2Q v)) as HV0.
  assert (Hu : 0 <= u64 * Qabs (F2Q v)).
  { apply Qmult_le_0_compat; [apply Qlt_le_weak, pow2_pos|exact HV0]. }
  rewrite tolerance64_eq.
  destruct n as [|n].
  - change o with v. split; [exact Hv|].
    setoid_replace (F2Q v - F2Q v) with 0 using relation Qeq by ring.
    change (Qabs 0) with 0. lra.
  - change o with (fst (smoothRepeat n (Some v) v)).
    destruct (smoothRepeat_excess v Hv HV n v 0 Hv ltac:(lra)) as [Hfin Hx].
    { apply Qlt_le_weak, pow2_pos. }
    { setoid_replace (F2Q v - F2Q v) with 0 using relation Qeq by ring.
      change (Qabs 0) with 0. unfold roundoffFloor. lra. }
    split; [exact Hfin|].
    set (X := Qabs (F2Q (fst (smoothRepeat n (Some v) v)) - F2Q v)) in *.
    assert (Hm : 0 <= inject_Z (Z.of_nat n)).
    { change 0 with (inject_Z 0). rewrite <- Zle_Qle. lia. }
    set (m := inject_Z (Z.of_nat n)) in *.
    assert (HF : 0 < u64 * Qabs (F2Q v) + eta64) by lra.
    unfold roundoffFloor in *. set (F := u64 * Qabs (F2Q v) + eta64) in *.
    destruct (Qlt_le_dec (45 * F) X) as [Hgt|Hle]; [|lra].
    exfalso.
    assert (0 <= (X - 45 * F) * m) by (apply Qmult_le_0_compat; lra).
    lra.
Qed.

(** From any finite earlier state the outputs end up within the
    tolerance. *)
Lemma smoothRepeat_converges_binary64 (s0 v : float) :
  is_finite s0 = true -> is_finite v = true ->
  Qabs (F2Q s0) <= 2 ^ 990 -> Qabs (F2Q v) <= 2 ^ 990 ->
  exists N : nat, forall n, (N <= n)%nat ->
    let o := fst (smoothRepeat n (Some s0) v) in
    is_finite o = true /\ Qabs (F2Q o - F2Q v) <= tolerance64 v.
Proof.
  intros Hs Hv HS HV.
  pose proof eta64_pos as Heta. pose proof (Qabs_nonneg (F2Q v)) as HV0.
  assert (Hu : 0 <= u64 * Qabs (F2Q v)).
  { apply Qmult_le_0_compat; [apply Qlt_le_weak, pow2_pos|exact HV0]. }
  set (W := Qabs (F2Q s0 - F2Q v)).
  assert (HW0 : 0 <= W) by apply Qabs_nonneg.
  assert (HW : W <= 2 ^ 992).
  { assert (H992 : 2 ^ 992 == 4 * 2 ^ 990).
    { change 4 with (2 ^ 2). rewrite <- pow2_add. reflexivity. }
    unfold W. eapply Qle_trans; [apply Qabs_triangle|]. rewrite Qabs_opp, H992.
    assert (0 < 2 ^ 990) by apply pow2_pos. lra. }
  set (F := u64 * Qabs (F2Q v) + eta64).
  assert (HF : 0 < F) by (unfold F; lra).
  exists (Z.to_nat (Qceiling (11 * W / (19 * F)))). intros n Hn o.
  destruct (smoothRepeat_excess v Hv HV n s0 W Hs HW0 HW) as [Hfin Hx].
  { unfold roundoffFloor. fold F. fold W. lra. }
  split; [exact Hfin|]. fold o in Hx.
  rewrite tolerance64_eq. fold F. unfold roundoffFloor in Hx. fold F in Hx.
  set (X := Qabs (F2Q o - F2Q v)) in *.
  pose proof (Qle_ceiling (11 * W / (19 * F))) as Hc.
  assert (Hm : 11 * W / (19 * F) <= inject_Z (Z.of_nat n)).
  { eapply Qle_trans; [exact Hc|]. rewrite <- Zle_Qle. lia. }
  assert (Hm0 : 0 <= inject_Z (Z.of_nat n)).
  { change 0 with (inject_Z 0). rewrite <- Zle_Qle. lia. }
  set (m := inject_Z (Z.of_nat n)) in *.
  assert (Hq : 11 * W <= 19 * F * m).
  { setoid_replace (11 * W) with (19 * F * (11 * W / (19 * F))) using relation Qeq
      by (field; lra).
    apply Qmult_le_l; [lra|exact Hm]. }
  destruct (Qlt_le_dec (64 * F) X) as [Hgt|Hle]; [|exact Hle].
  exfalso.
  assert (0 <= (X - 64 * F) * (m + 12)) by (apply Qmult_le_0_compat; lra).
  lra.
Qed.

End SmootherConvergence.

Section EchoExamples.
Import Echo Spec.

(** C6: the first call of the smoother (state [null]) returns its input
    and stores it; every later call returns and stores
    [alpha * raw + (1 - alpha) * previous] with [alpha = 0.1]. In
    binary64, smoothing a finite constant [v] of magnitude up to [2^990]
    again and again gives, after a [null] start, finite outputs that all
    lie within [2^-47 * |v| + 2^-1069] of [v], and from any finite earlier
    state of that magnitude outputs that end up within this tolerance and
    stay there. The tolerance is needed, the outputs need not reach [v]:
    for [v = 108.9] the run from state 0 settles on 108.89999999999996 and
    the run from state 1000 on 108.90000000000009, fixed points of the
    step on either side of [v]. *)
Theorem C6_smoother_first_call_and_convergence :
  (forall (num : Type) (N : JsNum num) (v : num),
     applyExponentialSmoothing None v = (v, Some v)) /\
  (forall (num : Type) (N : JsNum num) (previous raw : num),
     let smoothed :=
       num_add (num_mul (num_dec 1 1) raw)
               (num_mul (num_sub (num_of_Z 1) (num_dec 1 1)) previous) in
     applyExponentialSmoothing (Some previous) raw = (smoothed, Some smoothed)) /\
  (forall (v : float) (n : nat),
     is_finite v = true -> (Qabs (F2Q v) <= 2 ^ 990)%Q ->
     let o := fst (smoothRepeat n None v) in
     is_finite o = true /\ (Qabs (F2Q o - F2Q v) <= tolerance64 v)%Q) /\
  (forall (s0 v : float),
     is_finite s0 = true -> is_finite v = true ->
     (Qabs (F2Q s0) <= 2 ^ 990)%Q -> (Qabs (F2Q v) <= 2 ^ 990)%Q ->
     exists N : nat, forall n, (N <= n)%nat ->
       let o := fst (smoothRepeat n (Some s0) v) in
       is_finite o = true /\ (Qabs (F2Q o - F2Q v) <= tolerance64 v)%Q) /\
  (let v := num_dec (num := float) 1089 1 in
   v = 108.90000000000001%float /\
   fst (smoothRepeat 400 (Some 0%float) v) = 108.89999999999996%float /\
   fst (applyExponentialSmoothing (Some 108.89999999999996%float) v)
   = 108.89999999999996%float /\
   fst (smoothRepeat 400 (Some 1000%float) v) = 108.90000000000009%float /\
   fst (applyExponentialSmoothing (Some 108.90000000000009%float) v)
   = 108.90000000000009%float).
Proof.
  split; [|split; [|split; [|split]]].
  - intros num N v. reflexivity.
  - intros num N previous raw. reflexivity.
  - intros v n Hv HV. apply smoothRepeat_from_null_binary64; assumption.
  - intros s0 v Hs Hv HS HV. apply smoothRepeat_converges_binary64; assumption.
  - repeat split; vm_compute; reflexivity.
Qed.

Lemma C6_witness :
  exists N : nat, forall n, (N <= n)%nat ->
    let o := fst (smoothRepeat n (Some 0%float) (num_dec 1089 1)) in
    is_finite o = true /\
    (Qabs (F2Q o - F2Q (num_dec 1089 1)) <= tolerance64 (num_dec 1089 1))%Q.
Proof.
  apply (proj1 (proj2 (proj2 (proj2 C6_smoother_first_call_and_convergence)))
           0%float (num_dec 1089 1)).
  - reflexivity.
  - reflexivity.
  - vm_compute. discriminate.
  - vm_compute. discriminate.
Defined.

(** C1 as stated fails: a weak frame (peak 40 at index 700, below the
    threshold 50) arriving when [lastSmoothedDistance] is 100 is dropped by
    the gate, yet the smoother has run on its raw distance 152.46 and the
    state has moved to 105.246. *)
Lemma C1_counterexample :
  let fr := processSamples (num := float) (Some 100%float) (spike 700 40) in
  value (reflection fr) = 40 /\
  skipped fr = true /\
  lastSmoothedDistance' fr = Some 105.24600000000001%float /\
  lastSmoothedDistance' fr <> Some 100%float.
Proof.
  repeat split; try (vm_compute; reflexivity).
  vm_compute. intros Heq. discriminate Heq.
Qed.

Lemma C1_witness :
  let fr := processSamples (num := float) None (constSamples 1800 0) in
  skipped fr = true /\
  (smoothedDistance fr, lastSmoothedDistance' fr)
  = applyExponentialSmoothing None
      (distance (findPrimaryReflection (num := float) (constSamples 1800 0))) /\
  lastSmoothedDistance' fr = Some (smoothedDistance fr).
Proof.
  apply (C1_weak_frame_is_smoothed (num := float) None (constSamples 1800 0)).
  vm_compute. reflexivity.
Defined.

(** C5 as stated fails: with 1800 samples that are 0 except [samples[0] = 5]
    the blind zone ends at index 1, the window [[1, 1800)] has maximum 0,
    first attained at index 1, and the scan returns [index = -1]. *)
Lemma C5_counterexample :
  let samples := spike 0 5 in
  let r := findPrimaryReflection (num := float) samples in
  blindZoneEndIndex r = 1 /\
  value r = 0 /\
  index r = -1 /\
  firstAt samples 1 0 1 /\
  ~ firstAt samples (blindZoneEndIndex r) (value r) (index r).
Proof.
  split; [vm_compute; reflexivity|].
  split; [vm_compute; reflexivity|].
  split; [vm_compute; reflexivity|].
  split.
  - split; [|split].
    + split; [lia|vm_compute; reflexivity].
    + vm_compute; reflexivity.
    + intros i Hi. lia.
  - intros [Hrange _]. vm_compute in Hrange. destruct Hrange as [Hc _].
    apply Hc. reflexivity.
Qed.

Lemma C5_witness :
  let samples := spike 500 200 in
  let r := findPrimaryReflection (num := float) samples in
  windowMax samples (blindZoneEndIndex r) (value r) /\
  firstAt samples (blindZoneEndIndex r) (value r) (index r).
Proof.
  apply (proj1 (C5_primary_reflection_scan (num := float) (spike 500 200))).
  exists 500. vm_compute. repeat split; intros Hc; discriminate Hc.
Defined.

Lemma C7_witness :
  exists front tail,
    spike 1750 200 = front ++ tail /\ length tail = 100%nat /\
    calculateNoiseFloor (num := float) (spike 1750 200)
    = num_div (num_of_Z (fold_right Z.add 0 tail)) (num_of_Z (Z.of_nat (length tail))).
Proof.
  apply (proj2 (C7_noise_floor_mean (num := float) (spike 1750 200))).
  vm_compute. lia.
Defined.

(** The end-to-end example: samples of value 10 except a peak of 200 at
    index 500; the noise floor is 10, the blind zone ends at once, and the
    reflection is the peak at raw distance 500 * 0.2178. *)
Example peak_at_500 :
  let samples := <[500%nat := 200]> (constSamples 1800 10) in
  let r := findPrimaryReflection (num := float) samples in
  calculateNoiseFloor (num := float) samples = 10%float /\
  blindZoneEndIndex r = 0 /\ value r = 200 /\ index r = 500 /\
  distance r = 108.89999999999999%float.
Proof. repeat split; vm_compute; reflexivity. Qed.

(** A short array that never drops to the noise level: the blind zone
    falls back to index 150, beyond the array, and nothing is scanned. *)
Example blind_zone_beyond_array :
  let r := findPrimaryReflection (num := float) [5; 5; 5] in
  blindZoneEndIndex r = 150 /\ value r = 0 /\ index r = -1 /\
  distance r = (-0.2178)%float.
Proof. repeat split; vm_compute; reflexivity. Qed.

(** A dropout after a steady reading: an all-zero frame arriving when
    [lastSmoothedDistance] is 100 pulls the state down to
    [0.1 * -0.2178 + 0.9 * 100]. *)
Example dropout_moves_the_trend :
  let fr := processSamples (num := float) (Some 100%float) (constSamples 1800 0) in
  skipped fr = true /\
  lastSmoothedDistance' fr = Some 89.978219999999993%float.
Proof. split; vm_compute; reflexivity. Qed.

End EchoExamples.

Section DecoderFacts.
Import Buf Decoder Spec.
Local Open Scope nat_scope.

Lemma PACKET_SIZE_eq : PACKET_SIZE = 2 * NUM_SAMPLES + 8.
Proof. reflexivity. Qed.

Lemma PACKET_SIZE_pos : 0 < PACKET_SIZE.
Proof. rewrite PACKET_SIZE_eq. lia. Qed.

(** *** Header search *)

Lemma skipJunk_length buffer : length (skipJunk buffer) <= length buffer.
Proof.
  induction buffer as [|b rest IH]; simpl; [lia|].
  destruct (b =? HEADER_BYTE)%Z; simpl; lia.
Qed.

Lemma skipJunk_head buffer b rest :
  skipJunk buffer = b :: rest -> b = HEADER_BYTE.
Proof.
  induction buffer as [|x buffer IH]; simpl; [discriminate|].
  destruct (Z.eqb_spec x HEADER_BYTE) as [->|Hne]; [|exact IH].
  intros Heq. inversion Heq. reflexivity.
Qed.

Lemma skipJunk_idem buffer : skipJunk (skipJunk buffer) = skipJunk buffer.
Proof.
  induction buffer as [|x buffer IH]; simpl; [reflexivity|].
  destruct (Z.eqb_spec x HEADER_BYTE) as [->|Hne]; [|exact IH].
  simpl; rewrite ?Z.eqb_refl; reflexivity.
Qed.

Lemma skipJunk_app buffer data :
  skipJunk (buffer ++ data)
  = match skipJunk buffer with
    | [] => skipJunk data
    | _ => skipJunk buffer ++ data
    end.
Proof.
  induction buffer as [|x buffer IH]; simpl; [reflexivity|].
  destruct (x =? HEADER_BYTE)%Z; [reflexivity|exact IH].
Qed.

Lemma skipJunk_app_skip buffer data :
  skipJunk (skipJunk buffer ++ data) = skipJunk (buffer ++ data).
Proof.
  rewrite (skipJunk_app buffer), (skipJunk_app (skipJunk buffer)), skipJunk_idem.
  reflexivity.
Qed.

Lemma skipJunk_headerFree junk rest :
  headerFree junk -> skipJunk (junk ++ rest) = skipJunk rest.
Proof.
  induction 1 as [|x junk Hx _ IH]; simpl; [reflexivity|].
  destruct (Z.eqb_spec x HEADER_BYTE); [contradiction|exact IH].
Qed.

Lemma skipJunk_framed packet rest :
  framed packet -> skipJunk (packet ++ rest) = packet ++ rest.
Proof.
  intros [_ Hhead]. destruct packet as [|x packet]; [discriminate|].
  simpl in Hhead. inversion Hhead; subst. simpl; rewrite ?Z.eqb_refl; reflexivity.
Qed.

(** [indexOf] finds the place where [skipJunk] starts. *)
Lemma indexOf_skipJunk buffer :
  (indexOf buffer HEADER_BYTE = (-1)%Z /\ skipJunk buffer = []) \/
  ((0 <= indexOf buffer HEADER_BYTE)%Z /\
   skipJunk buffer = drop (Z.to_nat (indexOf buffer HEADER_BYTE)) buffer /\
   (Z.to_nat (indexOf buffer HEADER_BYTE) < length buffer)).
Proof.
  induction buffer as [|x buffer IH]; simpl; [left; auto|].
  destruct (Z.eqb_spec x HEADER_BYTE) as [->|Hne].
  - right. simpl. repeat split; lia.
  - destruct IH as [[Hnone Hskip]|(Hpos & Hskip & Hlt)].
    + rewrite Hnone. simpl. left. auto.
    + destruct (Z.eqb_spec (indexOf buffer HEADER_BYTE) (-1)) as [Hc|_]; [lia|].
      right. split; [lia|].
      replace (Z.to_nat (1 + indexOf buffer HEADER_BYTE))
        with (S (Z.to_nat (indexOf buffer HEADER_BYTE))) by lia.
      simpl. split; [exact Hskip|lia].
Qed.

(** *** The greedy reading *)

Lemma scan_fuel : forall fuel fuel' stream,
  length (skipJunk stream) <= fuel ->
  length (skipJunk stream) <= fuel' ->
  scan fuel stream = scan fuel' stream.
Proof.
  pose proof PACKET_SIZE_pos as HP.
  induction fuel as [|fuel IH]; intros fuel' stream Hf Hf'.
  - destruct fuel' as [|fuel']; simpl; [reflexivity|].
    destruct (Nat.ltb_spec (length (skipJunk stream)) PACKET_SIZE); [reflexivity|lia].
  - destruct fuel' as [|fuel']; simpl.
    + destruct (Nat.ltb_spec (length (skipJunk stream)) PACKET_SIZE); [reflexivity|lia].
    + destruct (Nat.ltb_spec (length (skipJunk stream)) PACKET_SIZE) as [|Hge];
        [reflexivity|].
      assert (Hlen : length (skipJunk (drop PACKET_SIZE (skipJunk stream)))
                     <= length (skipJunk stream) - PACKET_SIZE).
      { etransitivity; [apply skipJunk_length|]. rewrite length_drop. lia. }
      rewrite (IH fuel' (drop PACKET_SIZE (skipJunk stream))) by lia.
      reflexivity.
Qed.

Lemma scanAll_skip stream stream' :
  skipJunk stream = skipJunk stream' -> scanAll stream = scanAll stream'.
Proof.
  intros Heq. unfold scanAll.
  pose proof (skipJunk_length stream) as Hl.
  pose proof (skipJunk_length stream') as Hl'.
  transitivity (scan (length stream) stream').
  - destruct (length stream); simpl; rewrite Heq; reflexivity.
  - apply scan_fuel; [rewrite <- Heq|]; lia.
Qed.

Lemma scanAll_eq stream :
  scanAll stream
  = let buffer1 := skipJunk stream in
    if length buffer1 <? PACKET_SIZE then ([], buffer1)
    else
      let '(frames, rest) := scanAll (drop PACKET_SIZE buffer1) in
      (processPacket (take PACKET_SIZE buffer1) ++ frames, rest).
Proof.
  pose proof PACKET_SIZE_pos as HP.
  pose proof (skipJunk_length stream) as Hl.
  unfold scanAll at 1. destruct (length stream) as [|n] eqn:Hn; simpl.
  - destruct (Nat.ltb_spec (length (skipJunk stream)) PACKET_SIZE); [reflexivity|lia].
  - destruct (Nat.ltb_spec (length (skipJunk stream)) PACKET_SIZE) as [|Hge];
      [reflexivity|].
    unfold scanAll.
    assert (Hlen : length (skipJunk (drop PACKET_SIZE (skipJunk stream)))
                   <= length (drop PACKET_SIZE (skipJunk stream))).
    { apply skipJunk_length. }
    rewrite (scan_fuel n (length (drop PACKET_SIZE (skipJunk stream)))); [reflexivity| |lia].
    rewrite length_drop in Hlen. lia.
Qed.

Lemma scanAll_short stream :
  length stream < PACKET_SIZE -> scanAll stream = ([], skipJunk stream).
Proof.
  intros Hlen. rewrite scanAll_eq. simpl.
  pose proof (skipJunk_length stream).
  destruct (Nat.ltb_spec (length (skipJunk stream)) PACKET_SIZE); [reflexivity|lia].
Qed.

Lemma scanAll_rest_short stream : length (snd (scanAll stream)) < PACKET_SIZE.
Proof.
  remember (length stream) as n eqn:Hn. revert stream Hn.
  induction n as [n IH] using lt_wf_ind. intros stream Hn.
  pose proof PACKET_SIZE_pos as HP.
  pose proof (skipJunk_length stream) as Hl.
  rewrite scanAll_eq. simpl.
  destruct (Nat.ltb_spec (length (skipJunk stream)) PACKET_SIZE) as [|Hge]; [exact H|].
  specialize (IH (length (drop PACKET_SIZE (skipJunk stream)))).
  destruct (scanAll (drop PACKET_SIZE (skipJunk stream))) as [fs r] eqn:Hs.
  simpl. rewrite length_drop in IH.
  specialize (IH ltac:(lia) (drop PACKET_SIZE (skipJunk stream))).
  rewrite Hs, length_drop in IH. apply IH. reflexivity.
Qed.

Lemma scanAll_rest_skip stream : skipJunk (snd (scanAll stream)) = snd (scanAll stream).
Proof.
  remember (length stream) as n eqn:Hn. revert stream Hn.
  induction n as [n IH] using lt_wf_ind. intros stream Hn.
  pose proof PACKET_SIZE_pos as HP.
  pose proof (skipJunk_length stream) as Hl.
  rewrite scanAll_eq. simpl.
  destruct (Nat.ltb_spec (length (skipJunk stream)) PACKET_SIZE) as [|Hge];
    [apply skipJunk_idem|].
  specialize (IH (length (drop PACKET_SIZE (skipJunk stream)))).
  destruct (scanAll (drop PACKET_SIZE (skipJunk stream))) as [fs r] eqn:Hs.
  simpl. rewrite length_drop in IH.
  specialize (IH ltac:(lia) (drop PACKET_SIZE (skipJunk stream))).
  rewrite Hs, length_drop in IH. apply IH. reflexivity.
Qed.

(** Reading a stream in two pieces: what the first piece leaves is put
    in front of the second. *)
Lemma scanAll_app stream data :
  scanAll (stream ++ data)
  = let '(frames, rest) := scanAll stream in
    let '(frames', rest') := scanAll (rest ++ data) in
    (frames ++ frames', rest').
Proof.
  remember (length stream) as n eqn:Hn. revert stream Hn.
  induction n as [n IH] using lt_wf_ind. intros stream Hn.
  pose proof PACKET_SIZE_pos as HP.
  pose proof (skipJunk_length stream) as Hl.
  rewrite (scanAll_eq stream). simpl.
  destruct (Nat.ltb_spec (length (skipJunk stream)) PACKET_SIZE) as [Hlt|Hge].
  - rewrite (scanAll_skip (stream ++ data) (skipJunk stream ++ data))
      by (symmetry; apply skipJunk_app_skip).
    destruct (scanAll (skipJunk stream ++ data)); reflexivity.
  - rewrite (scanAll_eq (stream ++ data)). simpl.
    rewrite skipJunk_app.
    destruct (skipJunk stream) as [|b buffer1] eqn:Hskip; [simpl in Hge; lia|].
    rewrite <- Hskip in *. clear Hskip b buffer1.
    rewrite length_app.
    destruct (Nat.ltb_spec (length (skipJunk stream) + length data) PACKET_SIZE);
      [lia|].
    rewrite take_app_le, drop_app_le by lia.
    specialize (IH (length (drop PACKET_SIZE (skipJunk stream)))).
    rewrite length_drop in IH.
    specialize (IH ltac:(lia) (drop PACKET_SIZE (skipJunk stream))).
    rewrite length_drop in IH. rewrite IH by reflexivity.
    destruct (scanAll (drop PACKET_SIZE (skipJunk stream))) as [fs r].
    destruct (scanAll (r ++ data)) as [fs' r'].
    rewrite app_assoc. reflexivity.
Qed.

End DecoderFacts.

Section DrainFacts.
Import Buf Decoder Spec.
Local Open Scope nat_scope.

(** One turn of the [while] loop, with the header search read as
    [skipJunk]. *)
Lemma drain_step fuel buffer :
  drain (S fuel) buffer
  = if PACKET_SIZE <=? length buffer then
      if length (skipJunk buffer) <? PACKET_SIZE then Some ([], skipJunk buffer)
      else
        match drain fuel (drop PACKET_SIZE (skipJunk buffer)) with
        | Some (frames, buffer') =>
            Some (processPacket (take PACKET_SIZE (skipJunk buffer)) ++ frames, buffer')
        | None => None
        end
    else Some ([], buffer).
Proof.
  pose proof PACKET_SIZE_pos as HP.
  cbn [drain].
  destruct (Nat.leb_spec PACKET_SIZE (length buffer)) as [Hlen|Hlen]; [|reflexivity].
  unfold slice. rewrite Nat.sub_0_r, !drop_0.
  destruct (indexOf_skipJunk buffer) as [[Hnone Hskip]|(Hpos & Hskip & Hlt)].
  - rewrite Hnone, Hskip. cbn.
    destruct (Nat.ltb_spec 0 PACKET_SIZE); [reflexivity|lia].
  - destruct (Z.eqb_spec (indexOf buffer HEADER_BYTE) (-1)) as [Hc|_]; [lia|].
    destruct (Z.ltb_spec 0 (indexOf buffer HEADER_BYTE)) as [Hgt|Hzero].
    + rewrite <- Hskip. cbn [andb]. reflexivity.
    + assert (Hz : indexOf buffer HEADER_BYTE = 0%Z) by lia.
      rewrite Hz in Hskip. change (Z.to_nat 0) with 0 in Hskip.
      rewrite drop_0 in Hskip. rewrite Hskip. cbn [andb].
      destruct (Nat.ltb_spec (length buffer) PACKET_SIZE); [lia|reflexivity].
Qed.

(** With fuel above the buffer length the loop ends, having sent the
    packets of the greedy reading and left at most a partial packet. *)
Lemma drain_scanAll : forall fuel buffer,
  length buffer < fuel ->
  exists buffer',
    drain fuel buffer = Some (fst (scanAll buffer), buffer') /\
    skipJunk buffer' = snd (scanAll buffer) /\
    length buffer' < PACKET_SIZE.
Proof.
  pose proof PACKET_SIZE_pos as HP.
  induction fuel as [|fuel IH]; intros buffer Hfuel; [lia|].
  pose proof (skipJunk_length buffer) as Hl.
  rewrite drain_step.
  destruct (Nat.leb_spec PACKET_SIZE (length buffer)) as [Hlen|Hlen].
  - rewrite (scanAll_eq buffer). cbn zeta.
    destruct (Nat.ltb_spec (length (skipJunk buffer)) PACKET_SIZE) as [Hlt|Hge].
    + exists (skipJunk buffer). cbn [fst snd].
      split; [reflexivity|split; [apply skipJunk_idem|exact Hlt]].
    + destruct (IH (drop PACKET_SIZE (skipJunk buffer))) as (buffer' & Hd & Hs & Hb).
      { rewrite length_drop. lia. }
      rewrite Hd.
      destruct (scanAll (drop PACKET_SIZE (skipJunk buffer))) as [fs r].
      exists buffer'. cbn [fst snd] in *. auto.
  - exists buffer. rewrite scanAll_short by exact Hlen. cbn [fst snd]. auto.
Qed.

Lemma on_data_scanAll buffer data :
  exists buffer',
    on_data buffer data = Some (fst (scanAll (buffer ++ data)), buffer') /\
    skipJunk buffer' = snd (scanAll (buffer ++ data)) /\
    length buffer' < PACKET_SIZE.
Proof. unfold on_data. apply drain_scanAll. lia. Qed.

(** The frames sent over a sequence of chunks are those of the greedy
    reading of the concatenated stream. *)
Lemma ingest_scanAll : forall chunks buffer,
  length buffer < PACKET_SIZE ->
  exists buffer',
    ingest buffer chunks = Some (fst (scanAll (buffer ++ concat chunks)), buffer') /\
    skipJunk buffer' = snd (scanAll (buffer ++ concat chunks)) /\
    length buffer' < PACKET_SIZE.
Proof.
  induction chunks as [|data chunks IH]; intros buffer Hlen; cbn [ingest concat].
  - exists buffer. rewrite app_nil_r, scanAll_short by exact Hlen. cbn [fst snd]. auto.
  - destruct (on_data_scanAll buffer data) as (buffer1 & Hd & Hs & Hb).
    rewrite Hd.
    destruct (IH buffer1 Hb) as (buffer2 & Hi & Hs2 & Hb2).
    rewrite Hi. exists buffer2.
    rewrite app_assoc, (scanAll_app (buffer ++ data) (concat chunks)).
    rewrite (scanAll_skip (buffer1 ++ concat chunks)
               (snd (scanAll (buffer ++ data)) ++ concat chunks)) in Hs2 |- *
      by (rewrite <- Hs; symmetry; apply skipJunk_app_skip).
    destruct (scanAll (buffer ++ data)) as [fs r]. cbn [fst snd] in *.
    destruct (scanAll (r ++ concat chunks)) as [fs' r']. cbn [fst snd] in *.
    auto.
Qed.

(** *** Unpacking never throws on a full packet *)

Lemma readUInt16BE_in_range buffer offset :
  offset + 2 <= length buffer -> is_Some (readUInt16BE buffer offset).
Proof.
  intros Hlen. unfold readUInt16BE.
  destruct (lookup_lt_is_Some_2 buffer offset ltac:(lia)) as [hi ->].
  destruct (lookup_lt_is_Some_2 buffer (S offset) ltac:(lia)) as [lo ->].
  eauto.
Qed.

Lemma readSamples_in_range buffer base : forall n i,
  base + (i + n) * 2 <= length buffer ->
  exists vs, readSamples buffer base i n = Some vs /\ length vs = n.
Proof.
  induction n as [|n IH]; intros i Hlen; cbn [readSamples]; [eauto|].
  destruct (readUInt16BE_in_range buffer (base + i * 2) ltac:(lia)) as [v ->].
  destruct (IH (S i) ltac:(lia)) as (vs & -> & Hvs).
  exists (v :: vs). cbn. auto.
Qed.

Lemma unpack_total payload :
  length payload = 6 + 2 * NUM_SAMPLES ->
  exists frame, unpack payload = Some frame /\ length (samples frame) = NUM_SAMPLES.
Proof.
  intros Hlen. unfold unpack, readInt16BE.
  destruct (readUInt16BE_in_range payload 0 ltac:(lia)) as [d ->].
  destruct (readUInt16BE_in_range payload 2 ltac:(lia)) as [t ->].
  destruct (readUInt16BE_in_range payload 4 ltac:(lia)) as [w ->].
  assert (Hs : length (drop 6 payload) = NUM_SAMPLES * 2)
    by (rewrite length_drop; lia).
  rewrite Hs, Nat.eqb_refl. cbn [negb].
  destruct (readSamples_in_range (drop 6 payload) 0 NUM_SAMPLES 0 ltac:(lia))
    as (vs & -> & Hvs).
  eexists. split; [reflexivity|exact Hvs].
Qed.

Lemma processPacket_total packet :
  length packet = PACKET_SIZE ->
  exists frame,
    processPacket packet = [frame] /\
    unpack (slice packet 1 (PACKET_SIZE - 1)) = Some frame.
Proof.
  intros Hlen. unfold processPacket.
  destruct (unpack_total (slice packet 1 (PACKET_SIZE - 1))) as (frame & Hu & _).
  - unfold slice. rewrite length_take, length_drop, Hlen, PACKET_SIZE_eq. lia.
  - rewrite Hu. eauto.
Qed.

(** *** Streams of packets separated by header-free junk *)

Lemma scanAll_interleave : forall blocks trailing,
  Forall (fun block => headerFree (fst block) /\ framed (snd block)) blocks ->
  headerFree trailing ->
  scanAll (interleave blocks trailing)
  = (concat (map (fun block => processPacket (snd block)) blocks), []).
Proof.
  pose proof PACKET_SIZE_pos as HP.
  induction blocks as [|[junk packet] blocks IH]; intros trailing Hblocks Htrail;
    cbn [interleave map concat].
  - rewrite scanAll_eq. cbn zeta.
    rewrite <- (app_nil_r trailing), skipJunk_headerFree by exact Htrail.
    cbn. destruct (Nat.ltb_spec 0 PACKET_SIZE); [reflexivity|lia].
  - inversion Hblocks as [|? ? [Hjunk Hframed] Hrest]; subst. cbn [fst snd] in *.
    rewrite scanAll_eq. cbn zeta.
    rewrite skipJunk_headerFree by exact Hjunk.
    rewrite skipJunk_framed by exact Hframed.
    destruct Hframed as [Hlen Hhead].
    rewrite length_app, Hlen.
    destruct (Nat.ltb_spec (PACKET_SIZE + length (interleave blocks trailing))
                PACKET_SIZE); [lia|].
    rewrite take_app_length', drop_app_length' by (symmetry; exact Hlen).
    rewrite IH by assumption. reflexivity.
Qed.

End DrainFacts.

Section DecoderClaims.
Import Buf Decoder Spec.

Lemma processPacket_blocks blocks :
  Forall (fun block => headerFree (fst block) /\ framed (snd block)) blocks ->
  Forall2 (fun block frame => unpack (slice (snd block) 1 (PACKET_SIZE - 1)) = Some frame)
    blocks (concat (map (fun block => processPacket (snd block)) blocks)).
Proof.
  induction 1 as [|[junk packet] blocks [_ [Hlen _]] _ IH]; cbn [map concat fst snd] in *.
  - constructor.
  - destruct (processPacket_total packet Hlen) as (frame & -> & Hu).
    cbn [app]. constructor; [exact Hu|exact IH].
Qed.

(** C9: when the data handler returns, the buffer holds fewer than
    [PACKET_SIZE] bytes; a buffer of at least [PACKET_SIZE] bytes without
    any header byte is discarded whole and nothing is sent. *)
Theorem C9_buffer_below_packet_size (buffer data : list Z) :
  exists frames buffer',
    on_data buffer data = Some (frames, buffer') /\
    (length buffer' < PACKET_SIZE)%nat /\
    ((PACKET_SIZE <= length (buffer ++ data))%nat ->
     indexOf (buffer ++ data) HEADER_BYTE = -1 ->
     frames = [] /\ buffer' = []).
Proof.
  destruct (on_data_scanAll buffer data) as (buffer' & Hd & _ & Hlen).
  exists (fst (scanAll (buffer ++ data))), buffer'.
  split; [exact Hd|split; [exact Hlen|]].
  intros Hfull Hnone. unfold on_data in Hd. rewrite drain_step in Hd.
  destruct (Nat.leb_spec PACKET_SIZE (length (buffer ++ data))) as [_|Hc]; [|lia].
  destruct (indexOf_skipJunk (buffer ++ data)) as [[_ Hskip]|(Hpos & _)]; [|lia].
  rewrite Hskip in Hd. pose proof PACKET_SIZE_pos as HP.
  destruct (Nat.ltb_spec (length (@nil Z)) PACKET_SIZE) as [_|Hc]; [|cbn in Hc; lia].
  injection Hd as Hf Hb. split; symmetry; assumption.
Qed.

Lemma C9_witness :
  exists frames buffer',
    on_data [1; 2; 3] (repeat 7 3700) = Some (frames, buffer') /\
    (length buffer' < PACKET_SIZE)%nat /\
    frames = [] /\ buffer' = [].
Proof.
  destruct (C9_buffer_below_packet_size [1; 2; 3] (repeat 7 3700))
    as (frames & buffer' & Hd & Hlen & Hnone).
  exists frames, buffer'. split; [exact Hd|split; [exact Hlen|]].
  apply Hnone.
  - vm_compute. lia.
  - vm_compute. reflexivity.
Defined.

(** X25: the frames sent do not depend on how the byte sequence is cut
    into chunks, for every byte sequence; and when the sequence consists
    of valid packets with junk between them that contains no header byte
    0xAA, the frames sent are exactly those packets, unpacked, in their
    order, and no header byte stays in the buffer. *)
Theorem X25_chunking_invariance :
  (forall chunks chunks' : list (list Z),
     concat chunks = concat chunks' ->
     exists frames buffer buffer',
       ingest [] chunks = Some (frames, buffer) /\
       ingest [] chunks' = Some (frames, buffer')) /\
  (forall (blocks : list (list Z * list Z)) (trailing : list Z) (chunks : list (list Z)),
     Forall (fun block => headerFree (fst block) /\ validPacket (snd block)) blocks ->
     headerFree trailing ->
     concat chunks = interleave blocks trailing ->
     exists frames buffer,
       ingest [] chunks = Some (frames, buffer) /\
       Forall2 (fun block frame =>
                  unpack (slice (snd block) 1 (PACKET_SIZE - 1)) = Some frame)
         blocks frames /\
       headerFree buffer).
Proof.
  pose proof PACKET_SIZE_pos as HP. split.
  - intros chunks chunks' Heq.
    destruct (ingest_scanAll chunks [] HP) as (buffer & Hi & _).
    destruct (ingest_scanAll chunks' [] HP) as (buffer' & Hi' & _).
    cbn [app] in Hi, Hi'. rewrite <- Heq in Hi'. eauto.
  - intros blocks trailing chunks Hvalid Htrail Heq.
    assert (Hblocks : Forall (fun block => headerFree (fst block) /\ framed (snd block))
                        blocks).
    { eapply Forall_impl; [exact Hvalid|]. intros block [Hj [Hf _]]. auto. }
    destruct (ingest_scanAll chunks [] HP) as (buffer & Hi & Hs & _).
    cbn [app] in Hi, Hs. rewrite Heq, scanAll_interleave in Hi, Hs by assumption.
    cbn [fst snd] in Hi, Hs.
    eexists _, buffer. split; [exact Hi|split; [apply processPacket_blocks; exact Hblocks|]].
    clear - Hs. induction buffer as [|b buffer IH]; [constructor|].
    cbn in Hs. destruct (Z.eqb_spec b HEADER_BYTE) as [|Hne]; [discriminate|].
    constructor; [exact Hne|apply IH; exact Hs].
Qed.

End DecoderClaims.

Section DecoderExamples.
Import Buf Decoder Spec.

Lemma X25_witness :
  let packet := mkPacketBytes (repeat 0 3606) in
  let packet' := mkPacketBytes (repeat 1 3606) in
  let stream := [1; 2] ++ packet ++ [3] ++ packet' ++ [4] in
  (exists frames buffer buffer',
     ingest [] [stream] = Some (frames, buffer) /\
     ingest [] [take 1000 stream; take 4000 (drop 1000 stream); drop 5000 stream]
     = Some (frames, buffer')) /\
  (exists frames buffer,
     ingest [] [take 1000 stream; take 4000 (drop 1000 stream); drop 5000 stream]
     = Some (frames, buffer) /\
     Forall2 (fun block frame =>
                unpack (slice (snd block) 1 (PACKET_SIZE - 1)) = Some frame)
       [([1; 2], packet); ([3], packet')] frames /\
     headerFree buffer).
Proof.
  intros packet packet' stream. split.
  - apply (proj1 X25_chunking_invariance). vm_compute. reflexivity.
  - apply (proj2 X25_chunking_invariance
             [([1; 2], packet); ([3], packet')] [4]).
    + repeat constructor; try (intros Hc; discriminate Hc); vm_compute; reflexivity.
    + repeat constructor. intros Hc; discriminate Hc.
    + vm_compute. reflexivity.
Defined.

(** C4, the defect of C2 and C3 seen from the stream. With the junk
    [1; 0xAA; 2] in front of a valid packet, the handler of server.js
    cuts a packet at the junk header byte and sends it although its
    checksum fails (calculated 0xA8, received 0): one garbage frame is
    sent ([depthIndex] 0x02AA, read from the junk), the valid packet is
    never sent, in one chunk or in two, and two bytes of it are left
    over. [extractAndProcessPacket] of the console, on the same bytes,
    rejects the junk candidate and, its call stack having room for the one
    nested call, returns exactly the valid packet. *)
Theorem C4_header_byte_in_junk_loses_frame :
  let packet := mkPacketBytes (repeat 0 3606) in
  let stream := [1; 0xAA; 2] ++ packet in
  validPacket packet /\
  checksums (slice (drop 1 stream) 0 PACKET_SIZE) = (Some 0, 0xA8) /\
  (exists frame garbage,
     unpack (slice packet 1 (PACKET_SIZE - 1)) = Some frame /\
     ingest [] [stream] = Some ([garbage], [0; 0]) /\
     ingest [] [take 1000 stream; drop 1000 stream] = Some ([garbage], [0; 0]) /\
     depthIndex frame = 0 /\ depthIndex garbage = 0x02AA /\
     [garbage] <> [frame]) /\
  (exists parsed,
     (forall stack,
        Console.extractAndProcessPacket (S stack) stream = (Some parsed, [])) /\
     Console.unpackPayload (slice packet 1 (1 + Console.PAYLOAD_LEN)) = Some parsed).
Proof.
  intros packet stream. split; [split; [split|]; vm_compute; reflexivity|].
  split; [vm_compute; reflexivity|]. split.
  - eexists _, _. split; [vm_compute; reflexivity|].
    split; [vm_compute; reflexivity|].
    split; [vm_compute; reflexivity|].
    split; [reflexivity|]. split; [reflexivity|].
    intros Heq. discriminate Heq.
  - eexists. split; [|vm_compute; reflexivity].
    intros [|stack]; vm_compute; reflexivity.
Qed.

(** Junk inside a packet, even without a header byte, is not recovered
    from either: with the byte 7 inserted after the first 100 bytes of a
    valid packet, the first [PACKET_SIZE] bytes are sent as a frame (sample
    46 reads 7), and the valid packet that follows is then found one byte
    later. *)
Example junk_inside_packet :
  let packet := mkPacketBytes (repeat 0 3606) in
  let packet' := mkPacketBytes (repeat 1 3606) in
  let stream := take 100 packet ++ [7] ++ drop 100 packet ++ packet' in
  exists garbage frame',
    ingest [] [stream] = Some ([garbage; frame'], []) /\
    samples garbage !! 46%nat = Some 7 /\
    unpack (slice packet' 1 (PACKET_SIZE - 1)) = Some frame'.
Proof.
  intros packet packet' stream.
  eexists _, _. split; [vm_compute; reflexivity|].
  split; [reflexivity|vm_compute; reflexivity].
Qed.

End DecoderExamples.

Section TrackerFacts.
Import Buf Console Spec.
Variables (K : nat) (thr tol : Z).

Lemma peakIndices_range threshold rest : forall i j,
  j ∈ peakIndices threshold rest i -> i <= j < i + Z.of_nat (length rest).
Proof.
  induction rest as [|v rest IH]; intros i j Hj; cbn [peakIndices] in Hj.
  - inversion Hj.
  - cbn [length]. destruct (threshold <=? v).
    + apply elem_of_cons in Hj as [->|Hj]; [lia|]. apply IH in Hj. lia.
    + apply IH in Hj. lia.
Qed.

Lemma peakIndices_spec threshold rest : forall i j,
  j ∈ peakIndices threshold rest i <->
  exists v, i <= j /\ rest !! Z.to_nat (j - i) = Some v /\ threshold <= v.
Proof.
  induction rest as [|v rest IH]; intros i j; cbn [peakIndices].
  - split; [intros Hj; inversion Hj|intros (v & _ & Hc & _); discriminate].
  - assert (Hrest : j ∈ peakIndices threshold rest (i + 1) <->
              exists w, i < j /\ (v :: rest) !! Z.to_nat (j - i) = Some w /\ threshold <= w).
    { rewrite IH. split; intros (w & Hi & Hl & Hw); exists w.
      - replace (Z.to_nat (j - i)) with (S (Z.to_nat (j - (i + 1)))) by lia.
        split; [lia|auto].
      - replace (Z.to_nat (j - i)) with (S (Z.to_nat (j - (i + 1)))) in Hl by lia.
        split; [lia|auto]. }
    destruct (Z.leb_spec threshold v) as [Hv|Hv].
    + rewrite elem_of_cons, Hrest. split.
      * intros [->|(w & Hi & Hl & Hw)].
        -- exists v. rewrite Z.sub_diag. cbn. split; [lia|auto].
        -- exists w. split; [lia|auto].
      * intros (w & Hi & Hl & Hw).
        destruct (Z.eq_dec j i) as [->|Hne]; [left; reflexivity|].
        right. exists w. split; [lia|auto].
    + rewrite Hrest. split; intros (w & Hi & Hl & Hw); exists w.
      * split; [lia|auto].
      * destruct (Z.eq_dec j i) as [->|Hne]; [|split; [lia|auto]].
        rewrite Z.sub_diag in Hl. cbn in Hl. inversion Hl; subst. lia.
Qed.

(** Inside the sample range the clamped window of [isMatch] is the
    tolerance band. *)
Lemma isMatch_spec index past :
  Forall (fun j => 0 <= j < Z.of_nat NUM_SAMPLES) past ->
  isMatch tol index past = true <->
  exists j, j ∈ past /\ Z.abs (index - j) <= tol.
Proof.
  intros Hrange. unfold isMatch. rewrite existsb_exists.
  rewrite Forall_forall in Hrange. split.
  - intros (j & Hin & Hj). apply list_elem_of_In in Hin.
    apply andb_true_iff in Hj as [Hlo Hhi].
    apply Z.leb_le in Hlo, Hhi. exists j. split; [exact Hin|lia].
  - intros (j & Hin & Hj). pose proof (Hrange j Hin) as Hr.
    exists j. split; [apply list_elem_of_In; exact Hin|].
    apply andb_true_iff. split; apply Z.leb_le; lia.
Qed.

Lemma countConsistent_fold previous i : forall latest (indexCounts : gmap Z Z),
  i ∈ dom (fold_left
             (fun (indexCounts : gmap Z Z) index =>
                if isConsistent tol previous index
                then <[index := default 0 (indexCounts !! index) + 1]> indexCounts
                else indexCounts)
             latest indexCounts) <->
  i ∈ dom indexCounts \/ (i ∈ latest /\ isConsistent tol previous i = true).
Proof.
  induction latest as [|x latest IH]; intros indexCounts; cbn [fold_left].
  - split; [auto|]. intros [Hd|[Hin _]]; [exact Hd|inversion Hin].
  - rewrite IH, elem_of_cons. destruct (isConsistent tol previous x) eqn:Hx.
    + rewrite dom_insert, elem_of_union, elem_of_singleton. split.
      * intros [[->|Hd]|[Hin Hc]]; auto.
      * intros [Hd|[[->|Hin] Hc]]; auto.
    + split.
      * intros [Hd|[Hin Hc]]; auto.
      * intros [Hd|[[->|Hin] Hc]]; [auto|congruence|auto].
Qed.

Lemma countConsistent_dom previous latest i :
  i ∈ dom (countConsistent tol previous latest) <->
  i ∈ latest /\ isConsistent tol previous i = true.
Proof.
  unfold countConsistent. rewrite countConsistent_fold, dom_empty.
  split; [intros [Hc|Hr]; [inversion Hc|exact Hr]|auto].
Qed.

(** One update of a tracker that has seen [hist]. *)
Lemma update_tracks t hist currentValues :
  (0 < K)%nat ->
  tracks K thr tol t hist ->
  let peaks := peakIndices thr currentValues 0 in
  exists t' result,
    updateAndGetConsistentIndices t currentValues = Some (t', result) /\
    tracks K thr tol t' (hist ++ [peaks]) /\
    consistentIndices t' = result /\
    ((length hist + 1 < K)%nat -> result = ∅) /\
    ((K <= length hist + 1)%nat ->
     forall i, i ∈ result <->
       i ∈ peaks /\
       forall older, older ∈ drop (length hist + 1 - K) hist ->
                     isMatch tol i older = true).
Proof.
  intros K_pos (Hbuf & HK & Hthr & Htol) peaks.
  unfold updateAndGetConsistentIndices. rewrite Hbuf, HK, Hthr, Htol. fold peaks.
  set (pushed := drop (length hist - K) hist ++ [peaks]).
  assert (Hpushed : length pushed = (Nat.min (length hist) K + 1)%nat).
  { unfold pushed. rewrite length_app, length_drop. cbn. lia. }
  set (buffer' := if (K <? length pushed)%nat then drop 1 pushed else pushed).
  assert (Hbuffer' : buffer' = drop (length hist + 1 - K) hist ++ [peaks]).
  { unfold buffer'. destruct (Nat.ltb_spec K (length pushed)) as [Hlt|Hge].
    - unfold pushed. rewrite drop_app_le by (rewrite length_drop; lia).
      rewrite drop_drop. f_equal. f_equal. lia.
    - unfold pushed. f_equal. f_equal. lia. }
  assert (Hinv : drop (length hist + 1 - K) hist ++ [peaks]
                 = drop (length (hist ++ [peaks]) - K) (hist ++ [peaks])).
  { rewrite length_app. cbn [length].
    rewrite drop_app_le by lia. reflexivity. }
  assert (Hlen' : length buffer' = Nat.min (length hist + 1) K).
  { rewrite Hbuffer', length_app, length_drop. cbn. lia. }
  destruct (Nat.ltb_spec (length buffer') K) as [Hshort|Hfull].
  - eexists _, ∅. split; [reflexivity|]. split.
    { unfold tracks. cbn. rewrite Hbuffer', Hinv. auto. }
    split; [reflexivity|]. split; [reflexivity|]. intros Hc. lia.
  - assert (Hlast : last buffer' = Some peaks) by (rewrite Hbuffer'; apply last_snoc).
    rewrite Hlast. eexists _, _. split; [reflexivity|]. split.
    { unfold tracks. cbn. rewrite Hbuffer', Hinv. auto. }
    split; [reflexivity|]. split; [intros Hc; lia|].
    intros _ i. rewrite countConsistent_dom.
    assert (Hprev : take (length buffer' - 1) buffer' = drop (length hist + 1 - K) hist).
    { rewrite Hbuffer', length_app. cbn [length].
      rewrite take_app_length'; [reflexivity|lia]. }
    rewrite Hprev. unfold isConsistent. rewrite forallb_forall.
    split; intros [Hin Hall]; (split; [exact Hin|]); intros older Holder;
      apply Hall; apply list_elem_of_In; exact Holder.
Qed.

Lemma feed_app : forall frames t frames',
  feed t (frames ++ frames')
  = match feed t frames with
    | Some (t', _) => feed t' frames'
    | None => None
    end.
Proof.
  induction frames as [|f frames IH]; intros t frames'; cbn [feed app].
  - reflexivity.
  - destruct (updateAndGetConsistentIndices t f) as [[t' r]|]; [apply IH|reflexivity].
Qed.

Lemma feed_tracks : forall frames t hist,
  (0 < K)%nat ->
  tracks K thr tol t hist ->
  exists t' result,
    feed t frames = Some (t', result) /\
    tracks K thr tol t' (hist ++ map (fun f => peakIndices thr f 0) frames).
Proof.
  induction frames as [|f frames IH]; intros t hist K_pos Ht; cbn [feed map].
  - rewrite app_nil_r. eauto.
  - destruct (update_tracks t hist f K_pos Ht) as (t' & r & -> & Ht' & _).
    destruct (IH t' _ K_pos Ht') as (t'' & r' & -> & Ht'').
    rewrite <- app_assoc in Ht''. eauto.
Qed.

End TrackerFacts.

Section TrackerClaims.
Import Buf Console Spec.

(** C8: a tracker with window [K] returns the empty set for each of the
    first [K - 1] frames; from the [K]-th frame on it returns exactly the
    indices [i] of the newest peak list such that every one of the [K - 1]
    older peak lists in the history has some [j] with [|i - j| <= tolerance].
    With threshold 60, tolerance 5 and window 3, frames whose peak lists
    are [10], [12] and [9] make the third update return the set {9}. *)
Theorem C8_consistent_indices :
  (forall (K : nat) (thr tol : Z) (earlier : list (list Z)) (current : list Z),
     (0 < K)%nat ->
     Forall (fun frame => (length frame <= NUM_SAMPLES)%nat) earlier ->
     exists t1 r1 t2 result,
       feed (newSignalTracker K thr tol) earlier = Some (t1, r1) /\
       updateAndGetConsistentIndices t1 current = Some (t2, result) /\
       consistentIndices t2 = result /\
       ((length earlier + 1 < K)%nat -> result = ∅) /\
       ((K <= length earlier + 1)%nat ->
        forall i, i ∈ result <->
          i ∈ peakIndices thr current 0 /\
          forall older,
            older ∈ drop (length earlier + 1 - K)
                        (map (fun frame => peakIndices thr frame 0) earlier) ->
            exists j, j ∈ older /\ Z.abs (i - j) <= tol)) /\
  (peakIndices THRESHOLD (spike 10 100) 0 = [10] /\
   peakIndices THRESHOLD (spike 12 100) 0 = [12] /\
   peakIndices THRESHOLD (spike 9 100) 0 = [9] /\
   exists t1 r1 t2,
     feed (newSignalTracker CONSISTENCY_SAMPLES THRESHOLD POSITION_TOLERANCE)
       [spike 10 100; spike 12 100] = Some (t1, r1) /\
     updateAndGetConsistentIndices t1 (spike 9 100) = Some (t2, {[ 9 ]})).
Proof.
  split.
  - intros K thr tol earlier current HK Hlen.
    assert (H0 : tracks K thr tol (newSignalTracker K thr tol) []).
    { unfold tracks. cbn. auto. }
    destruct (feed_tracks K thr tol earlier _ [] HK H0) as (t1 & r1 & Hfeed & Ht1).
    cbn [app] in Ht1.
    destruct (update_tracks K thr tol t1 _ current HK Ht1)
      as (t2 & r2 & Hup & _ & Hcons & Hshort & Hfull).
    exists t1, r1, t2, r2.
    rewrite length_map in Hshort, Hfull.
    split; [exact Hfeed|split; [exact Hup|split; [exact Hcons|split; [exact Hshort|]]]].
    intros HKle i. rewrite (Hfull HKle i).
    assert (Hrange : forall older,
              older ∈ drop (length earlier + 1 - K)
                          (map (fun frame => peakIndices thr frame 0) earlier) ->
              Forall (fun j => 0 <= j < Z.of_nat NUM_SAMPLES) older).
    { intros older Hin. apply (subseteq_drop _ _ older) in Hin.
      apply list_elem_of_fmap in Hin as (frame & -> & Hframe).
      rewrite Forall_forall in Hlen. specialize (Hlen frame Hframe).
      apply Forall_forall. intros j Hj. apply peakIndices_range in Hj. lia. }
    split; intros [Hin Hall]; (split; [exact Hin|]); intros older Holder.
    + apply isMatch_spec; [apply Hrange; exact Holder|apply Hall; exact Holder].
    + apply isMatch_spec; [apply Hrange; exact Holder|apply Hall; exact Holder].
  - split; [vm_compute; reflexivity|].
    split; [vm_compute; reflexivity|].
    split; [vm_compute; reflexivity|].
    eexists _, _, _. split; [vm_compute; reflexivity|].
    vm_compute. reflexivity.
Qed.

Lemma C8_witness :
  exists t1 r1 t2 result,
    feed (newSignalTracker 3 60 5) [spike 10 100; spike 12 100] = Some (t1, r1) /\
    updateAndGetConsistentIndices t1 (spike 9 100) = Some (t2, result) /\
    (9 ∈ result <->
       9 ∈ peakIndices 60 (spike 9 100) 0 /\
       forall older,
         older ∈ drop (2 + 1 - 3)
                     (map (fun frame => peakIndices 60 frame 0)
                        [spike 10 100; spike 12 100]) ->
         exists j, j ∈ older /\ Z.abs (9 - j) <= 5).
Proof.
  destruct (proj1 C8_consistent_indices 3%nat 60 5 [spike 10 100; spike 12 100]
              (spike 9 100)) as (t1 & r1 & t2 & result & Hfeed & Hup & _ & _ & Hfull).
  - lia.
  - repeat constructor; vm_compute; lia.
  - exists t1, r1, t2, result.
    split; [exact Hfeed|split; [exact Hup|]]. apply Hfull. cbn. lia.
Defined.

(** A peak seen in one frame only is not consistent: with peak lists
    [10], [12] and then [700], the third update returns the empty set. *)
Example lone_spike_not_consistent :
  exists t,
    feed (newSignalTracker CONSISTENCY_SAMPLES THRESHOLD POSITION_TOLERANCE)
      [spike 10 100; spike 12 100; spike 700 100] = Some (t, ∅).
Proof. eexists. vm_compute. reflexivity. Qed.

End TrackerClaims.

Section ChecksumFacts.
Import Buf Spec.

Lemma xorBytes_from (payload : list Z) (a : Z) :
  fold_left Z.lxor payload a = Z.lxor a (xorBytes payload).
Proof.
  unfold xorBytes. revert a.
  induction payload as [|b payload IH]; intros a; cbn [fold_left].
  - rewrite Z.lxor_0_r. reflexivity.
  - rewrite (IH (Z.lxor a b)), (IH (Z.lxor 0 b)), Z.lxor_0_l, Z.lxor_assoc.
    reflexivity.
Qed.

Lemma xorBytes_cons b payload : xorBytes (b :: payload) = Z.lxor b (xorBytes payload).
Proof.
  unfold xorBytes at 1. cbn [fold_left]. rewrite xorBytes_from, Z.lxor_0_l.
  reflexivity.
Qed.

(** Changing one byte of the payload by [d] changes the XOR by [d]. *)
Lemma xorBytes_insert : forall payload (i : nat) (b d : Z),
  payload !! i = Some b ->
  xorBytes (<[i := Z.lxor b d]> payload) = Z.lxor (xorBytes payload) d.
Proof.
  induction payload as [|x payload IH]; intros i b d Hi; [discriminate|].
  destruct i as [|i].
  - injection Hi as ->.
    change (xorBytes (Z.lxor b d :: payload) = Z.lxor (xorBytes (b :: payload)) d).
    rewrite !xorBytes_cons, !Z.lxor_assoc. f_equal. apply Z.lxor_comm.
  - change (payload !! i = Some b) in Hi.
    change (xorBytes (x :: <[i := Z.lxor b d]> payload)
            = Z.lxor (xorBytes (x :: payload)) d).
    rewrite !xorBytes_cons, (IH i b d Hi), Z.lxor_assoc. reflexivity.
Qed.

Lemma lxor_bit_changes (c bit : Z) : 0 <= bit -> Z.lxor c (2 ^ bit) <> c.
Proof.
  intros Hbit Heq.
  assert (Hz : 2 ^ bit = 0).
  { transitivity (Z.lxor (Z.lxor c c) (2 ^ bit)).
    - rewrite Z.lxor_nilpotent, Z.lxor_0_l. reflexivity.
    - rewrite Z.lxor_assoc, Heq. apply Z.lxor_nilpotent. }
  pose proof (Z.pow_pos_nonneg 2 bit ltac:(lia) Hbit). lia.
Qed.

End ChecksumFacts.

Section ServerIgnoresChecksum.
Import Buf Decoder Spec.
Local Open Scope nat_scope.

(** server.js sends the frame of every packet-sized block that starts
    with the header byte, whatever its last byte is. *)
Lemma on_data_any_checksum packet :
  framed packet ->
  exists frame,
    on_data [] packet = Some ([frame], []) /\
    unpack (slice packet 1 (PACKET_SIZE - 1)) = Some frame.
Proof.
  intros Hframed. pose proof PACKET_SIZE_pos as HP.
  pose proof (skipJunk_framed packet [] Hframed) as Hskip.
  rewrite app_nil_r in Hskip. destruct Hframed as [Hlen Hhead].
  destruct (processPacket_total packet Hlen) as (frame & Hp & Hu).
  exists frame. split; [|exact Hu].
  unfold on_data. cbn [app]. rewrite Hlen, drain_step, Hskip, Hlen.
  rewrite Nat.leb_refl, Nat.ltb_irrefl.
  rewrite drop_ge by lia. rewrite take_ge by lia.
  destruct PACKET_SIZE as [|n] eqn:HPn; [lia|].
  rewrite drain_step. cbn [length].
  destruct (Nat.leb_spec (S n) 0); [lia|].
  rewrite Hp. reflexivity.
Qed.

End ServerIgnoresChecksum.

Section ConsoleFacts.
Import Buf Spec Console.

Lemma PACKET_LEN_eq : PACKET_LEN = (PAYLOAD_LEN + 2)%nat.
Proof. reflexivity. Qed.

Lemma PACKET_LEN_size : PACKET_LEN = Decoder.PACKET_SIZE.
Proof. reflexivity. Qed.

Lemma headerLoop_spec : forall count rest i,
  0 <= i ->
  headerLoop rest i count = -1 \/
  (i <= headerLoop rest i count < i + Z.of_nat count /\
   rest !! Z.to_nat (headerLoop rest i count - i) = Some PACKET_HEADER).
Proof.
  induction count as [|count IH]; intros rest i Hi; cbn [headerLoop]; [auto|].
  destruct rest as [|b rest]; [auto|].
  destruct (Z.eqb_spec b PACKET_HEADER) as [->|Hne].
  - right. rewrite Z.sub_diag. split; [lia|reflexivity].
  - destruct (IH rest (i + 1) ltac:(lia)) as [Hnone|[Hrange Hlook]]; [auto|].
    right. split; [lia|].
    replace (Z.to_nat (headerLoop rest (i + 1) count - i))
      with (S (Z.to_nat (headerLoop rest (i + 1) count - (i + 1)))) by lia.
    exact Hlook.
Qed.

Lemma findHeader_spec buffer :
  findHeader buffer = -1 \/
  (0 <= findHeader buffer /\
   (Z.to_nat (findHeader buffer) + PACKET_LEN <= length buffer)%nat /\
   buffer !! Z.to_nat (findHeader buffer) = Some PACKET_HEADER).
Proof.
  unfold findHeader.
  destruct (headerLoop_spec
              (Z.to_nat (Z.of_nat (length buffer) - Z.of_nat PACKET_LEN + 1))
              buffer 0 ltac:(lia)) as [Hnone|[Hrange Hlook]]; [auto|].
  right. rewrite Z.sub_0_r in Hlook. split; [lia|split; [lia|exact Hlook]].
Qed.

(** One activation of [extractAndProcessPacket], by the branch it takes:
    no complete candidate; a candidate whose checksum matches; a candidate
    whose checksum fails, which costs the buffer its bytes up to and
    including the header and leads to the nested call if the stack has
    room for it. *)
Lemma extractAndProcessPacket_cases stack buffer :
  (findHeader buffer = -1 /\ extractAndProcessPacket stack buffer = (None, buffer)) \/
  (let h := Z.to_nat (findHeader buffer) in
   let candidate := slice buffer h (h + PACKET_LEN) in
   let payload := slice candidate 1 (1 + PAYLOAD_LEN) in
   0 <= findHeader buffer /\
   (h + PACKET_LEN <= length buffer)%nat /\
   buffer !! h = Some PACKET_HEADER /\
   candidate = take PACKET_LEN (drop h buffer) /\
   length candidate = PACKET_LEN /\
   ((Some (xorBytes payload) = candidate !! (PACKET_LEN - 1)%nat /\
     extractAndProcessPacket stack buffer
     = match unpackPayload payload with
       | Some packet => (Some packet, drop (h + PACKET_LEN) buffer)
       | None => (None, buffer)
       end) \/
    (Some (xorBytes payload) <> candidate !! (PACKET_LEN - 1)%nat /\
     extractAndProcessPacket stack buffer
     = match stack with
       | O => (None, drop (h + 1) buffer)
       | S stack' => extractAndProcessPacket stack' (drop (h + 1) buffer)
       end))).
Proof.
  destruct (findHeader_spec buffer) as [Hnone|(Hpos & Hfit & Hhead)].
  { left. split; [exact Hnone|]. destruct stack; cbn [extractAndProcessPacket];
      rewrite Hnone; reflexivity. }
  right. cbn zeta.
  set (h := Z.to_nat (findHeader buffer)) in *.
  set (candidate := slice buffer h (h + PACKET_LEN)).
  assert (Hcand_eq : candidate = take PACKET_LEN (drop h buffer)).
  { unfold candidate, slice. f_equal. lia. }
  assert (Hcand : length candidate = PACKET_LEN).
  { rewrite Hcand_eq, length_take, length_drop. lia. }
  split; [exact Hpos|]. split; [exact Hfit|]. split; [exact Hhead|].
  split; [exact Hcand_eq|]. split; [exact Hcand|].
  assert (Hgo : (findHeader buffer =? -1)
                || (Z.of_nat (length buffer) <? findHeader buffer + Z.of_nat PACKET_LEN)
                = false).
  { destruct (Z.eqb_spec (findHeader buffer) (-1)) as [Hc|_]; [lia|].
    destruct (Z.ltb_spec (Z.of_nat (length buffer))
                (findHeader buffer + Z.of_nat PACKET_LEN)) as [Hc|_]; [lia|].
    reflexivity. }
  destruct (decide (Some (xorBytes (slice candidate 1 (1 + PAYLOAD_LEN)))
                    = candidate !! (PACKET_LEN - 1)%nat)) as [Hsum|Hsum].
  - left. split; [exact Hsum|].
    destruct stack; cbn [extractAndProcessPacket]; rewrite Hgo; fold h; fold candidate;
      rewrite (bool_decide_eq_true_2 _ Hsum); reflexivity.
  - right. split; [exact Hsum|].
    destruct stack; cbn [extractAndProcessPacket]; rewrite Hgo; fold h; fold candidate;
      rewrite (bool_decide_eq_false_2 _ Hsum); reflexivity.
Qed.

(** A packet returned by [extractAndProcessPacket] was cut out of the
    buffer at a header byte and its last byte is the XOR of its payload. *)
Lemma extract_sound : forall stack buffer packet buffer',
  extractAndProcessPacket stack buffer = (Some packet, buffer') ->
  exists junk candidate,
    buffer = junk ++ candidate ++ buffer' /\
    length candidate = PACKET_LEN /\
    candidate !! 0%nat = Some PACKET_HEADER /\
    candidate !! (PACKET_LEN - 1)%nat
      = Some (xorBytes (slice candidate 1 (1 + PAYLOAD_LEN))) /\
    unpackPayload (slice candidate 1 (1 + PAYLOAD_LEN)) = Some packet.
Proof.
  assert (Hstep : forall stack buffer packet buffer',
            extractAndProcessPacket stack buffer = (Some packet, buffer') ->
            (exists candidate,
               buffer = take (Z.to_nat (findHeader buffer)) buffer ++ candidate ++ buffer' /\
               length candidate = PACKET_LEN /\
               candidate !! 0%nat = Some PACKET_HEADER /\
               candidate !! (PACKET_LEN - 1)%nat
                 = Some (xorBytes (slice candidate 1 (1 + PAYLOAD_LEN))) /\
               unpackPayload (slice candidate 1 (1 + PAYLOAD_LEN)) = Some packet) \/
            (exists stack',
               stack = S stack' /\
               extractAndProcessPacket stack'
                 (drop (Z.to_nat (findHeader buffer) + 1) buffer)
               = (Some packet, buffer'))).
  { intros stack buffer packet buffer' Hex.
    destruct (extractAndProcessPacket_cases stack buffer)
      as [[_ Hnone]|(_ & Hfit & Hhead & Hcand_eq & Hcand & [[Hsum Hrun]|[Hsum Hrun]])];
      [rewrite Hnone in Hex; discriminate| |]; cbn zeta in *;
      set (h := Z.to_nat (findHeader buffer)) in *;
      set (candidate := slice buffer h (h + PACKET_LEN)) in *;
      rewrite Hrun in Hex.
    - left.
      destruct (unpackPayload (slice candidate 1 (1 + PAYLOAD_LEN))) as [p|] eqn:Hp;
        [|discriminate].
      injection Hex as -> <-. exists candidate.
      split; [|split; [exact Hcand|split; [|auto]]].
      + rewrite Hcand_eq. rewrite <- drop_drop, app_assoc.
        rewrite <- (take_drop h buffer) at 1. rewrite <- app_assoc. f_equal.
        symmetry. apply take_drop.
      + rewrite Hcand_eq. rewrite lookup_take_lt by (rewrite PACKET_LEN_eq; lia).
        rewrite lookup_drop, Nat.add_0_r. exact Hhead.
    - right. destruct stack as [|stack']; [discriminate|]. eauto. }
  induction stack as [|stack IH]; intros buffer packet buffer' Hex;
    destruct (Hstep _ _ _ _ Hex) as [(cand & Hparts)|(stack' & Hs & Hrec)].
  - eauto.
  - discriminate.
  - eauto.
  - injection Hs as <-. destruct (IH _ _ _ Hrec) as (junk & cand & Heq & Hrest).
    exists (take (Z.to_nat (findHeader buffer) + 1) buffer ++ junk), cand.
    split; [|exact Hrest].
    rewrite <- app_assoc, <- Heq. symmetry. apply take_drop.
Qed.

(** A candidate whose checksum fails costs the buffer its bytes up to and
    including the header byte, and the search starts again behind it. *)
Lemma extract_mismatch_drops_header stack buffer :
  let h := Z.to_nat (findHeader buffer) in
  let candidate := slice buffer h (h + PACKET_LEN) in
  findHeader buffer <> -1 ->
  Some (xorBytes (slice candidate 1 (1 + PAYLOAD_LEN)))
    <> candidate !! (PACKET_LEN - 1)%nat ->
  extractAndProcessPacket (S stack) buffer
  = extractAndProcessPacket stack (drop (h + 1) buffer).
Proof.
  intros h candidate Hfound Hsum.
  destruct (extractAndProcessPacket_cases (S stack) buffer)
    as [[Hnone _]|(_ & _ & _ & _ & _ & [[Hok _]|[_ Hrun]])];
    [contradiction|contradiction|exact Hrun].
Qed.

(** On a buffer that holds one valid packet with a single bit of its
    metadata or samples inverted, the function returns [null], having
    dropped the header byte, whatever room the stack has. *)
Lemma extract_rejects_bit_flip packet (pos : nat) (bit : Z) (stack : nat) :
  validPacket packet ->
  (1 <= pos <= PACKET_LEN - 2)%nat ->
  0 <= bit ->
  extractAndProcessPacket stack (flipBit packet pos bit)
  = (None, drop 1 (flipBit packet pos bit)).
Proof.
  intros [[Hlen Hhead] Hsum] Hpos Hbit.
  rewrite <- PACKET_LEN_size in Hlen, Hsum.
  unfold flipBit.
  destruct (lookup_lt_is_Some_2 packet pos ltac:(lia)) as [b Hb]. rewrite Hb.
  set (corrupt := <[pos := Z.lxor b (2 ^ bit)]> packet).
  assert (Hclen : length corrupt = PACKET_LEN)
    by (unfold corrupt; rewrite length_insert; exact Hlen).
  assert (Hchead : corrupt !! 0%nat = Some PACKET_HEADER).
  { unfold corrupt. rewrite list_lookup_insert_ne by lia. exact Hhead. }
  assert (Hfind : findHeader corrupt = 0).
  { unfold findHeader. rewrite Hclen.
    replace (Z.to_nat (Z.of_nat PACKET_LEN - Z.of_nat PACKET_LEN + 1)) with 1%nat by lia.
    destruct corrupt as [|x rest]; [discriminate|].
    cbn in Hchead. injection Hchead as ->. cbn [headerLoop].
    rewrite Z.eqb_refl. reflexivity. }
  assert (Hshort : forall stack', extractAndProcessPacket stack' (drop 1 corrupt)
                                  = (None, drop 1 corrupt)).
  { intros stack'.
    destruct (extractAndProcessPacket_cases stack' (drop 1 corrupt))
      as [[_ Hrun]|(_ & Hfit & _)]; [exact Hrun|].
    cbn zeta in Hfit. rewrite length_drop, Hclen in Hfit. lia. }
  destruct (extractAndProcessPacket_cases stack corrupt)
    as [[Hnone _]|(_ & _ & _ & _ & _ & Hbranch)]; [lia|].
  cbn zeta in Hbranch. rewrite Hfind in Hbranch.
  change (Z.to_nat 0) with 0%nat in Hbranch.
  assert (Hwhole : slice corrupt 0 (0 + PACKET_LEN) = corrupt).
  { unfold slice. rewrite drop_0. apply take_ge. lia. }
  rewrite Hwhole in Hbranch. change (0 + 1)%nat with 1%nat in Hbranch.
  assert (Hpayload : slice corrupt 1 (1 + PAYLOAD_LEN)
            = <[(pos - 1)%nat := Z.lxor b (2 ^ bit)]> (slice packet 1 (1 + PAYLOAD_LEN))).
  { unfold slice, corrupt.
    replace (1 + PAYLOAD_LEN - 1)%nat with PAYLOAD_LEN by lia.
    destruct packet as [|x rest]; [discriminate|].
    destruct pos as [|pos]; [lia|]. cbn [length] in Hlen.
    change (<[S pos := Z.lxor b (2 ^ bit)]> (x :: rest))
      with (x :: <[pos := Z.lxor b (2 ^ bit)]> rest).
    replace (S pos - 1)%nat with pos by lia. cbn [skipn].
    rewrite !drop_0. apply take_insert_lt. rewrite PACKET_LEN_eq in Hpos. lia. }
  assert (Hlook : slice packet 1 (1 + PAYLOAD_LEN) !! (pos - 1)%nat = Some b).
  { unfold slice. replace (1 + PAYLOAD_LEN - 1)%nat with PAYLOAD_LEN by lia.
    rewrite lookup_take_lt by (rewrite PACKET_LEN_eq in Hpos; lia).
    rewrite lookup_drop. replace (1 + (pos - 1))%nat with pos by lia. exact Hb. }
  assert (Hrecv : corrupt !! (PACKET_LEN - 1)%nat
            = Some (xorBytes (slice packet 1 (1 + PAYLOAD_LEN)))).
  { unfold corrupt. rewrite list_lookup_insert_ne by lia.
    rewrite Hsum. f_equal. }
  rewrite Hpayload, (xorBytes_insert _ _ _ _ Hlook), Hrecv in Hbranch.
  destruct Hbranch as [[Heq _]|[_ Hrun]].
  { injection Heq as Heq. exfalso. exact (lxor_bit_changes _ _ Hbit Heq). }
  rewrite Hrun. destruct stack as [|stack']; [reflexivity|apply Hshort].
Qed.

End ConsoleFacts.

Section ChecksumClaims.
Import Buf Decoder Spec.

(** C2, the defect in server.js: flipping bit 0 of byte 7 (the high byte of
    the first sample) of a valid packet makes the calculated checksum 1
    against a received 0; the handler only warns and still sends the frame
    (its first sample now reads 256), whereas [extractAndProcessPacket] of
    the console returns [null] on the same bytes and drops the header. *)
Theorem C2_bad_checksum_frame_is_sent :
  let packet := mkPacketBytes (repeat 0 3606) in
  let corrupt := flipBit packet 7 0 in
  validPacket packet /\
  checksums corrupt = (Some 0, 1) /\
  (exists frame,
     on_data [] corrupt = Some ([frame], []) /\
     samples frame !! 0%nat = Some 256) /\
  (forall stack, Console.extractAndProcessPacket stack corrupt = (None, drop 1 corrupt)).
Proof.
  intros packet corrupt.
  assert (Hvalid : validPacket packet) by (split; [split|]; vm_compute; reflexivity).
  split; [exact Hvalid|].
  split; [vm_compute; reflexivity|]. split.
  - eexists. split; [vm_compute; reflexivity|reflexivity].
  - intros stack. apply (extract_rejects_bit_flip packet 7 0 stack Hvalid).
    + vm_compute. lia.
    + lia.
Qed.

(** C3, the same defect: a stray header byte right in front of a valid
    packet starts a candidate whose checksum fails (calculated 0xAA,
    received 0). The handler of server.js consumes the whole candidate,
    leaving only the last byte of the valid packet, which is lost; the
    console drops the single header byte and, its call stack having room
    for the one nested call, returns the valid packet. *)
Theorem C3_bad_checksum_consumes_candidate :
  let packet := mkPacketBytes (repeat 0 3606) in
  let stream := 0xAA :: packet in
  checksums (slice stream 0 PACKET_SIZE) = (Some 0, 0xAA) /\
  (exists garbage,
     on_data [] stream = Some ([garbage], [0]) /\ depthIndex garbage = 0xAA00) /\
  (exists parsed,
     (forall stack,
        Console.extractAndProcessPacket (S stack) stream = (Some parsed, [])) /\
     Console.unpackPayload (slice packet 1 (1 + Console.PAYLOAD_LEN)) = Some parsed).
Proof.
  intros packet stream.
  split; [vm_compute; reflexivity|]. split.
  - eexists. split; [vm_compute; reflexivity|reflexivity].
  - eexists. split; [|vm_compute; reflexivity].
    intros [|stack]; vm_compute; reflexivity.
Qed.

End ChecksumClaims.

(** * Further properties: firmware, plotter, console, handlers, logger *)

Section WireFacts.
Import Buf Firmware Wire.

Lemma u8_shiftr8 v : u8 (Z.shiftr v 8) = (v / 256) mod 256.
Proof. unfold u8. rewrite Z.shiftr_div_pow2 by lia. reflexivity. Qed.

Lemma u8_land255 v : u8 (Z.land v 0xFF) = v mod 256.
Proof.
  unfold u8. change 0xFF with (Z.ones 8). rewrite Z.land_ones by lia.
  apply Z.mod_mod. lia.
Qed.

Lemma bytesBE_app xs ys : bytesBE (xs ++ ys) = bytesBE xs ++ bytesBE ys.
Proof.
  induction xs as [|x xs IH]; cbn [bytesBE app]; [reflexivity|].
  rewrite IH. reflexivity.
Qed.

Lemma bytesBE_length values : length (bytesBE values) = (2 * length values)%nat.
Proof.
  induction values as [|v values IH]; cbn [bytesBE length]; [reflexivity|].
  rewrite IH. lia.
Qed.

Lemma bytesBE_bytes values : Forall isByte (bytesBE values).
Proof.
  induction values as [|v values IH]; cbn [bytesBE]; [constructor|].
  repeat constructor; try exact IH; unfold isByte; apply Z.mod_pos_bound; lia.
Qed.

Lemma pairsBE_bytesBE values :
  Forall (fun v => 0 <= v < 65536) values -> pairsBE (bytesBE values) = values.
Proof.
  induction 1 as [|v values Hv _ IH]; cbn [bytesBE pairsBE]; [reflexivity|].
  rewrite IH. f_equal. Z.div_mod_to_equations. lia.
Qed.

(** The signed reading of the two bytes of an [int16_t]. *)
Lemma int16_bytes t :
  -32768 <= t < 32768 ->
  let u := (t / 256) mod 256 * 2 ^ 8 + t mod 256 in
  (if Z.testbit u 15 then u - 65536 else u) = t.
Proof.
  intros Ht u.
  assert (Hu : u = t mod 65536).
  { unfold u. change (2 ^ 8) with 256. Z.div_mod_to_equations. lia. }
  rewrite Hu.
  pose proof (Z.testbit_spec' (t mod 65536) 15 ltac:(lia)) as Hbit.
  change (2 ^ 15) with 32768 in Hbit.
  destruct (Z.testbit (t mod 65536) 15); cbn [Z.b2z] in Hbit;
    Z.div_mod_to_equations; lia.
Qed.

Lemma readUInt16BE_drop buffer offset hi lo rest :
  drop offset buffer = hi :: lo :: rest ->
  readUInt16BE buffer offset = Some (hi * 2 ^ 8 + lo).
Proof.
  intros Hd. unfold readUInt16BE.
  assert (H0 : buffer !! offset = Some hi).
  { rewrite <- (Nat.add_0_r offset), <- lookup_drop, Hd. reflexivity. }
  assert (H1 : buffer !! S offset = Some lo).
  { replace (S offset) with (offset + 1)%nat by lia.
    rewrite <- lookup_drop, Hd. reflexivity. }
  rewrite H0, H1. reflexivity.
Qed.

(** The sample loop of the servers reads the bytes two by two. *)
Lemma readSamples_pairsBE buffer base : forall n i,
  (base + 2 * (i + n) <= length buffer)%nat ->
  readSamples buffer base i n
  = Some (take n (pairsBE (drop (base + i * 2) buffer))).
Proof.
  induction n as [|n IH]; intros i Hlen; cbn [readSamples]; [reflexivity|].
  destruct (drop (base + i * 2) buffer) as [|hi [|lo rest]] eqn:Hd.
  - apply (f_equal length) in Hd. rewrite length_drop in Hd. cbn in Hd. lia.
  - apply (f_equal length) in Hd. rewrite length_drop in Hd. cbn in Hd. lia.
  - rewrite (readUInt16BE_drop _ _ _ _ _ Hd), (IH (S i)) by lia.
    assert (Hd' : drop (base + S i * 2) buffer = rest).
    { replace (base + S i * 2)%nat with ((base + i * 2) + 2)%nat by lia.
      rewrite <- drop_drop, Hd. reflexivity. }
    rewrite Hd'. cbn [pairsBE take]. change (2 ^ 8) with 256. reflexivity.
Qed.

Lemma pairsBE_length bytes : length (pairsBE bytes) = (length bytes / 2)%nat.
Proof.
  remember (length bytes) as n eqn:Hn. revert bytes Hn.
  induction n as [n IH] using lt_wf_ind. intros bytes Hn.
  destruct bytes as [|hi [|lo rest]]; cbn [pairsBE length] in *; subst.
  - reflexivity.
  - reflexivity.
  - rewrite (IH (length rest) ltac:(lia) rest eq_refl).
    change (S (S (length rest))) with (2 + length rest)%nat.
    replace (2 + length rest)%nat with (length rest + 1 * 2)%nat by lia.
    rewrite Nat.div_add by lia. lia.
Qed.

End WireFacts.

Section FirmwareFacts.
Import Buf Firmware Wire.

Lemma sendSamples_eq analogValues : forall out checksum,
  sendSamples analogValues out checksum
  = (out ++ bytesBE analogValues, Z.lxor checksum (xorBytes (bytesBE analogValues))).
Proof.
  induction analogValues as [|v rest IH]; intros out checksum;
    cbn [sendSamples bytesBE].
  - rewrite app_nil_r. change (xorBytes []) with 0. rewrite Z.lxor_0_r. reflexivity.
  - rewrite IH, u8_shiftr8, u8_land255, <- app_assoc, !xorBytes_cons.
    cbn [app]. rewrite !Z.lxor_assoc. reflexivity.
Qed.

(** The payload [sendData] puts between the header and the checksum. *)
Lemma sendData_eq d t v a :
  sendData d t v a
  = Spec.mkPacketBytes (bytesBE ([d; t; u16 (v * 100)] ++ a)).
Proof.
  unfold sendData, Spec.mkPacketBytes. rewrite sendSamples_eq.
  rewrite !u8_shiftr8, !u8_land255, bytesBE_app.
  cbn [bytesBE app].
  rewrite !xorBytes_cons, !Z.lxor_0_l, !Z.lxor_assoc. reflexivity.
Qed.

End FirmwareFacts.

Section PlotterFacts.
Import Buf Plotter900 Wire.
Local Open Scope nat_scope.

Lemma PACKET_SIZE_900 : PACKET_SIZE = 2 * NUM_SAMPLES + 8.
Proof. reflexivity. Qed.

(** One turn of the loop on a buffer that starts with a whole packet. *)
Lemma drain_packet fuel payload rest :
  length payload = 2 * NUM_SAMPLES + 6 ->
  drain (S fuel) (Spec.mkPacketBytes payload ++ rest)
  = match unpack payload with
    | None => Some (Thrown [])
    | Some frame =>
        match drain fuel rest with
        | Some (Done frames buffer') => Some (Done (frame :: frames) buffer')
        | Some (Thrown frames) => Some (Thrown (frame :: frames))
        | None => None
        end
    end.
Proof.
  intros Hlen. cbn [drain].
  assert (Hp : length (Spec.mkPacketBytes payload) = PACKET_SIZE).
  { unfold Spec.mkPacketBytes. cbn [length]. rewrite length_app, Hlen, PACKET_SIZE_900.
    cbn [length]. lia. }
  rewrite length_app, Hp.
  destruct (Nat.leb_spec PACKET_SIZE (PACKET_SIZE + length rest)) as [_|Hc]; [|lia].
  assert (Hidx : indexOf (Spec.mkPacketBytes payload ++ rest) 0xAA = 0%Z) by reflexivity.
  rewrite Hidx. cbn [Z.eqb Z.ltb Z.compare andb].
  assert (Hpacket : slice (Spec.mkPacketBytes payload ++ rest) 0 PACKET_SIZE
                    = Spec.mkPacketBytes payload).
  { unfold slice. rewrite Nat.sub_0_r, drop_0. apply take_app_length'. symmetry. exact Hp. }
  rewrite Hpacket.
  assert (Hpayload : slice (Spec.mkPacketBytes payload) 1 (PACKET_SIZE - 1) = payload).
  { unfold slice, Spec.mkPacketBytes.
    replace (PACKET_SIZE - 1 - 1) with (length payload) by (rewrite PACKET_SIZE_900; lia).
    change (drop 1 (Decoder.HEADER_BYTE :: payload ++ [xorBytes payload]))
      with (payload ++ [xorBytes payload]).
    apply take_app_length. }
  rewrite Hpayload.
  rewrite drop_app_length' by (symmetry; exact Hp). reflexivity.
Qed.

(** The reads of a payload made of big-endian 16-bit values. *)
Lemma unpack_bytesBE d t w bytes :
  (0 <= d < 65536)%Z -> (-32768 <= t < 32768)%Z -> (0 <= w < 65536)%Z ->
  length bytes = 2 * NUM_SAMPLES ->
  unpack (bytesBE [d; t; w] ++ bytes)
  = Some (mkFrame d t w (pairsBE bytes)).
Proof.
  intros Hd Ht Hw Hlen. unfold unpack, readInt16BE.
  cbn [bytesBE app].
  set (d1 := ((d / 256) mod 256)%Z). set (d0 := (d mod 256)%Z).
  set (t1 := ((t / 256) mod 256)%Z). set (t0 := (t mod 256)%Z).
  set (w1 := ((w / 256) mod 256)%Z). set (w0 := (w mod 256)%Z).
  change (readUInt16BE (d1 :: d0 :: t1 :: t0 :: w1 :: w0 :: bytes) 0)
    with (Some (d1 * 2 ^ 8 + d0)%Z).
  change (readUInt16BE (d1 :: d0 :: t1 :: t0 :: w1 :: w0 :: bytes) 2)
    with (Some (t1 * 2 ^ 8 + t0)%Z).
  change (readUInt16BE (d1 :: d0 :: t1 :: t0 :: w1 :: w0 :: bytes) 4)
    with (Some (w1 * 2 ^ 8 + w0)%Z).
  change (drop 6 (d1 :: d0 :: t1 :: t0 :: w1 :: w0 :: bytes)) with bytes.
  rewrite (readSamples_pairsBE bytes 0 NUM_SAMPLES 0) by lia.
  cbn [Nat.add Nat.mul]. rewrite drop_0.
  rewrite take_ge by (rewrite pairsBE_length, Hlen, Nat.mul_comm, Nat.div_mul; lia).
  unfold t1, t0. rewrite (int16_bytes t Ht). do 2 f_equal.
  - unfold d1, d0. change (2 ^ 8)%Z with 256%Z. Z.div_mod_to_equations. lia.
  - unfold w1, w0. change (2 ^ 8)%Z with 256%Z. Z.div_mod_to_equations. lia.
Qed.

End PlotterFacts.

Section ByteFacts.
Import Buf Wire.

Lemma lxor_byte a b : isByte a -> isByte b -> isByte (Z.lxor a b).
Proof.
  unfold isByte. intros Ha Hb.
  assert (Hnn : 0 <= Z.lxor a b) by (apply Z.lxor_nonneg; lia).
  split; [exact Hnn|].
  destruct (Z.eq_dec (Z.lxor a b) 0) as [->|Hne]; [lia|].
  apply (Z.log2_lt_pow2 _ 8); [lia|].
  pose proof (Z.log2_lxor a b ltac:(lia) ltac:(lia)) as Hl.
  assert (Ha8 : Z.log2 a < 8).
  { destruct (Z.eq_dec a 0) as [->|]; [cbn; lia|apply Z.log2_lt_pow2; lia]. }
  assert (Hb8 : Z.log2 b < 8).
  { destruct (Z.eq_dec b 0) as [->|]; [cbn; lia|apply Z.log2_lt_pow2; lia]. }
  lia.
Qed.

Lemma xorBytes_byte payload : Forall isByte payload -> isByte (xorBytes payload).
Proof.
  induction 1 as [|b payload Hb _ IH].
  - unfold isByte. cbn. lia.
  - rewrite xorBytes_cons. apply lxor_byte; assumption.
Qed.

(** A packet built from a payload: its length, header, checksum byte and
    the payload it carries. *)
Lemma mkPacketBytes_shape payload :
  let p := Spec.mkPacketBytes payload in
  length p = (length payload + 2)%nat /\
  p !! 0%nat = Some 0xAA /\
  slice p 1 (length p - 1) = payload /\
  p !! (length p - 1)%nat = Some (xorBytes payload).
Proof.
  intros p. unfold p, Spec.mkPacketBytes.
  assert (Hlen : length (Decoder.HEADER_BYTE :: payload ++ [xorBytes payload])
                 = (length payload + 2)%nat).
  { cbn [length]. rewrite length_app. cbn [length]. lia. }
  rewrite Hlen. split; [reflexivity|split; [reflexivity|split]].
  - unfold slice. replace (length payload + 2 - 1 - 1)%nat with (length payload) by lia.
    change (drop 1 (Decoder.HEADER_BYTE :: payload ++ [xorBytes payload]))
      with (payload ++ [xorBytes payload]).
    apply take_app_length.
  - replace (length payload + 2 - 1)%nat with (S (length payload)) by lia.
    change ((payload ++ [xorBytes payload]) !! length payload = Some (xorBytes payload)).
    rewrite lookup_app_r by lia. rewrite Nat.sub_diag. reflexivity.
Qed.

End ByteFacts.

Section FirmwarePackets.
Import Buf Wire.

(** X1: whatever the globals hold, [sendData] of the 16-bit sketch writes
    a well-formed packet: the header 0xAA, six metadata bytes, two bytes
    per sample and a last byte that is the XOR of everything between it
    and the header; every value written is a byte. *)
Theorem X1_sendData_packet (d t v : Z) (a : list Z) :
  let p := Firmware.sendData d t v a in
  length p = (1 + 6 + 2 * length a + 1)%nat /\
  p !! 0%nat = Some 0xAA /\
  Forall isByte p /\
  p !! (length p - 1)%nat = Some (xorBytes (slice p 1 (length p - 1))).
Proof.
  intros p. unfold p. rewrite sendData_eq.
  set (payload := bytesBE ([d; t; Firmware.u16 (v * 100)] ++ a)).
  destruct (mkPacketBytes_shape payload) as (Hlen & Hhead & Hpay & Hsum).
  assert (Hbytes : Forall isByte payload) by apply bytesBE_bytes.
  split; [|split; [exact Hhead|split]].
  - rewrite Hlen. unfold payload. rewrite bytesBE_length, length_app.
    change (length [d; t; Firmware.u16 (v * 100)]) with 3%nat. lia.
  - unfold Spec.mkPacketBytes. constructor; [unfold isByte, Decoder.HEADER_BYTE; lia|].
    apply Forall_app. split; [exact Hbytes|].
    constructor; [apply xorBytes_byte; exact Hbytes|constructor].
  - rewrite Hpay. exact Hsum.
Qed.

(** The frame the 900-sample plotter makes of a cycle's values. *)
Lemma plotter_reads_cycle fuel c rest :
  cycleInRange Plotter900.NUM_SAMPLES c ->
  Plotter900.drain (S fuel)
    (Firmware.sendData (depthDetectSample c) (temp_scaled c) (vDrv c) (analogValues c)
     ++ rest)
  = match Plotter900.drain fuel rest with
    | Some (Plotter900.Done frames buffer') =>
        Some (Plotter900.Done
                (Plotter900.mkFrame (depthDetectSample c) (temp_scaled c)
                   (vDrv c * 100) (analogValues c) :: frames) buffer')
    | Some (Plotter900.Thrown frames) =>
        Some (Plotter900.Thrown
                (Plotter900.mkFrame (depthDetectSample c) (temp_scaled c)
                   (vDrv c * 100) (analogValues c) :: frames))
    | None => None
    end.
Proof.
  intros (Hd & Ht & Hv & Hlen & Ha).
  rewrite sendData_eq, bytesBE_app.
  rewrite drain_packet
    by (rewrite length_app, !bytesBE_length, Hlen; cbn [length]; lia).
  unfold Firmware.u16. rewrite (Z.mod_small (vDrv c * 100)) by (cbn; lia).
  rewrite unpack_bytesBE by (try assumption; rewrite bytesBE_length, Hlen; lia).
  rewrite pairsBE_bytesBE by exact Ha. reflexivity.
Qed.

(** X2: round trip between the 16-bit sketch and the 900-sample plotter.
    For cycles whose values fit the wire format, the packets [sendData]
    writes back to back, received in one chunk on an empty buffer, are
    decoded into one frame per cycle, in order, carrying the depth index,
    the signed scaled temperature, [vDrv * 100] and the samples unchanged;
    nothing is left in the buffer. *)
Theorem X2_firmware_plotter_round_trip (cycles : list Cycle) :
  Forall (cycleInRange Plotter900.NUM_SAMPLES) cycles ->
  Plotter900.on_data []
    (concat (map (fun c => Firmware.sendData (depthDetectSample c) (temp_scaled c)
                              (vDrv c) (analogValues c)) cycles))
  = Some (Plotter900.Done
            (map (fun c => Plotter900.mkFrame (depthDetectSample c) (temp_scaled c)
                             (vDrv c * 100) (analogValues c)) cycles)
            []).
Proof.
  intros Hcycles. unfold Plotter900.on_data. cbn [app].
  set (send := fun c => Firmware.sendData (depthDetectSample c) (temp_scaled c)
                          (vDrv c) (analogValues c)).
  assert (Hgen : forall fuel, (length cycles < fuel)%nat ->
            Plotter900.drain fuel (concat (map send cycles))
            = Some (Plotter900.Done
                      (map (fun c => Plotter900.mkFrame (depthDetectSample c)
                                       (temp_scaled c) (vDrv c * 100) (analogValues c))
                         cycles) [])).
  { induction Hcycles as [|c cycles Hc _ IH]; intros fuel Hfuel.
    - destruct fuel as [|fuel]; [lia|]. reflexivity.
    - destruct fuel as [|fuel]; [cbn in Hfuel; lia|].
      cbn [map concat]. unfold send at 1.
      rewrite (plotter_reads_cycle fuel c _ Hc).
      rewrite IH by (cbn in Hfuel; lia). reflexivity. }
  apply Hgen.
  assert (Hlen : forall cs, (length cs <= length (concat (map send cs)))%nat).
  { induction cs as [|c cs IH]; cbn [map concat length]; [lia|].
    rewrite length_app. unfold send at 1. rewrite sendData_eq.
    unfold Spec.mkPacketBytes. cbn [length]. lia. }
  specialize (Hlen cycles). lia.
Qed.

Lemma X2_witness :
  let c := mkCycle 512 (-250) 0 (repeat 1023 900) in
  Plotter900.on_data []
    (concat (map (fun c => Firmware.sendData (depthDetectSample c) (temp_scaled c)
                              (vDrv c) (analogValues c)) [c; c]))
  = Some (Plotter900.Done
            (map (fun c => Plotter900.mkFrame (depthDetectSample c) (temp_scaled c)
                             (vDrv c * 100) (analogValues c)) [c; c])
            []).
Proof.
  apply (X2_firmware_plotter_round_trip
           [mkCycle 512 (-250) 0 (repeat 1023 900); mkCycle 512 (-250) 0 (repeat 1023 900)]).
  assert (Hc : cycleInRange Plotter900.NUM_SAMPLES (mkCycle 512 (-250) 0 (repeat 1023 900))).
  { unfold cycleInRange. cbn [depthDetectSample temp_scaled vDrv analogValues].
    split; [lia|split; [lia|split; [lia|split; [apply repeat_length|]]]].
    apply Forall_forall. intros x Hx. apply list_elem_of_In, repeat_spec in Hx. lia. }
  constructor; [exact Hc|constructor; [exact Hc|constructor]].
Defined.

Lemma sendSamplesR3_eq analogValues : forall out checksum,
  FirmwareR3.sendSamples analogValues out checksum
  = (out ++ analogValues, Z.lxor checksum (xorBytes analogValues)).
Proof.
  induction analogValues as [|v rest IH]; intros out checksum;
    cbn [FirmwareR3.sendSamples].
  - rewrite app_nil_r. change (xorBytes []) with 0. rewrite Z.lxor_0_r. reflexivity.
  - rewrite IH, <- app_assoc, xorBytes_cons, Z.lxor_assoc. reflexivity.
Qed.

Lemma sendDataR3_eq d t v a :
  FirmwareR3.sendData d t v a
  = Spec.mkPacketBytes (bytesBE [d; t; Firmware.u16 (v * 100)] ++ a).
Proof.
  unfold FirmwareR3.sendData, Spec.mkPacketBytes. rewrite sendSamplesR3_eq.
  rewrite !u8_shiftr8, !u8_land255.
  cbn [bytesBE app].
  rewrite !xorBytes_cons, !Z.lxor_0_l, !Z.lxor_assoc. reflexivity.
Qed.

Lemma pairsBE_lookup : forall bytes (i : nat) hi lo,
  bytes !! (2 * i)%nat = Some hi -> bytes !! (2 * i + 1)%nat = Some lo ->
  pairsBE bytes !! i = Some (hi * 256 + lo).
Proof.
  intros bytes i. revert bytes.
  induction i as [|i IH]; intros bytes hi lo Hhi Hlo.
  - destruct bytes as [|b0 [|b1 rest]]; try discriminate.
    cbn in Hhi, Hlo. injection Hhi as ->. injection Hlo as ->. reflexivity.
  - replace (2 * S i)%nat with (S (S (2 * i))) in Hhi by lia.
    replace (2 * S i + 1)%nat with (S (S (2 * i + 1))) in Hlo by lia.
    destruct bytes as [|b0 [|b1 rest]]; try discriminate.
    cbn [pairsBE]. apply (IH rest hi lo); assumption.
Qed.

(** X3: the sketch with one-byte samples writes header, six metadata
    bytes, its 1800 sample bytes and the XOR of all of them: 1808 bytes,
    the packet size of the 900-sample plotter. That plotter accepts the
    packet and reads the sample bytes two by two: its sample [i] is
    [256 * analogValues[2i] + analogValues[2i+1]]. *)
Theorem X3_one_byte_samples_read_in_pairs (d t v : Z) (a : list Z) :
  0 <= d < 65536 -> -32768 <= t < 32768 -> 0 <= v * 100 < 65536 ->
  length a = FirmwareR3.NUM_SAMPLES ->
  let p := FirmwareR3.sendData d t v a in
  length p = Plotter900.PACKET_SIZE /\
  p !! (length p - 1)%nat = Some (xorBytes (slice p 1 (length p - 1))) /\
  Plotter900.on_data [] p
  = Some (Plotter900.Done [Plotter900.mkFrame d t (v * 100) (pairsBE a)] []) /\
  length (pairsBE a) = Plotter900.NUM_SAMPLES /\
  forall (i : nat) hi lo,
    a !! (2 * i)%nat = Some hi -> a !! (2 * i + 1)%nat = Some lo ->
    pairsBE a !! i = Some (hi * 256 + lo).
Proof.
  intros Hd Ht Hv Hlen p. unfold p. rewrite sendDataR3_eq.
  set (payload := bytesBE [d; t; Firmware.u16 (v * 100)] ++ a).
  destruct (mkPacketBytes_shape payload) as (Hplen & _ & Hpay & Hsum).
  assert (Hpl : length payload = (2 * Plotter900.NUM_SAMPLES + 6)%nat).
  { unfold payload. rewrite length_app, Hlen. reflexivity. }
  split; [rewrite Hplen, Hpl; reflexivity|].
  split; [rewrite Hpay; exact Hsum|].
  split; [|split; [|intros i hi lo; apply pairsBE_lookup]].
  - unfold Plotter900.on_data. cbn [app].
    rewrite Hplen. replace (length payload + 2)%nat with (S (length payload + 1)) by lia.
    rewrite <- (app_nil_r (Spec.mkPacketBytes payload)).
    rewrite drain_packet by exact Hpl.
    unfold payload, Firmware.u16. rewrite (Z.mod_small (v * 100)) by (cbn; lia).
    rewrite unpack_bytesBE by (try assumption; rewrite Hlen; reflexivity).
    reflexivity.
  - rewrite pairsBE_length, Hlen. reflexivity.
Qed.

Lemma X3_witness :
  let a := repeat 200 1800 in
  let p := FirmwareR3.sendData 512 2550 0 a in
  length p = Plotter900.PACKET_SIZE /\
  p !! (length p - 1)%nat = Some (xorBytes (slice p 1 (length p - 1))) /\
  Plotter900.on_data [] p
  = Some (Plotter900.Done [Plotter900.mkFrame 512 2550 (0 * 100) (pairsBE a)] []) /\
  length (pairsBE a) = Plotter900.NUM_SAMPLES /\
  forall (i : nat) hi lo,
    a !! (2 * i)%nat = Some hi -> a !! (2 * i + 1)%nat = Some lo ->
    pairsBE a !! i = Some (hi * 256 + lo).
Proof.
  apply (X3_one_byte_samples_read_in_pairs 512 2550 0 (repeat 200 1800));
    try lia. apply repeat_length.
Defined.

End FirmwarePackets.

Section SpiFacts.
Import Firmware Wire Check.

Lemma allBytes_complete b : isByte b -> In b allBytes.
Proof.
  intros Hb. unfold allBytes. apply in_map_iff.
  exists (Z.to_nat b). split; [unfold isByte in Hb; lia|].
  apply in_seq. unfold isByte in Hb. lia.
Qed.

Lemma spiWriteOk_all :
  forallb (fun addr => forallb (spiWriteOk addr) allBytes) allBytes = true.
Proof. vm_compute. reflexivity. Qed.

Lemma spiReadOk_all : forallb spiReadOk allBytes = true.
Proof. vm_compute. reflexivity. Qed.

(** X4: every command the sketches put on the SPI bus is well formed.
    For all bytes [addr] and [data], the two bytes of [tuss4470Write]
    carry an odd number of one bits (the parity bit is bit 0 of the first
    byte), the register address [addr & 0x3F] in bits 6..1, a clear bit 7
    and [data] unchanged; those of [tuss4470Read] carry odd parity, the
    address, a set bit 7 and an empty second byte. *)
Theorem X4_spi_command_parity (addr data : Z) :
  isByte addr -> isByte data ->
  let '(w0, w1) := tuss4470Write addr data in
  let '(r0, r1) := tuss4470Read addr in
  (Z.odd (ones16 (w0 * 256 + w1)) = true /\
   Z.shiftr (Z.land w0 0x7E) 1 = Z.land addr 0x3F /\
   Z.testbit w0 7 = false /\ w1 = data /\ isByte w0) /\
  (Z.odd (ones16 (r0 * 256 + r1)) = true /\
   Z.shiftr (Z.land r0 0x7E) 1 = Z.land addr 0x3F /\
   Z.testbit r0 7 = true /\ r1 = 0 /\ isByte r0).
Proof.
  intros Haddr Hdata.
  pose proof spiWriteOk_all as Hw. rewrite forallb_forall in Hw.
  specialize (Hw addr (allBytes_complete addr Haddr)).
  rewrite forallb_forall in Hw.
  specialize (Hw data (allBytes_complete data Hdata)).
  pose proof spiReadOk_all as Hr. rewrite forallb_forall in Hr.
  specialize (Hr addr (allBytes_complete addr Haddr)).
  unfold spiWriteOk in Hw. unfold spiReadOk in Hr.
  destruct (tuss4470Write addr data) as [w0 w1].
  destruct (tuss4470Read addr) as [r0 r1].
  repeat (apply andb_true_iff in Hw; destruct Hw as [Hw ?]).
  repeat (apply andb_true_iff in Hr; destruct Hr as [Hr ?]).
  unfold isByte.
  repeat match goal with
         | H : (_ =? _) = true |- _ => apply Z.eqb_eq in H
         | H : (_ <=? _) = true |- _ => apply Z.leb_le in H
         | H : (_ <? _) = true |- _ => apply Z.ltb_lt in H
         | H : negb _ = true |- _ => apply negb_true_iff in H
         end.
  repeat split; assumption.
Qed.

Lemma X4_witness :
  let '(w0, w1) := tuss4470Write 0x17 0x19 in
  let '(r0, r1) := tuss4470Read 0x17 in
  (Z.odd (ones16 (w0 * 256 + w1)) = true /\
   Z.shiftr (Z.land w0 0x7E) 1 = Z.land 0x17 0x3F /\
   Z.testbit w0 7 = false /\ w1 = 0x19 /\ isByte w0) /\
  (Z.odd (ones16 (r0 * 256 + r1)) = true /\
   Z.shiftr (Z.land r0 0x7E) 1 = Z.land 0x17 0x3F /\
   Z.testbit r0 7 = true /\ r1 = 0 /\ isByte r0).
Proof.
  apply (X4_spi_command_parity 0x17 0x19); unfold isByte; lia.
Defined.

End SpiFacts.

Section PlotterTotal.
Import Buf Plotter900 Wire.
Local Open Scope nat_scope.

Lemma unpack900_total payload :
  length payload = 6 + 2 * NUM_SAMPLES ->
  exists frame, unpack payload = Some frame /\ length (samples frame) = NUM_SAMPLES.
Proof.
  intros Hlen. unfold unpack, readInt16BE.
  destruct (readUInt16BE_in_range payload 0 ltac:(lia)) as [d ->].
  destruct (readUInt16BE_in_range payload 2 ltac:(lia)) as [t ->].
  destruct (readUInt16BE_in_range payload 4 ltac:(lia)) as [w ->].
  destruct (readSamples_in_range (drop 6 payload) 0 NUM_SAMPLES 0) as (vs & -> & Hvs).
  { rewrite length_drop. lia. }
  eexists. split; [reflexivity|exact Hvs].
Qed.

Lemma drain900_total : forall fuel buffer,
  length buffer < fuel ->
  exists frames buffer',
    drain fuel buffer = Some (Done frames buffer') /\
    length buffer' < PACKET_SIZE /\
    Forall (fun frame => length (samples frame) = NUM_SAMPLES) frames /\
    length frames * PACKET_SIZE + length buffer' <= length buffer.
Proof.
  assert (HP : PACKET_SIZE = 1808) by reflexivity.
  induction fuel as [|fuel IH]; intros buffer Hfuel; [lia|].
  cbn [drain].
  destruct (Nat.leb_spec PACKET_SIZE (length buffer)) as [Hlen|Hlen].
  2:{ exists [], buffer. cbn. auto with lia. }
  destruct (indexOf_skipJunk buffer) as [[Hnone _]|(Hpos & _ & Hlt)].
  { change Decoder.HEADER_BYTE with 170%Z in Hnone. rewrite Hnone. cbn.
    exists [], []. cbn. split; [reflexivity|]. split; [lia|]. split; [constructor|lia]. }
  change Decoder.HEADER_BYTE with 170%Z in Hpos, Hlt.
  destruct (Z.eqb_spec (indexOf buffer 170) (-1)) as [Hc|_]; [lia|].
  set (buffer1 := if (0 <? indexOf buffer 170)%Z
                  then drop (Z.to_nat (indexOf buffer 170)) buffer else buffer).
  assert (Hb1 : length buffer1 <= length buffer).
  { unfold buffer1. destruct (0 <? indexOf buffer 170)%Z; [rewrite length_drop|]; lia. }
  assert (Hfull : (0 <? indexOf buffer 170)%Z = false -> PACKET_SIZE <= length buffer1).
  { unfold buffer1. intros ->. exact Hlen. }
  destruct ((0 <? indexOf buffer 170)%Z && (length buffer1 <? PACKET_SIZE)) eqn:Hbrk.
  { apply andb_true_iff in Hbrk as [_ Hshort]. apply Nat.ltb_lt in Hshort.
    exists [], buffer1. cbn. split; [reflexivity|]. split; [lia|]. split; [constructor|lia]. }
  assert (Hge : PACKET_SIZE <= length buffer1).
  { apply andb_false_iff in Hbrk as [Hz|Hn]; [auto|]. apply Nat.ltb_ge in Hn. exact Hn. }
  destruct (unpack900_total (slice (slice buffer1 0 PACKET_SIZE) 1 (PACKET_SIZE - 1)))
    as (frame & -> & Hframe).
  { unfold slice. rewrite length_take, length_drop, length_take, length_drop.
    change NUM_SAMPLES with 900. rewrite HP in *. lia. }
  destruct (IH (drop PACKET_SIZE buffer1)) as (frames & buffer' & -> & Hshort & Hall & Hsum).
  { rewrite length_drop. lia. }
  exists (frame :: frames), buffer'. split; [reflexivity|]. split; [exact Hshort|].
  split; [constructor; assumption|]. rewrite length_drop in Hsum. cbn [length]. lia.
Qed.

(** X5: the handler of the 900-sample plotter has no [try] around its
    reads, yet no exception ever leaves it: on every buffer and chunk the
    loop ends normally, every frame sent has 900 samples, fewer than
    [PACKET_SIZE] bytes stay in the buffer, and each frame accounts for
    [PACKET_SIZE] bytes of the input. *)
Theorem X5_plotter_handler_never_throws (buffer data : list Z) :
  exists frames buffer',
    on_data buffer data = Some (Done frames buffer') /\
    length buffer' < PACKET_SIZE /\
    Forall (fun frame => length (samples frame) = NUM_SAMPLES) frames /\
    length frames * PACKET_SIZE + length buffer' <= length (buffer ++ data).
Proof. unfold on_data. apply drain900_total. lia. Qed.

End PlotterTotal.

Section ConsoleExtract.
Import Buf Spec Console.

Lemma unpackPayload_total payload :
  length payload = PAYLOAD_LEN ->
  exists packet,
    unpackPayload payload = Some packet /\ length (values packet) = NUM_SAMPLES.
Proof.
  intros Hlen. unfold unpackPayload, readInt16BE.
  assert (HP : PAYLOAD_LEN = (6 + 2 * NUM_SAMPLES)%nat) by reflexivity.
  destruct (readUInt16BE_in_range payload 0 ltac:(lia)) as [d ->].
  destruct (readUInt16BE_in_range payload 2 ltac:(lia)) as [t ->].
  destruct (readUInt16BE_in_range payload 4 ltac:(lia)) as [w ->].
  destruct (readSamples_in_range payload 6 NUM_SAMPLES 0 ltac:(lia)) as (vs & -> & Hvs).
  eexists. split; [reflexivity|exact Hvs].
Qed.

Lemma headerLoop_headerFree : forall count rest i,
  headerFree rest -> headerLoop rest i count = -1.
Proof.
  induction count as [|count IH]; intros rest i Hfree; cbn [headerLoop]; [reflexivity|].
  destruct Hfree as [|b rest Hb Hfree]; [reflexivity|].
  destruct (Z.eqb_spec b PACKET_HEADER) as [Heq|_]; [contradiction|].
  apply IH. exact Hfree.
Qed.

Lemma headerLoop_junk : forall junk rest i count,
  headerFree junk ->
  (length junk < count)%nat ->
  headerLoop (junk ++ PACKET_HEADER :: rest) i count = i + Z.of_nat (length junk).
Proof.
  induction junk as [|b junk IH]; intros rest i count Hfree Hcount.
  - destruct count as [|count]; [cbn in Hcount; lia|]. cbn. lia.
  - destruct count as [|count]; [cbn in Hcount; lia|].
    inversion Hfree as [|? ? Hb Hfree']; subst.
    cbn [app headerLoop]. destruct (Z.eqb_spec b PACKET_HEADER) as [Heq|_]; [contradiction|].
    rewrite IH by (cbn [length] in Hcount; auto with lia). cbn [length]. lia.
Qed.

(** What a call returns and leaves, for every room [stack] the call
    stack has. A [null] that leaves a header where a packet fits comes
    from the [RangeError] of the exhausted stack: then more than [stack]
    bytes were dropped. *)
Lemma extractAndProcessPacket_spec : forall stack buffer,
  let result := fst (extractAndProcessPacket stack buffer) in
  let buffer' := snd (extractAndProcessPacket stack buffer) in
  (exists consumed, buffer = consumed ++ buffer') /\
  (result = None ->
   findHeader buffer' = -1 \/ (stack < length buffer - length buffer')%nat) /\
  (forall packet, result = Some packet ->
     (length buffer' + PACKET_LEN <= length buffer)%nat /\
     length (values packet) = NUM_SAMPLES).
Proof.
  pose proof PACKET_LEN_eq as HPL.
  induction stack as [|stack IH]; intros buffer; cbn zeta.
  - destruct (extractAndProcessPacket_cases 0 buffer)
      as [[Hnone Hrun]|(_ & Hfit & _ & _ & Hcand & [[_ Hrun]|[_ Hrun]])];
      cbn zeta in *; rewrite Hrun.
    + cbn [fst snd]. split; [exists []; reflexivity|]. split; [auto|discriminate].
    + set (h := Z.to_nat (findHeader buffer)) in *.
      set (candidate := slice buffer h (h + PACKET_LEN)) in *.
      destruct (unpackPayload_total (slice candidate 1 (1 + PAYLOAD_LEN)))
        as (packet & -> & Hvalues).
      { unfold slice. rewrite length_take, length_drop, Hcand, PACKET_LEN_eq. lia. }
      cbn [fst snd].
      split; [exists (take (h + PACKET_LEN) buffer); symmetry; apply take_drop|].
      split; [discriminate|]. intros p Hp. injection Hp as <-.
      rewrite length_drop. split; [lia|exact Hvalues].
    + cbn [fst snd]. set (h := Z.to_nat (findHeader buffer)) in *.
      split; [exists (take (h + 1) buffer); symmetry; apply take_drop|].
      split; [|discriminate]. intros _. right. rewrite length_drop. lia.
  - destruct (extractAndProcessPacket_cases (S stack) buffer)
      as [[Hnone Hrun]|(_ & Hfit & _ & _ & Hcand & [[_ Hrun]|[_ Hrun]])];
      cbn zeta in *; rewrite Hrun.
    + cbn [fst snd]. split; [exists []; reflexivity|]. split; [auto|discriminate].
    + set (h := Z.to_nat (findHeader buffer)) in *.
      set (candidate := slice buffer h (h + PACKET_LEN)) in *.
      destruct (unpackPayload_total (slice candidate 1 (1 + PAYLOAD_LEN)))
        as (packet & -> & Hvalues).
      { unfold slice. rewrite length_take, length_drop, Hcand, PACKET_LEN_eq. lia. }
      cbn [fst snd].
      split; [exists (take (h + PACKET_LEN) buffer); symmetry; apply take_drop|].
      split; [discriminate|]. intros p Hp. injection Hp as <-.
      rewrite length_drop. split; [lia|exact Hvalues].
    + set (h := Z.to_nat (findHeader buffer)) in *.
      destruct (IH (drop (h + 1) buffer)) as ([c Hc] & Hnull & Hpkt). cbn zeta in *.
      assert (Hlen : (length (snd (extractAndProcessPacket stack (drop (h + 1) buffer)))
                      <= length buffer - (h + 1))%nat).
      { rewrite <- (length_drop buffer (h + 1)). rewrite Hc at 2. rewrite length_app. lia. }
      split.
      { exists (take (h + 1) buffer ++ c). rewrite <- app_assoc, <- Hc.
        symmetry. apply take_drop. }
      split.
      { intros Hr. destruct (Hnull Hr) as [Hfh|Hex]; [left; exact Hfh|right].
        rewrite length_drop in Hex. lia. }
      intros p Hp. destruct (Hpkt p Hp) as [Hl Hv].
      rewrite length_drop in Hl. split; [lia|exact Hv].
Qed.

Lemma take_repeat {A} (a : A) : forall k n, take k (repeat a n) = repeat a (Nat.min k n).
Proof.
  induction k as [|k IH]; intros [|n]; cbn; try reflexivity. rewrite IH. reflexivity.
Qed.

Lemma drop_repeat {A} (a : A) : forall k n, drop k (repeat a n) = repeat a (n - k).
Proof.
  induction k as [|k IH]; intros [|n]; cbn; try reflexivity. apply IH.
Qed.

(** A buffer that holds header bytes only: every candidate fails its
    checksum and costs one byte and one nested call. *)
Lemma extract_all_headers : forall stack n,
  (PACKET_LEN + stack < n)%nat ->
  extractAndProcessPacket stack (repeat PACKET_HEADER n)
  = (None, repeat PACKET_HEADER (n - stack - 1)).
Proof.
  assert (HP : PACKET_LEN = 3608%nat) by reflexivity.
  assert (Hstep : forall stack n, (PACKET_LEN <= n)%nat ->
            extractAndProcessPacket stack (repeat PACKET_HEADER n)
            = match stack with
              | O => (None, repeat PACKET_HEADER (n - 1))
              | S stack' => extractAndProcessPacket stack' (repeat PACKET_HEADER (n - 1))
              end).
  { intros stack n Hn.
    assert (Hfind : findHeader (repeat PACKET_HEADER n) = 0).
    { unfold findHeader. rewrite repeat_length.
      destruct n as [|n]; [lia|].
      replace (Z.to_nat (Z.of_nat (S n) - Z.of_nat PACKET_LEN + 1))
        with (S (S n - PACKET_LEN)) by lia.
      reflexivity. }
    destruct (extractAndProcessPacket_cases stack (repeat PACKET_HEADER n))
      as [[Hnone _]|(_ & _ & _ & Hcand & _ & Hbranch)]; [lia|].
    cbn zeta in Hcand, Hbranch. rewrite Hfind in Hcand, Hbranch.
    change (Z.to_nat 0) with 0%nat in Hcand, Hbranch.
    rewrite drop_0, take_repeat, Nat.min_l in Hcand by exact Hn.
    rewrite Hcand in Hbranch. change (0 + 1)%nat with 1%nat in Hbranch.
    rewrite (drop_repeat PACKET_HEADER 1 n) in Hbranch.
    destruct Hbranch as [[Hsum _]|[_ Hrun]]; [|exact Hrun].
    exfalso. vm_compute in Hsum. discriminate Hsum. }
  induction stack as [|stack IH]; intros n Hn; rewrite Hstep by lia.
  - f_equal. f_equal. lia.
  - rewrite IH by lia. f_equal. f_equal. lia.
Qed.

(** X6: [extractAndProcessPacket] returns on every buffer, whatever room
    the call stack has, and what it leaves is a suffix of what it found.
    A packet it returns has 1800 values and at least [PACKET_LEN] bytes
    were consumed. When it returns [null], either no header byte is left
    where a whole packet would fit, and then every further call returns
    [null] and changes nothing, or the stack was exhausted by more than
    [stack] rejected candidates. The second case is real: on a buffer of
    header bytes the function gives up after [stack + 1] bytes and leaves
    a header in front with room for a packet behind it. *)
Theorem X6_extract_returns (stack : nat) (buffer : list Z) :
  let result := fst (extractAndProcessPacket stack buffer) in
  let buffer' := snd (extractAndProcessPacket stack buffer) in
  (exists consumed, buffer = consumed ++ buffer') /\
  (result = None ->
   (findHeader buffer' = -1 /\
    forall stack', extractAndProcessPacket stack' buffer' = (None, buffer')) \/
   (stack < length buffer - length buffer')%nat) /\
  (forall packet, result = Some packet ->
     (length buffer' + PACKET_LEN <= length buffer)%nat /\
     length (values packet) = NUM_SAMPLES) /\
  (forall n, (PACKET_LEN + stack < n)%nat ->
     extractAndProcessPacket stack (repeat PACKET_HEADER n)
     = (None, repeat PACKET_HEADER (n - stack - 1)) /\
     findHeader (repeat PACKET_HEADER (n - stack - 1)) = 0).
Proof.
  intros result buffer'.
  destruct (extractAndProcessPacket_spec stack buffer) as (Hsuf & Hnull & Hpkt).
  split; [exact Hsuf|]. split; [|split; [exact Hpkt|]].
  - intros Hr. destruct (Hnull Hr) as [Hfh|Hex]; [left|right; exact Hex].
    split; [exact Hfh|]. intros stack'.
    destruct (extractAndProcessPacket_cases stack' buffer') as [[_ Hrun]|(Hpos & _)];
      [exact Hrun|]. fold buffer' in Hfh. lia.
  - intros n Hn. split; [apply extract_all_headers; exact Hn|].
    unfold findHeader. rewrite repeat_length.
    assert (HP : PACKET_LEN = 3608%nat) by reflexivity.
    destruct (n - stack - 1)%nat as [|k] eqn:Hk; [lia|].
    replace (Z.to_nat (Z.of_nat (S k) - Z.of_nat PACKET_LEN + 1))
      with (S (S k - PACKET_LEN)) by lia.
    reflexivity.
Qed.

Lemma X6_witness :
  extractAndProcessPacket (Z.to_nat 8272) (repeat PACKET_HEADER (Z.to_nat 12000))
  = (None, repeat PACKET_HEADER 3727) /\
  findHeader (repeat PACKET_HEADER 3727) = 0.
Proof.
  apply (proj2 (proj2 (proj2 (X6_extract_returns (Z.to_nat 8272) [])))
           (Z.to_nat 12000)).
  vm_compute. lia.
Defined.

Lemma extract_headerFree (stack : nat) (buffer : list Z) :
  headerFree buffer -> extractAndProcessPacket stack buffer = (None, buffer).
Proof.
  intros Hfree.
  destruct (extractAndProcessPacket_cases stack buffer) as [[_ Hrun]|(Hpos & _)];
    [exact Hrun|].
  unfold findHeader in Hpos. rewrite headerLoop_headerFree in Hpos by exact Hfree. lia.
Qed.

Lemma extract_valid_packet (stack : nat) (junk packet rest : list Z) :
  headerFree junk ->
  validPacket packet ->
  exists parsed,
    extractAndProcessPacket stack (junk ++ packet ++ rest) = (Some parsed, rest) /\
    unpackPayload (slice packet 1 (1 + PAYLOAD_LEN)) = Some parsed /\
    length (values parsed) = NUM_SAMPLES.
Proof.
  intros Hfree [[Hlen Hhead] Hsum].
  rewrite <- PACKET_LEN_size in Hlen, Hsum.
  destruct packet as [|b body]; [discriminate|].
  cbn in Hhead. injection Hhead as ->.
  change Decoder.HEADER_BYTE with PACKET_HEADER in *.
  assert (Hfind : findHeader (junk ++ (PACKET_HEADER :: body) ++ rest)
                  = Z.of_nat (length junk)).
  { unfold findHeader. cbn [app]. rewrite headerLoop_junk; [lia|exact Hfree|].
    rewrite length_app. cbn [length]. rewrite length_app.
    cbn [length] in Hlen. lia. }
  destruct (extractAndProcessPacket_cases stack (junk ++ (PACKET_HEADER :: body) ++ rest))
    as [[Hnone _]|(_ & _ & _ & _ & _ & Hbranch)]; [lia|].
  cbn zeta in Hbranch. rewrite Hfind, Nat2Z.id in Hbranch.
  assert (Hcand : slice (junk ++ (PACKET_HEADER :: body) ++ rest) (length junk)
                    (length junk + PACKET_LEN) = PACKET_HEADER :: body).
  { unfold slice. rewrite drop_app_length.
    replace (length junk + PACKET_LEN - length junk)%nat with PACKET_LEN by lia.
    apply take_app_length'. symmetry. exact Hlen. }
  rewrite Hcand in Hbranch.
  assert (Hpay : slice (PACKET_HEADER :: body) 1 (1 + PAYLOAD_LEN)
                 = slice (PACKET_HEADER :: body) 1 (PACKET_LEN - 1)) by reflexivity.
  rewrite Hpay, Hsum in Hbranch.
  destruct Hbranch as [[_ Hrun]|[Hbad _]]; [|exfalso; apply Hbad; reflexivity].
  destruct (unpackPayload_total (slice (PACKET_HEADER :: body) 1 (PACKET_LEN - 1)))
    as (parsed & Hparsed & Hvalues).
  { unfold slice. rewrite length_take, length_drop, Hlen, PACKET_LEN_eq. lia. }
  exists parsed. rewrite Hrun, Hpay, Hparsed. split; [|split; [reflexivity|exact Hvalues]].
  f_equal. rewrite app_assoc, drop_app_length'; [reflexivity|].
  rewrite length_app, Hlen. reflexivity.
Qed.

(** X7: a valid packet is found behind any junk that holds no header
    byte: the function returns the unpacked packet and leaves exactly the
    bytes that follow it, whatever room the call stack has. *)
Theorem X7_extract_finds_valid_packet (stack : nat) (junk packet rest : list Z) :
  headerFree junk ->
  validPacket packet ->
  exists parsed,
    extractAndProcessPacket stack (junk ++ packet ++ rest) = (Some parsed, rest) /\
    unpackPayload (slice packet 1 (1 + PAYLOAD_LEN)) = Some parsed.
Proof.
  intros Hfree Hvalid.
  destruct (extract_valid_packet stack junk packet rest Hfree Hvalid)
    as (parsed & He & Hu & _).
  exists parsed. auto.
Qed.

Lemma X7_witness :
  exists parsed,
    extractAndProcessPacket 0 ([1; 2; 3] ++ mkPacketBytes (repeat 5 3606) ++ [9])
    = (Some parsed, [9]) /\
    unpackPayload (slice (mkPacketBytes (repeat 5 3606)) 1 (1 + PAYLOAD_LEN))
    = Some parsed.
Proof.
  apply (X7_extract_finds_valid_packet 0 [1; 2; 3] (mkPacketBytes (repeat 5 3606)) [9]).
  - repeat constructor; discriminate.
  - split; [split|]; vm_compute; reflexivity.
Defined.

End ConsoleExtract.

Section TrackerMore.
Import Buf Console Spec.

Lemma last_drop_1 {A} (l : list A) x :
  last l = Some x -> (2 <= length l)%nat -> last (drop 1 l) = Some x.
Proof.
  destruct l as [|a [|b l]]; cbn [length]; intros Hl Hlen; try lia.
  exact Hl.
Qed.

(** The set an update returns only holds peaks of the frame just seen. *)
Lemma update_result_peaks t currentValues t' result :
  updateAndGetConsistentIndices t currentValues = Some (t', result) ->
  forall i, i ∈ result -> i ∈ peakIndices (threshold t) currentValues 0.
Proof.
  unfold updateAndGetConsistentIndices.
  set (peaks := peakIndices (threshold t) currentValues 0).
  set (pushed := buffer t ++ [peaks]).
  set (buffer' := if (bufferSize t <? length pushed)%nat then drop 1 pushed else pushed).
  destruct (length buffer' <? bufferSize t)%nat.
  { intros Heq i Hi. injection Heq as _ <-. set_solver. }
  assert (Hlast : last buffer' = None \/ last buffer' = Some peaks).
  { assert (Hp : last pushed = Some peaks) by apply last_snoc.
    unfold buffer'. destruct (bufferSize t <? length pushed)%nat; [|auto].
    destruct (drop 1 pushed) as [|x l] eqn:Hd; [left; reflexivity|right].
    rewrite <- Hd. apply last_drop_1; [exact Hp|].
    assert (Hl : length (drop 1 pushed) = length (x :: l)) by (rewrite Hd; reflexivity).
    rewrite length_drop in Hl. cbn [length] in Hl. lia. }
  destruct Hlast as [->| ->]; [discriminate|].
  intros Heq i Hi. injection Heq as _ <-.
  apply countConsistent_dom in Hi as [Hi _]. exact Hi.
Qed.

Lemma update_throws_iff (t : SignalTracker) (currentValues : list Z) :
  updateAndGetConsistentIndices t currentValues = None <->
  bufferSize t = 0%nat /\ buffer t = [].
Proof.
  unfold updateAndGetConsistentIndices.
  set (peaks := peakIndices (threshold t) currentValues 0).
  destruct (buffer t) as [|x l] eqn:Hb; cbn [app length].
  - destruct (bufferSize t) as [|K] eqn:HK; cbn.
    + split; [auto|reflexivity].
    + destruct K as [|K]; cbn; (split; [discriminate|intros [Hc _]; discriminate]).
  - set (pushed := (x :: l) ++ [peaks]).
    assert (Hp : last pushed = Some peaks) by apply last_snoc.
    assert (Hlen : (2 <= length pushed)%nat).
    { unfold pushed. rewrite length_app. cbn [length]. lia. }
    change (x :: l ++ [peaks]) with pushed.
    change (S (length (l ++ [peaks]))) with (length pushed).
    split; [|intros [_ Hc]; discriminate].
    destruct (bufferSize t <? length pushed)%nat.
    + destruct (length (drop 1 pushed) <? bufferSize t)%nat; [discriminate|].
      rewrite (last_drop_1 _ _ Hp Hlen). discriminate.
    + destruct (length pushed <? bufferSize t)%nat; [discriminate|].
      rewrite Hp. discriminate.
Qed.

Lemma update_bufferSize t currentValues t' result :
  updateAndGetConsistentIndices t currentValues = Some (t', result) ->
  bufferSize t' = bufferSize t /\ threshold t' = threshold t /\
  tolerance t' = tolerance t.
Proof.
  unfold updateAndGetConsistentIndices.
  repeat match goal with
         | |- context [if ?c then _ else _] => destruct c
         | |- context [match ?c with Some _ => _ | None => _ end] => destruct c
         end; intros Heq; try discriminate; injection Heq as <- _; cbn; auto.
Qed.


(** X9: the tracker keeps a bounded history. After any number of frames
    a tracker built with window [K > 0] holds the peak lists of the last
    [K] frames and nothing else. *)
Theorem X9_tracker_history_bounded (K : nat) (thr tol : Z) (frames : list (list Z)) :
  (0 < K)%nat ->
  exists t result,
    feed (newSignalTracker K thr tol) frames = Some (t, result) /\
    length (buffer t) = Nat.min (length frames) K /\
    buffer t = drop (length frames - K) (map (fun f => peakIndices thr f 0) frames).
Proof.
  intros HK.
  assert (H0 : tracks K thr tol (newSignalTracker K thr tol) []).
  { unfold tracks. cbn. auto. }
  destruct (feed_tracks K thr tol frames _ [] HK H0) as (t & r & Hfeed & Hb & _).
  cbn [app] in Hb. rewrite length_map in Hb.
  exists t, r. split; [exact Hfeed|]. split; [|exact Hb].
  rewrite Hb, length_drop, length_map. lia.
Qed.

Lemma X9_witness :
  exists t result,
    feed (newSignalTracker 3 60 5) (repeat (spike 10 100) 7) = Some (t, result) /\
    length (buffer t) = Nat.min (length (repeat (spike 10 100) 7)) 3 /\
    buffer t = drop (length (repeat (spike 10 100) 7) - 3)
                 (map (fun f => peakIndices 60 f 0) (repeat (spike 10 100) 7)).
Proof. apply (X9_tracker_history_bounded 3 60 5 (repeat (spike 10 100) 7)). lia. Defined.



Lemma isMatch_wider (tol tol' index : Z) (past : list Z) :
  tol <= tol' -> isMatch tol index past = true -> isMatch tol' index past = true.
Proof.
  intros Htol. unfold isMatch. rewrite !existsb_exists.
  intros (j & Hin & Hj). exists j. split; [exact Hin|].
  apply andb_true_iff in Hj as [Hlo Hhi]. apply Z.leb_le in Hlo, Hhi.
  apply andb_true_iff. split; apply Z.leb_le; lia.
Qed.

(** X23: widening the tolerance never loses a consistent peak. Two
    trackers that differ only in their tolerance and have seen the same
    frames return, on the same new frame, sets ordered like the
    tolerances. *)
Theorem X23_wider_tolerance_keeps_peaks (K : nat) (thr tol tol' : Z)
    (t t' : SignalTracker) (hist : list (list Z)) (currentValues : list Z) :
  (0 < K)%nat ->
  tol <= tol' ->
  tracks K thr tol t hist ->
  tracks K thr tol' t' hist ->
  exists t1 result t1' result',
    updateAndGetConsistentIndices t currentValues = Some (t1, result) /\
    updateAndGetConsistentIndices t' currentValues = Some (t1', result') /\
    result ⊆ result'.
Proof.
  intros HK Htol Ht Ht'.
  destruct (update_tracks K thr tol t hist currentValues HK Ht)
    as (t1 & r & Hup & _ & _ & Hshort & Hfull).
  destruct (update_tracks K thr tol' t' hist currentValues HK Ht')
    as (t1' & r' & Hup' & _ & _ & Hshort' & Hfull').
  exists t1, r, t1', r'. split; [exact Hup|]. split; [exact Hup'|].
  destruct (Nat.lt_ge_cases (length hist + 1) K) as [Hlt|Hge].
  - rewrite (Hshort Hlt). set_solver.
  - intros i Hi. apply (Hfull Hge) in Hi as [Hin Hall].
    apply (Hfull' Hge). split; [exact Hin|].
    intros older Holder. apply (isMatch_wider tol tol'); [exact Htol|].
    apply Hall. exact Holder.
Qed.

Lemma X23_witness :
  let t := mkSignalTracker [[12]; [12]] 3 60 2 ∅ in
  let t' := mkSignalTracker [[12]; [12]] 3 60 5 ∅ in
  (exists t1 result t1' result',
     updateAndGetConsistentIndices t (spike 9 100) = Some (t1, result) /\
     updateAndGetConsistentIndices t' (spike 9 100) = Some (t1', result') /\
     result ⊆ result') /\
  (exists t1, updateAndGetConsistentIndices t (spike 9 100) = Some (t1, ∅)) /\
  (exists t1', updateAndGetConsistentIndices t' (spike 9 100) = Some (t1', {[ 9 ]})).
Proof.
  intros t t'. split; [|split].
  - apply (X23_wider_tolerance_keeps_peaks 3 60 2 5 t t' [[12]; [12]] (spike 9 100)).
    + lia.
    + lia.
    + unfold tracks. cbn. auto.
    + unfold tracks. cbn. auto.
  - eexists. vm_compute. reflexivity.
  - eexists. vm_compute. reflexivity.
Defined.

End TrackerMore.

Section ConsoleHandlerFacts.
Import Buf Console Spec ConsoleHandler.

Lemma highlightLoop_length consistent : forall rest i,
  length (highlightLoop consistent rest i) = length rest.
Proof.
  induction rest as [|v rest IH]; intros i; cbn [highlightLoop length]; [reflexivity|].
  rewrite IH. reflexivity.
Qed.

Lemma highlightLoop_lookup consistent : forall rest i (k : nat) value,
  rest !! k = Some value ->
  highlightLoop consistent rest i !! k
  = Some (if bool_decide (i + Z.of_nat k ∈ consistent) && (THRESHOLD <=? value)
          then Shown value
          else if THRESHOLD <=? value then Star else Dot).
Proof.
  induction rest as [|v rest IH]; intros i k value Hk; [discriminate|].
  destruct k as [|k]; cbn [highlightLoop].
  - injection Hk as ->. rewrite Z.add_0_r. reflexivity.
  - change (rest !! k = Some value) in Hk.
    change (highlightLoop consistent rest (i + 1) !! k = 
            Some (if bool_decide (i + Z.of_nat (S k) ∈ consistent) && (THRESHOLD <=? value)
                  then Shown value
                  else if THRESHOLD <=? value then Star else Dot)).
    rewrite (IH (i + 1) k value Hk).
    replace (i + 1 + Z.of_nat k) with (i + Z.of_nat (S k)) by lia. reflexivity.
Qed.

(** X11: in the printed line the test [value >= THRESHOLD] next to
    [isConsistent] never decides anything. The set returned by a tracker
    whose threshold is [THRESHOLD] only holds indices of values at or
    above it, so a cell shows the value exactly when its index is in the
    set, a star exactly for the other values from [THRESHOLD] up, and a
    dot exactly for the values below. *)
Theorem X11_highlight_follows_the_set (t t' : SignalTracker) (values : list Z)
    (consistentIndices : gset Z) :
  threshold t = THRESHOLD ->
  updateAndGetConsistentIndices t values = Some (t', consistentIndices) ->
  let line := highlightLoop consistentIndices values 0 in
  length line = length values /\
  forall (i : nat) (value : Z),
    values !! i = Some value ->
    (Z.of_nat i ∈ consistentIndices -> THRESHOLD <= value) /\
    line !! i = Some (if bool_decide (Z.of_nat i ∈ consistentIndices) then Shown value
                      else if THRESHOLD <=? value then Star else Dot).
Proof.
  intros Hthr Hup line. split; [apply highlightLoop_length|].
  intros i value Hi.
  assert (Hpeak : Z.of_nat i ∈ consistentIndices -> THRESHOLD <= value).
  { intros Hin. apply (update_result_peaks _ _ _ _ Hup) in Hin.
    apply peakIndices_spec in Hin as (v & _ & Hv & Hge).
    rewrite Z.sub_0_r, Nat2Z.id, Hi in Hv. injection Hv as ->.
    rewrite Hthr in Hge. exact Hge. }
  split; [exact Hpeak|].
  unfold line. rewrite (highlightLoop_lookup _ _ 0 i value Hi). rewrite Z.add_0_l.
  destruct (bool_decide_reflect (Z.of_nat i ∈ consistentIndices)) as [Hin|_];
    [|reflexivity].
  cbn [andb]. destruct (Z.leb_spec THRESHOLD value) as [_|Hc]; [reflexivity|].
  specialize (Hpeak Hin). lia.
Qed.

Lemma X11_witness :
  let t := newSignalTracker 1 60 5 in
  let line := highlightLoop {[ 10 ]} (spike 10 100) 0 in
  length line = length (spike 10 100) /\
  forall (i : nat) (value : Z),
    spike 10 100 !! i = Some value ->
    (Z.of_nat i ∈ ({[ 10 ]} : gset Z) -> THRESHOLD <= value) /\
    line !! i = Some (if bool_decide (Z.of_nat i ∈ ({[ 10 ]} : gset Z)) then Shown value
                      else if THRESHOLD <=? value then Star else Dot).
Proof.
  intros t.
  apply (X11_highlight_follows_the_set t
           (mkSignalTracker [[10]] 1 60 5 {[ 10 ]}) (spike 10 100) {[ 10 ]}).
  - reflexivity.
  - vm_compute. reflexivity.
Defined.

Lemma printLoop_total (stack : nat) : forall fuel buffer t,
  (length buffer < fuel)%nat ->
  (0 < bufferSize t)%nat ->
  exists lines buffer' t',
    printLoop stack fuel buffer t = Some (Done lines buffer' t') /\
    (findHeader buffer' = -1 \/ (stack < length buffer - length buffer')%nat) /\
    (exists consumed, buffer = consumed ++ buffer') /\
    (length lines * PACKET_LEN + length buffer' <= length buffer)%nat /\
    Forall (fun line => length line = NUM_SAMPLES) lines /\
    bufferSize t' = bufferSize t.
Proof.
  pose proof PACKET_LEN_eq as HPL.
  induction fuel as [|fuel IH]; intros buffer t Hfuel HK; [lia|].
  cbn [printLoop].
  destruct (extractAndProcessPacket_spec stack buffer) as ([c Hc] & Hnull & Hpkt).
  cbn zeta in *.
  destruct (extractAndProcessPacket stack buffer) as [[packet|] buffer1];
    cbn [fst snd] in *.
  - destruct (Hpkt packet eq_refl) as [Hl Hv].
    destruct (updateAndGetConsistentIndices t (values packet)) as [[t1 cons]|] eqn:Hup.
    2:{ apply update_throws_iff in Hup as [Hz _]. lia. }
    destruct (update_bufferSize _ _ _ _ Hup) as (HK1 & _).
    destruct (IH buffer1 t1 ltac:(lia) ltac:(lia))
      as (lines & buffer' & t' & -> & Hfh & [c' Hc'] & Hsum & Hall & HK').
    exists (highlightLoop cons (values packet) 0 :: lines), buffer', t'.
    split; [reflexivity|]. split; [destruct Hfh as [Hfh|Hfh]; [left; exact Hfh|right; lia]|].
    split.
    { exists (c ++ c'). rewrite <- app_assoc, <- Hc'. exact Hc. }
    split; [cbn [length]; lia|]. split; [|congruence].
    constructor; [|exact Hall]. rewrite highlightLoop_length. exact Hv.
  - exists [], buffer1, t. split; [reflexivity|]. split; [auto|].
    split; [exists c; exact Hc|]. split.
    { rewrite Hc, length_app. cbn. lia. }
    split; [constructor|reflexivity].
Qed.

(** X12: the data handler of the console returns on every chunk when the
    tracker has a positive window, whatever room the call stack has: the
    loop ends, no [TypeError] leaves it, each printed line has 1800 cells
    and accounts for [PACKET_LEN] consumed bytes, and the buffer left is
    a suffix of the bytes seen. Either no header byte is left where a
    whole packet would fit, or the last call gave up on an exhausted
    stack after dropping more than [stack] bytes; so a stack with room
    for one call per byte leaves no such header. The second case is real:
    a chunk of header bytes longer than [PACKET_LEN + stack] prints
    nothing and leaves a header in front of room for a packet. *)
Theorem X12_console_handler_returns (stack : nat) (buffer data : list Z)
    (t : SignalTracker) :
  (0 < bufferSize t)%nat ->
  (exists lines buffer' t',
     on_data stack buffer t data = Some (Done lines buffer' t') /\
     (findHeader buffer' = -1 \/
      (stack < length (buffer ++ data) - length buffer')%nat) /\
     ((length (buffer ++ data) <= stack)%nat -> findHeader buffer' = -1) /\
     (exists consumed, buffer ++ data = consumed ++ buffer') /\
     (length lines * PACKET_LEN + length buffer' <= length (buffer ++ data))%nat /\
     Forall (fun line => length line = NUM_SAMPLES) lines /\
     bufferSize t' = bufferSize t) /\
  (forall n, (PACKET_LEN + stack < n)%nat ->
     on_data stack [] t (repeat PACKET_HEADER n)
     = Some (Done [] (repeat PACKET_HEADER (n - stack - 1)) t) /\
     findHeader (repeat PACKET_HEADER (n - stack - 1)) = 0).
Proof.
  intros HK. split.
  - unfold on_data.
    destruct (printLoop_total stack (S (length (buffer ++ data))) (buffer ++ data) t
                ltac:(lia) HK)
      as (lines & buffer' & t' & Hrun & Hfh & Hsuf & Hsum & Hall & HK').
    exists lines, buffer', t'. split; [exact Hrun|]. split; [exact Hfh|].
    split; [|auto]. intros Hroom. destruct Hfh as [Hfh|Hfh]; [exact Hfh|lia].
  - intros n Hn. unfold on_data. cbn [app printLoop].
    rewrite extract_all_headers by exact Hn. split; [reflexivity|].
    unfold findHeader. rewrite repeat_length.
    assert (HP : PACKET_LEN = 3608%nat) by reflexivity.
    destruct (n - stack - 1)%nat as [|k] eqn:Hk; [lia|].
    replace (Z.to_nat (Z.of_nat (S k) - Z.of_nat PACKET_LEN + 1))
      with (S (S k - PACKET_LEN)) by lia.
    reflexivity.
Qed.

Lemma X12_witness :
  let stream := [1; 2] ++ mkPacketBytes (repeat 0 3606) in
  let t := newSignalTracker 3 60 5 in
  (exists lines buffer' t',
     on_data 100 [1; 2] t (mkPacketBytes (repeat 0 3606))
     = Some (Done lines buffer' t') /\
     (findHeader buffer' = -1 \/ (100 < length stream - length buffer')%nat) /\
     ((length stream <= 100)%nat -> findHeader buffer' = -1) /\
     (exists consumed, stream = consumed ++ buffer') /\
     (length lines * PACKET_LEN + length buffer' <= length stream)%nat /\
     Forall (fun line => length line = NUM_SAMPLES) lines /\
     bufferSize t' = bufferSize t) /\
  (forall n, (PACKET_LEN + 100 < n)%nat ->
     on_data 100 [] t (repeat PACKET_HEADER n)
     = Some (Done [] (repeat PACKET_HEADER (n - 100 - 1)) t) /\
     findHeader (repeat PACKET_HEADER (n - 100 - 1)) = 0).
Proof.
  intros stream t.
  apply (X12_console_handler_returns 100 [1; 2] (mkPacketBytes (repeat 0 3606))
           (newSignalTracker 3 60 5)).
  cbn. lia.
Defined.

(** X13: the console never discards junk. While the bytes received hold
    no header byte, the handler prints nothing and keeps them all, however
    many they are (the handler of server.js empties such a buffer once it
    holds [PACKET_SIZE] bytes). *)
Theorem X13_console_keeps_junk (stack : nat) (buffer data : list Z)
    (t : SignalTracker) :
  headerFree (buffer ++ data) ->
  on_data stack buffer t data = Some (Done [] (buffer ++ data) t).
Proof.
  intros Hfree. unfold on_data. cbn [printLoop].
  rewrite extract_headerFree by exact Hfree. reflexivity.
Qed.

Lemma X13_witness :
  on_data 0 (repeat 7 4000) (newSignalTracker 3 60 5) (repeat 8 4000)
  = Some (Done [] (repeat 7 4000 ++ repeat 8 4000) (newSignalTracker 3 60 5)) /\
  Decoder.on_data (repeat 7 4000) (repeat 8 4000) = Some ([], []).
Proof.
  split.
  - apply (X13_console_keeps_junk 0 (repeat 7 4000) (repeat 8 4000)).
    apply Forall_app. split; apply Forall_forall; intros b Hb;
      apply list_elem_of_In, repeat_spec in Hb; subst b; discriminate.
  - vm_compute. reflexivity.
Defined.

Lemma interleave_length blocks trailing :
  Forall (fun block => headerFree (fst block) /\ validPacket (snd block)) blocks ->
  (length blocks <= length (interleave blocks trailing))%nat.
Proof.
  induction 1 as [|[junk packet] blocks [_ [[Hlen _] _]] _ IH]; cbn [interleave length];
    [lia|].
  cbn [snd] in Hlen. rewrite !length_app, Hlen.
  pose proof PACKET_SIZE_pos. lia.
Qed.

Lemma printLoop_clean_stream (stack : nat) : forall blocks trailing fuel t,
  (length blocks < fuel)%nat ->
  (0 < bufferSize t)%nat ->
  Forall (fun block => headerFree (fst block) /\ validPacket (snd block)) blocks ->
  headerFree trailing ->
  exists lines t',
    printLoop stack fuel (interleave blocks trailing) t = Some (Done lines trailing t') /\
    length lines = length blocks /\
    Forall (fun line => length line = NUM_SAMPLES) lines.
Proof.
  induction blocks as [|[junk packet] blocks IH]; intros trailing fuel t Hfuel HK Hall Htrail.
  - destruct fuel as [|fuel]; [cbn in Hfuel; lia|]. cbn [interleave printLoop].
    rewrite extract_headerFree by exact Htrail.
    exists [], t. split; [reflexivity|]. split; [reflexivity|constructor].
  - destruct fuel as [|fuel]; [cbn in Hfuel; lia|]. cbn [length] in Hfuel.
    inversion Hall as [|? ? [Hjunk Hvalid] Hrest]; subst. cbn [fst snd] in *.
    cbn [interleave printLoop].
    destruct (extract_valid_packet stack junk packet (interleave blocks trailing)
                Hjunk Hvalid)
      as (parsed & -> & _ & Hvalues).
    destruct (updateAndGetConsistentIndices t (values parsed)) as [[t1 cons]|] eqn:Hup.
    2:{ apply update_throws_iff in Hup as [Hz _]. lia. }
    destruct (update_bufferSize _ _ _ _ Hup) as (HK1 & _).
    destruct (IH trailing fuel t1 ltac:(lia) ltac:(lia) Hrest Htrail)
      as (lines & t' & -> & Hlen & Hlines).
    eexists _, t'. split; [reflexivity|]. split; [cbn [length]; lia|].
    constructor; [|exact Hlines]. rewrite highlightLoop_length. exact Hvalues.
Qed.

(** X24: on a clean stream the console misses nothing. When the bytes
    received on an empty buffer are valid packets, each behind junk
    without a header byte, followed by such junk, the handler prints one
    line of 1800 cells per packet and keeps exactly the trailing junk,
    whatever room the call stack has. *)
Theorem X24_console_reads_clean_stream (stack : nat)
    (blocks : list (list Z * list Z)) (trailing : list Z) (t : SignalTracker) :
  (0 < bufferSize t)%nat ->
  Forall (fun block => headerFree (fst block) /\ validPacket (snd block)) blocks ->
  headerFree trailing ->
  exists lines t',
    on_data stack [] t (interleave blocks trailing) = Some (Done lines trailing t') /\
    length lines = length blocks /\
    Forall (fun line => length line = NUM_SAMPLES) lines.
Proof.
  intros HK Hall Htrail. unfold on_data. cbn [app].
  apply printLoop_clean_stream; [|exact HK|exact Hall|exact Htrail].
  pose proof (interleave_length blocks trailing Hall). lia.
Qed.

Lemma X24_witness :
  let packet := mkPacketBytes (repeat 0 3606) in
  exists lines t',
    on_data 0 [] (newSignalTracker 3 60 5)
      (interleave [([1; 2], packet); ([], packet)] [3])
    = Some (Done lines [3] t') /\
    length lines = length [([1; 2], packet); ([], packet)] /\
    Forall (fun line => length line = NUM_SAMPLES) lines.
Proof.
  intros packet.
  assert (Hvalid : validPacket packet) by (split; [split|]; vm_compute; reflexivity).
  apply (X24_console_reads_clean_stream 0 [([1; 2], packet); ([], packet)] [3]
           (newSignalTracker 3 60 5)).
  - cbn. lia.
  - constructor; [|constructor; [|constructor]]; (split; [|exact Hvalid]).
    + repeat constructor; discriminate.
    + constructor.
  - repeat constructor; discriminate.
Defined.

End ConsoleHandlerFacts.

Section BlindZone.
Import Echo Spec.
Context {num : Type} `{JsNum num}.

Lemma blindZoneLoop_spec threshold : forall count rest i,
  (count <= length rest)%nat ->
  let r := blindZoneLoop threshold rest i count in
  (i <= r < i + Z.of_nat count /\
   num_leb (num_of_Z (nth (Z.to_nat (r - i)) rest 0)) threshold = true /\
   (forall k, (k < Z.to_nat (r - i))%nat ->
              num_leb (num_of_Z (nth k rest 0)) threshold = false)) \/
  (r = 150 /\
   forall k, (k < count)%nat -> num_leb (num_of_Z (nth k rest 0)) threshold = false).
Proof.
  induction count as [|count IH]; intros rest i Hlen; cbn [blindZoneLoop].
  - right. split; [reflexivity|]. intros k Hk. lia.
  - destruct rest as [|s rest]; [cbn in Hlen; lia|]. cbn [length] in Hlen.
    destruct (num_leb (num_of_Z s) threshold) eqn:Hs.
    + left. rewrite Z.sub_diag. cbn. split; [lia|]. split; [exact Hs|].
      intros k Hk. lia.
    + destruct (IH rest (i + 1) ltac:(lia)) as [(Hr & Hat & Hbefore)|(Hr & Hnone)].
      * left. split; [lia|].
        replace (Z.to_nat (blindZoneLoop threshold rest (i + 1) count - i))
          with (S (Z.to_nat (blindZoneLoop threshold rest (i + 1) count - (i + 1))))
          by lia.
        split; [exact Hat|]. intros [|k] Hk; [exact Hs|].
        apply Hbefore. lia.
      * right. split; [exact Hr|]. intros [|k] Hk; [exact Hs|].
        apply Hnone. lia.
Qed.

(** X14: [findBlindZoneEnd] returns the first index among the first
    [min(samples.length, 500)] whose sample is at most [noiseFloor * 1.2];
    when there is none it returns 150, whether or not the array has that
    many samples. The result is always in [0, 500). *)
Theorem X14_blind_zone_end_is_first_quiet_sample (samples : list Z) (noiseFloor : num) :
  let threshold := num_mul noiseFloor (num_dec 12 1) in
  let limit := Z.of_nat (Nat.min (length samples) 500) in
  let r := findBlindZoneEnd samples noiseFloor in
  0 <= r < 500 /\
  ((r < limit /\
    num_leb (num_of_Z (sampleAt samples r)) threshold = true /\
    (forall i, 0 <= i < r ->
               num_leb (num_of_Z (sampleAt samples i)) threshold = false)) \/
   (r = 150 /\
    forall i, 0 <= i < limit ->
              num_leb (num_of_Z (sampleAt samples i)) threshold = false)).
Proof.
  intros threshold limit r.
  pose proof (blindZoneLoop_spec threshold (Nat.min (length samples) 500) samples 0
                ltac:(lia)) as Hspec.
  cbn zeta in Hspec. fold threshold in Hspec.
  change (blindZoneLoop threshold samples 0 (Nat.min (length samples) 500)) with r in Hspec.
  rewrite Z.sub_0_r in Hspec.
  destruct Hspec as [(Hr & Hat & Hbefore)|(Hr & Hnone)].
  - split; [lia|]. left. split; [unfold limit; lia|]. split; [exact Hat|].
    intros i Hi. unfold sampleAt. apply Hbefore. lia.
  - split; [lia|]. right. split; [exact Hr|].
    intros i Hi. unfold sampleAt. apply Hnone. unfold limit in Hi. lia.
Qed.

End BlindZone.

Section HandlerFacts.
Import Echo Spec SonarHandler Wire.
Context {num : Type} `{JsNum num} `{JsRound num}.

(** A peak above zero is a sample of the array, at or behind the end of
    the blind zone. *)
Lemma positive_peak_in_window (samples : list Z) :
  let r := findPrimaryReflection samples in
  0 < value r ->
  0 <= blindZoneEndIndex r <= index r /\
  index r < Z.of_nat (length samples) /\
  sampleAt samples (index r) = value r.
Proof.
  intros r Hpos.
  destruct (findPrimaryReflection_window samples) as [(_ & Hv & _)|(_ & _ & _ & Hfirst)].
  { fold r in Hv. lia. }
  fold r in Hfirst. destruct Hfirst as (Hrange & Hat & _).
  assert (Hne : samples <> []).
  { intros ->. cbn in Hrange. lia. }
  pose proof (blindZoneEndIndex_eq samples Hne) as Hstart. fold r in Hstart.
  pose proof (findBlindZoneEnd_nonneg samples (calculateNoiseFloor samples)) as Hnn.
  rewrite <- Hstart in Hnn. split; [lia|]. split; [lia|exact Hat].
Qed.

Lemma peak_value_cases (samples : list Z) :
  let r := findPrimaryReflection samples in
  (value r = 0 /\ index r = -1) \/ (0 < value r /\ 0 <= index r).
Proof.
  intros r.
  destruct (findPrimaryReflection_window samples) as [(_ & Hv & Hi)|(_ & Hv & _)].
  - left. auto.
  - right. split; [exact Hv|].
    pose proof (positive_peak_in_window samples Hv) as (Hs & _). fold r in Hs. lia.
Qed.

Lemma land_0xFF (a : Z) : Z.land a 0xFF = a mod 256.
Proof. change 0xFF with (Z.ones 8). apply Z.land_ones. lia. Qed.

Lemma writeUInt16BE_IntVal (z : Z) :
  0 <= z < 65536 -> writeUInt16BE (IntVal z) = Some [z / 256; z mod 256].
Proof.
  intros Hz. unfold writeUInt16BE.
  destruct (Z.ltb_spec 65535 z) as [Hc|_]; [lia|].
  destruct (Z.ltb_spec z 0) as [Hc|_]; [lia|]. cbn [orb].
  rewrite !land_0xFF.
  rewrite Z.shiftr_div_pow2 by lia. change (2 ^ 8) with 256.
  rewrite (Z.mod_small (z / 256)); [reflexivity|].
  split; [apply Z.div_pos; lia|apply Z.div_lt_upper_bound; lia].
Qed.

Lemma writeUInt16BE_shape (value : JsInteger) bytes :
  writeUInt16BE value = Some bytes ->
  exists b0 b1, bytes = [b0; b1] /\ isByte b0 /\ isByte b1.
Proof.
  unfold writeUInt16BE. destruct value as [z| |negative].
  - destruct ((65535 <? z) || (z <? 0)); [discriminate|].
    intros Heq. injection Heq as <-. eexists _, _. split; [reflexivity|].
    rewrite !land_0xFF. unfold isByte. split; apply Z.mod_pos_bound; lia.
  - intros Heq. injection Heq as <-. eexists _, _. split; [reflexivity|].
    unfold isByte. lia.
  - discriminate.
Qed.

Lemma writeUInt8_peakVal (v : Z) :
  0 <= v -> writeUInt8 (Z.min v 255) = Some [Z.min v 255].
Proof.
  intros Hv. unfold writeUInt8.
  destruct (Z.ltb_spec 255 (Z.min v 255)) as [Hc|_]; [lia|].
  destruct (Z.ltb_spec (Z.min v 255) 0) as [Hc|_]; [lia|]. cbn [orb].
  rewrite land_0xFF, Z.mod_small by lia. reflexivity.
Qed.

(** Both handlers advance the smoother exactly as [processSamples] does,
    whatever becomes of the frame. *)
Lemma handleSamples_state last raw :
  snd (handleSamples last raw) = lastSmoothedDistance' (processSamples last raw) /\
  snd (handleSamplesGps last raw) = lastSmoothedDistance' (processSamples last raw).
Proof.
  unfold handleSamples, handleSamplesGps, processSamples.
  destruct (applyExponentialSmoothing last (distance (findPrimaryReflection raw)))
    as [smoothed last'].
  cbn [lastSmoothedDistance']. split.
  - destruct (writeUInt16BE (num_round (num_mul smoothed (num_of_Z 10)))); [|reflexivity].
    destruct (writeUInt8 (Z.min (value (findPrimaryReflection raw)) 255)); [|reflexivity].
    destruct (writeUInt16BE (IntVal (index (findPrimaryReflection raw)))); [|reflexivity].
    destruct (value (findPrimaryReflection raw) <? 50); reflexivity.
  - destruct (value (findPrimaryReflection raw) <? 50); [reflexivity|].
    destruct (writeUInt16BE (num_round (num_mul smoothed (num_of_Z 10)))); [|reflexivity].
    destruct (writeUInt8 (Z.min (value (findPrimaryReflection raw)) 255)); reflexivity.
Qed.

(** X15: a frame without an echo never reaches the quality gate of
    server.js. Its peak index is -1, which [writeUInt16BE] refuses with a
    [RangeError]; the [catch] of the handler swallows it. The handler of
    server-gps-d3-serial.js, which tests the gate first, skips the same
    frame. In both the smoother has already taken the frame in. *)
Theorem X15_no_echo_frame_is_caught (last : option num) (rawSamples : list Z) :
  index (findPrimaryReflection rawSamples) = -1 ->
  handleSamples last rawSamples
  = (Caught, lastSmoothedDistance' (processSamples last rawSamples)) /\
  handleSamplesGps last rawSamples
  = (Skipped, lastSmoothedDistance' (processSamples last rawSamples)).
Proof.
  intros Hidx.
  destruct (handleSamples_state last rawSamples) as [Hs Hg].
  rewrite <- Hs, <- Hg at 1.
  destruct (peak_value_cases rawSamples) as [[Hv _]|[_ Hc]]; [|lia].
  unfold handleSamples, handleSamplesGps in *.
  destruct (applyExponentialSmoothing last (distance (findPrimaryReflection rawSamples)))
    as [smoothed last'].
  rewrite Hidx, Hv. cbn [snd]. split.
  - destruct (writeUInt16BE (num_round (num_mul smoothed (num_of_Z 10)))); reflexivity.
  - reflexivity.
Qed.

(** X16: the two handlers send for the same frames. For arrays of at
    most 65536 samples, when server.js sends its 5-byte message the other
    handler sends the first three bytes of it, and the two last bytes are
    the peak index; a frame server.js skips the other skips too; a frame
    on which server.js catches an exception the other never sends. *)
Theorem X16_handlers_send_the_same_frames (last : option num) (rawSamples : list Z) :
  Z.of_nat (length rawSamples) <= 65536 ->
  let r := findPrimaryReflection rawSamples in
  match fst (handleSamples last rawSamples) with
  | Sent m5 =>
      exists b0 b1,
        m5 = [b0; b1; Z.min (value r) 255; index r / 256; index r mod 256] /\
        fst (handleSamplesGps last rawSamples) = Sent [b0; b1; Z.min (value r) 255] /\
        50 <= value r /\ 0 <= index r < Z.of_nat (length rawSamples)
  | Skipped => fst (handleSamplesGps last rawSamples) = Skipped
  | Caught =>
      fst (handleSamplesGps last rawSamples) = Skipped \/
      fst (handleSamplesGps last rawSamples) = Caught
  end.
Proof.
  intros Hlen r.
  unfold handleSamples, handleSamplesGps. fold r.
  destruct (applyExponentialSmoothing last (distance r)) as [smoothed last'].
  destruct (peak_value_cases rawSamples) as [[Hv Hi]|[Hv Hi]]; fold r in Hv, Hi.
  - rewrite Hv, Hi. cbn.
    destruct (writeUInt16BE (num_round (num_mul smoothed (num_of_Z 10)))); cbn; auto.
    destruct (writeUInt8 (Z.min 0 255)); cbn; auto.
  - pose proof (positive_peak_in_window rawSamples Hv) as (Hstart & Hend & _).
    fold r in Hstart, Hend.
    rewrite (writeUInt8_peakVal (value r)) by lia.
    rewrite (writeUInt16BE_IntVal (index r)) by lia.
    destruct (writeUInt16BE (num_round (num_mul smoothed (num_of_Z 10))))
      as [bytes01|] eqn:Hw.
    + destruct (writeUInt16BE_shape _ _ Hw) as (b0 & b1 & -> & _).
      destruct (Z.ltb_spec (value r) 50) as [Hweak|Hstrong]; cbn [fst]; [reflexivity|].
      exists b0, b1. split; [reflexivity|]. split; [reflexivity|]. lia.
    + cbn [fst]. destruct (value r <? 50); auto.
Qed.

End HandlerFacts.

Section HandlerExamples.
Import Echo Spec SonarHandler Wire.

Lemma X15_witness :
  handleSamples (num := float) None (constSamples 1800 0)
  = (Caught, lastSmoothedDistance' (processSamples None (constSamples 1800 0))) /\
  handleSamplesGps (num := float) None (constSamples 1800 0)
  = (Skipped, lastSmoothedDistance' (processSamples None (constSamples 1800 0))).
Proof.
  apply (X15_no_echo_frame_is_caught (num := float) None (constSamples 1800 0)).
  vm_compute. reflexivity.
Defined.

Lemma X16_witness :
  let rawSamples := spike 700 200 in
  let r := findPrimaryReflection (num := float) rawSamples in
  match fst (handleSamples (Some 100%float) rawSamples) with
  | Sent m5 =>
      exists b0 b1,
        m5 = [b0; b1; Z.min (value r) 255; index r / 256; index r mod 256] /\
        fst (handleSamplesGps (Some 100%float) rawSamples)
        = Sent [b0; b1; Z.min (value r) 255] /\
        50 <= value r /\ 0 <= index r < Z.of_nat (length rawSamples)
  | Skipped => fst (handleSamplesGps (Some 100%float) rawSamples) = Skipped
  | Caught =>
      fst (handleSamplesGps (Some 100%float) rawSamples) = Skipped \/
      fst (handleSamplesGps (Some 100%float) rawSamples) = Caught
  end.
Proof.
  apply (X16_handlers_send_the_same_frames (num := float) (Some 100%float)
           (spike 700 200)).
  vm_compute. intros Hc. discriminate Hc.
Defined.

End HandlerExamples.

Section HandlerBinary64.
Import Echo Spec SonarHandler Wire.
Local Open Scope Q_scope.

Lemma Qfloor_unique (q : Q) (z : Z) :
  inject_Z z <= q -> q < inject_Z (z + 1) -> Qfloor q = z.
Proof.
  intros Hlo Hhi.
  pose proof (Qfloor_le q) as Hfl. pose proof (Qlt_floor q) as Hlt.
  assert (H1 : inject_Z (Qfloor q) < inject_Z (z + 1)) by lra.
  assert (H2 : inject_Z z < inject_Z (Qfloor q + 1)) by lra.
  rewrite <- Zlt_Qlt in H1, H2. lia.
Qed.

(** [Math.round] of a finite double is the floor of its value plus one
    half. *)
Lemma float_round_spec (x : float) :
  is_finite x = true -> float_round x = IntVal (Qfloor (F2Q x + (1 # 2))).
Proof.
  unfold is_finite, float_round, F2Q.
  destruct (Prim2SF x) as [s|s| |s m e]; try discriminate; intros _.
  - reflexivity.
  - cbn [SF2Q].
    replace (if s then Z.neg m else Z.pos m) with (cond_Zopp s (Zpos m))
      by (destruct s; reflexivity).
    set (v := cond_Zopp s (Zpos m)).
    destruct (Z.leb_spec 0 e) as [He|He]; f_equal; symmetry; apply Qfloor_unique.
    + rewrite inject_Z_mult, pow2_inject by exact He. lra.
    + rewrite inject_Z_plus, inject_Z_mult, pow2_inject by exact He.
      change (inject_Z 1) with 1. lra.
    + set (k := (- e)%Z).
      assert (Hk : (0 < k)%Z) by (unfold k; lia).
      assert (HP : (0 < 2 ^ k)%Z) by (apply Z.pow_pos_nonneg; lia).
      assert (HD : (2 ^ (k + 1) = 2 * 2 ^ k)%Z).
      { rewrite Z.pow_add_r by lia. lia. }
      pose proof (Z.mul_div_le (2 * v + 2 ^ k) (2 ^ (k + 1)) ltac:(lia)) as Hdiv.
      rewrite HD in *.
      set (z := ((2 * v + 2 ^ k) / (2 * 2 ^ k))%Z) in *.
      assert (Hy : 2 ^ e * inject_Z (2 ^ k) == 1).
      { rewrite pow2_inject by lia. rewrite <- pow2_add.
        replace (e + k)%Z with 0%Z by (unfold k; lia). reflexivity. }
      pose proof (pow2_pos e) as Hy0.
      set (y := 2 ^ e) in *. set (P := (2 ^ k)%Z) in *.
      setoid_replace (inject_Z v * y + (1 # 2))
        with (inject_Z (2 * v + P) * (y * (1 # 2))) using relation Qeq
        by (rewrite inject_Z_plus, inject_Z_mult; change (inject_Z 2) with 2;
            setoid_replace (1 # 2) with ((y * inject_Z P) * (1 # 2)) using relation Qeq at 1
              by (rewrite Hy; reflexivity); ring).
      setoid_replace (inject_Z z)
        with (inject_Z (2 * P * z) * (y * (1 # 2))) using relation Qeq
        by (rewrite !inject_Z_mult; change (inject_Z 2) with 2;
            setoid_replace (inject_Z z) with (inject_Z z * (y * inject_Z P))
              using relation Qeq at 1 by (rewrite Hy; ring); ring).
      apply Qmult_le_compat_r; [|lra]. rewrite <- Zle_Qle. lia.
    + set (k := (- e)%Z).
      assert (Hk : (0 < k)%Z) by (unfold k; lia).
      assert (HP : (0 < 2 ^ k)%Z) by (apply Z.pow_pos_nonneg; lia).
      assert (HD : (2 ^ (k + 1) = 2 * 2 ^ k)%Z).
      { rewrite Z.pow_add_r by lia. lia. }
      pose proof (Z.mod_pos_bound (2 * v + 2 ^ k) (2 ^ (k + 1)) ltac:(lia)) as Hmod.
      pose proof (Z.div_mod (2 * v + 2 ^ k) (2 ^ (k + 1)) ltac:(lia)) as Hdm.
      rewrite HD in *.
      set (z := ((2 * v + 2 ^ k) / (2 * 2 ^ k))%Z) in *.
      assert (Hy : 2 ^ e * inject_Z (2 ^ k) == 1).
      { rewrite pow2_inject by lia. rewrite <- pow2_add.
        replace (e + k)%Z with 0%Z by (unfold k; lia). reflexivity. }
      pose proof (pow2_pos e) as Hy0.
      set (y := 2 ^ e) in *. set (P := (2 ^ k)%Z) in *.
      setoid_replace (inject_Z v * y + (1 # 2))
        with (inject_Z (2 * v + P) * (y * (1 # 2))) using relation Qeq
        by (rewrite inject_Z_plus, inject_Z_mult; change (inject_Z 2) with 2;
            setoid_replace (1 # 2) with ((y * inject_Z P) * (1 # 2)) using relation Qeq at 1
              by (rewrite Hy; reflexivity); ring).
      setoid_replace (inject_Z (z + 1))
        with (inject_Z (2 * P * (z + 1)) * (y * (1 # 2))) using relation Qeq
        by (rewrite !inject_Z_mult; change (inject_Z 2) with 2;
            setoid_replace (inject_Z (z + 1)) with (inject_Z (z + 1) * (y * inject_Z P))
              using relation Qeq at 1 by (rewrite Hy; ring); ring).
      apply Qmult_lt_compat_r; [lra|]. rewrite <- Zlt_Qlt. lia.
Qed.

(** The raw distance of every index a frame of at most 1800 samples can
    give, checked index by index. *)
Lemma distance_by_index (k : Z) :
  (-1 <= k < 1800)%Z ->
  let d := num_mul (num_of_Z k) (SAMPLE_RESOLUTION (num := float)) in
  is_finite d = true /\
  - (2179 # 10000) <= F2Q d /\ F2Q d <= 3919 # 10 /\
  ((7 <= k)%Z -> 152 # 100 <= F2Q d).
Proof.
  intros Hk d.
  set (check := fun k : Z =>
         let d := num_mul (num_of_Z k) (SAMPLE_RESOLUTION (num := float)) in
         is_finite d && Qle_bool (- (2179 # 10000)) (F2Q d)
         && Qle_bool (F2Q d) (3919 # 10)
         && ((k <? 7)%Z || Qle_bool (152 # 100) (F2Q d))).
  assert (Hall : forallb check (map (fun i => (Z.of_nat i - 1)%Z) (seq 0 1801)) = true)
    by (vm_compute; reflexivity).
  rewrite forallb_forall in Hall.
  assert (Hin : In k (map (fun i => (Z.of_nat i - 1)%Z) (seq 0 1801))).
  { apply in_map_iff. exists (Z.to_nat (k + 1)). split; [lia|].
    apply in_seq. lia. }
  specialize (Hall k Hin). unfold check in Hall. cbn zeta in Hall. fold d in Hall.
  apply andb_true_iff in Hall as [Hall H7].
  apply andb_true_iff in Hall as [Hall Hhi].
  apply andb_true_iff in Hall as [Hfin Hlo].
  apply Qle_bool_iff in Hlo, Hhi.
  split; [exact Hfin|]. split; [exact Hlo|]. split; [exact Hhi|].
  intros H7k. apply orb_true_iff in H7 as [Hc|H7].
  - apply Z.ltb_lt in Hc. lia.
  - apply Qle_bool_iff in H7. exact H7.
Qed.

(** The raw distance of a frame of at most 1800 samples. *)
Lemma distance_range (samples : list Z) :
  (length samples <= 1800)%nat ->
  let r := findPrimaryReflection (num := float) samples in
  is_finite (distance r) = true /\
  - (2179 # 10000) <= F2Q (distance r) /\ F2Q (distance r) <= 3919 # 10 /\
  ((7 <= index r)%Z -> 152 # 100 <= F2Q (distance r)).
Proof.
  intros Hlen r. destruct samples as [|s samples].
  - repeat split; try (vm_compute; reflexivity); try (vm_compute; discriminate).
    vm_compute. intros Hc. exfalso. apply Hc. reflexivity.
  - assert (Hidx : (-1 <= index r < 1800)%Z).
    { destruct (peak_value_cases (num := float) (s :: samples)) as [[_ Hi]|[Hv Hi]];
        fold r in Hi.
      - lia.
      - pose proof (positive_peak_in_window (num := float) (s :: samples) Hv)
          as (_ & Hend & _).
        fold r in Hend. lia. }
    unfold r. rewrite (distance_eq (s :: samples)) by discriminate.
    apply distance_by_index. exact Hidx.
Qed.

Lemma eta64_tiny : eta64 <= 1 # 1267650600228229401496703205376.
Proof.
  change (1 # 1267650600228229401496703205376) with (2 ^ (-100)).
  apply pow2_le. lia.
Qed.

Lemma Qabs_le_of_bounds (x lo hi c : Q) :
  lo <= x -> x <= hi -> - c <= lo -> hi <= c -> Qabs x <= c.
Proof. intros. apply Qabs_Qle_condition. split; lra. Qed.

Lemma pow2_995_large : 1000 <= 2 ^ 995.
Proof.
  eapply Qle_trans; [|apply (pow2_le 10 995); lia]. discriminate.
Qed.

(** One call of the smoother on a state and a raw distance of the
    ranges that occur. *)
Lemma smooth_in_range (s v : float) :
  is_finite s = true -> is_finite v = true ->
  - (22 # 100) <= F2Q s -> F2Q s <= 392 ->
  - (2179 # 10000) <= F2Q v -> F2Q v <= 3919 # 10 ->
  let o := fst (applyExponentialSmoothing (Some s) v) in
  is_finite o = true /\
  (1 # 10) * F2Q v + (9 # 10) * F2Q s - (1 # 1000000) <= F2Q o /\
  F2Q o <= (1 # 10) * F2Q v + (9 # 10) * F2Q s + (1 # 1000000).
Proof.
  intros Hs Hv HSl HSu HVl HVu o.
  pose proof pow2_995_large as Hbig.
  pose proof (Qabs_le_of_bounds _ _ _ 392 HSl HSu ltac:(lra) ltac:(lra)) as HaS.
  pose proof (Qabs_le_of_bounds _ _ _ 392 HVl HVu ltac:(lra) ltac:(lra)) as HaV.
  destruct (smooth_step_binary64 s v Hs Hv) as [Hfin Herr]; [lra|lra|].
  fold o in Hfin, Herr. split; [exact Hfin|].
  pose proof eta64_tiny as Heta. pose proof eta64_pos as Heta0.
  pose proof (Qabs_nonneg (F2Q s)). pose proof (Qabs_nonneg (F2Q v)).
  rewrite u64_eq in Herr. unfold alphaQ, betaQ in Herr.
  apply Qabs_diff_Qle_condition in Herr.
  set (V := F2Q v) in *. set (S := F2Q s) in *.
  set (aV := Qabs V) in *. set (aS := Qabs S) in *.
  split; lra.
Qed.

Lemma smooth_stateOk (last : option float) (v : float) :
  stateOk last -> is_finite v = true ->
  - (2179 # 10000) <= F2Q v -> F2Q v <= 3919 # 10 ->
  stateOk (snd (applyExponentialSmoothing last v)).
Proof.
  intros Hlast Hv Hlo Hhi. destruct last as [s|].
  - change (snd (applyExponentialSmoothing (Some s) v))
      with (Some (fst (applyExponentialSmoothing (Some s) v))).
    cbn [stateOk] in *. destruct Hlast as (Hs & HSl & HSu).
    destruct (smooth_in_range s v Hs Hv HSl HSu Hlo Hhi) as (Hfin & Hl & Hu).
    split; [exact Hfin|]. split; lra.
  - cbn. split; [exact Hv|]. split; lra.
Qed.

Lemma handleSamples_stateOk (last : option float) (rawSamples : list Z) :
  stateOk last -> (length rawSamples <= 1800)%nat ->
  stateOk (snd (handleSamples last rawSamples)).
Proof.
  intros Hlast Hlen.
  rewrite (proj1 (handleSamples_state last rawSamples)).
  unfold processSamples.
  pose proof (distance_range rawSamples Hlen) as (Hfin & Hlo & Hhi & _).
  pose proof (smooth_stateOk last _ Hlast Hfin Hlo Hhi) as Hok.
  destruct (applyExponentialSmoothing last (distance (findPrimaryReflection rawSamples)))
    as [smoothed last'].
  exact Hok.
Qed.

Lemma handleFrames_stateOk : forall (frames : list (list Z)) (last : option float),
  stateOk last ->
  Forall (fun f => (length f <= 1800)%nat) frames ->
  stateOk (snd (handleFrames last frames)).
Proof.
  induction frames as [|raw frames IH]; intros last Hlast Hall; cbn [handleFrames].
  - exact Hlast.
  - inversion Hall as [|? ? Hraw Hrest]; subst.
    pose proof (handleSamples_stateOk last raw Hlast Hraw) as Hok.
    destruct (handleSamples last raw) as [o last'].
    specialize (IH last' Hok Hrest).
    destruct (handleFrames last' frames) as [os last'']. exact IH.
Qed.

Lemma handleSamples_strong (last : option float) (rawSamples : list Z) (distMM : Z) :
  let r := findPrimaryReflection (num := float) rawSamples in
  let smoothed := fst (applyExponentialSmoothing last (distance r)) in
  (Z.of_nat (length rawSamples) <= 65536)%Z ->
  (50 <= value r)%Z ->
  num_round (num_mul smoothed (num_of_Z 10)) = IntVal distMM ->
  (0 <= distMM < 65536)%Z ->
  fst (handleSamples last rawSamples)
  = Sent [(distMM / 256)%Z; (distMM mod 256)%Z; Z.min (value r) 255;
          (index r / 256)%Z; (index r mod 256)%Z] /\
  fst (handleSamplesGps last rawSamples)
  = Sent [(distMM / 256)%Z; (distMM mod 256)%Z; Z.min (value r) 255].
Proof.
  intros r smoothed Hlen Hstrong Hround Hrange.
  assert (Hpos : (0 < value (findPrimaryReflection (num := float) rawSamples))%Z)
    by (change (0 < value r)%Z; lia).
  pose proof (positive_peak_in_window (num := float) rawSamples Hpos)
    as (Hstart & Hend & _).
  fold r in Hstart, Hend.
  unfold handleSamples, handleSamplesGps. fold r. unfold smoothed in Hround.
  destruct (applyExponentialSmoothing last (distance r)) as [sm last'].
  cbn [fst] in Hround. rewrite Hround.
  rewrite (writeUInt16BE_IntVal distMM) by lia.
  rewrite (writeUInt8_peakVal (value r)) by lia.
  rewrite (writeUInt16BE_IntVal (index r)) by lia.
  destruct (Z.ltb_spec (value r) 50) as [Hc|_]; [lia|]. split; reflexivity.
Qed.

(** The product by ten that precedes [Math.round]. *)
Lemma times_ten (o : float) :
  is_finite o = true -> - 1 <= F2Q o -> F2Q o <= 392 ->
  let x := num_mul o (num_of_Z (num := float) 10) in
  is_finite x = true /\
  10 * F2Q o - (1 # 1000000) <= F2Q x /\ F2Q x <= 10 * F2Q o + (1 # 1000000).
Proof.
  intros Ho Hlo Hhi x.
  assert (Hten : is_finite (num_of_Z (num := float) 10) = true /\
                 F2Q (num_of_Z (num := float) 10) == 10)
    by (split; vm_compute; reflexivity).
  destruct Hten as [Hften Hten].
  pose proof pow2_995_large as Hbig.
  assert (H1000 : 2 ^ 995 <= 2 ^ 1000) by (apply pow2_le; lia).
  pose proof (Qabs_le_of_bounds _ _ _ 392 Hlo Hhi ltac:(lra) ltac:(lra)) as HaO.
  destruct (mul_error o (num_of_Z 10) Ho Hften) as [Hfin Herr].
  { rewrite Hten, Qmult_comm, Qabs_scale by discriminate. lra. }
  fold x in Hfin. split; [exact Hfin|].
  change (PrimFloat.mul o (num_of_Z 10)) with x in Herr.
  rewrite Hten, (Qmult_comm (F2Q o)), Qabs_scale in Herr by discriminate.
  rewrite u64_eq in Herr.
  pose proof eta64_tiny as Heta. pose proof eta64_pos as Heta0.
  pose proof (Qabs_nonneg (F2Q o)).
  apply Qabs_diff_Qle_condition in Herr.
  set (O := F2Q o) in *. set (aO := Qabs O) in *.
  split; lra.
Qed.

(** X17: a frame with a peak of at least 50 at index 7 or beyond is
    always sent, whatever frames of at most 1800 samples came before. In
    binary64 the smoothed distance is finite and
    [Math.round(smoothed * 10)] is an integer between 0 and 3920, so no
    write throws: server.js sends that number, the peak value capped at
    255 and the peak index, each big-endian, and server-gps-d3-serial.js
    the first three of these bytes. *)
Theorem X17_strong_frames_are_sent (frames : list (list Z)) (rawSamples : list Z) :
  Forall (fun f => (length f <= 1800)%nat) frames ->
  (length rawSamples <= 1800)%nat ->
  let last := snd (handleFrames (num := float) None frames) in
  let r := findPrimaryReflection (num := float) rawSamples in
  let smoothed := fst (applyExponentialSmoothing last (distance r)) in
  (50 <= value r)%Z ->
  (7 <= index r)%Z ->
  exists distMM : Z,
    num_round (num_mul smoothed (num_of_Z 10)) = IntVal distMM /\
    (0 <= distMM <= 3920)%Z /\
    fst (handleSamples last rawSamples)
    = Sent [(distMM / 256)%Z; (distMM mod 256)%Z; Z.min (value r) 255;
            (index r / 256)%Z; (index r mod 256)%Z] /\
    fst (handleSamplesGps last rawSamples)
    = Sent [(distMM / 256)%Z; (distMM mod 256)%Z; Z.min (value r) 255].
Proof.
  intros Hall Hlen last r smoothed Hstrong Hidx.
  assert (Hlast : stateOk last) by (apply handleFrames_stateOk; [exact I|exact Hall]).
  pose proof (distance_range rawSamples Hlen) as (Hfd & Hdlo & Hdhi & Hd7).
  fold r in Hfd, Hdlo, Hdhi, Hd7. specialize (Hd7 Hidx).
  assert (Hsm : is_finite smoothed = true /\
                - (47 # 1000) <= F2Q smoothed /\ F2Q smoothed <= 392).
  { unfold smoothed. destruct last as [s|].
    - cbn [stateOk] in Hlast. destruct Hlast as (Hs & HSl & HSu).
      destruct (smooth_in_range s (distance r) Hs Hfd HSl HSu Hdlo Hdhi)
        as (Hfin & Hl & Hu).
      split; [exact Hfin|]. split; lra.
    - change (fst (applyExponentialSmoothing None (distance r))) with (distance r).
      split; [exact Hfd|]. split; lra. }
  destruct Hsm as (Hfin & Hl & Hu).
  destruct (times_ten smoothed Hfin ltac:(lra) Hu) as (Hfx & Hxl & Hxu).
  set (x := num_mul smoothed (num_of_Z 10)) in *.
  set (distMM := Qfloor (F2Q x + (1 # 2))).
  assert (Hround : num_round x = IntVal distMM) by (apply float_round_spec; exact Hfx).
  assert (Hrange : (0 <= distMM <= 3920)%Z).
  { pose proof (Qfloor_le (F2Q x + (1 # 2))) as Hfl.
    pose proof (Qlt_floor (F2Q x + (1 # 2))) as Hlt.
    fold distMM in Hfl, Hlt. split.
    - assert (Hq : inject_Z 0 < inject_Z (distMM + 1)).
      { change (inject_Z 0) with 0. lra. }
      rewrite <- Zlt_Qlt in Hq. lia.
    - assert (Hq : inject_Z distMM < inject_Z 3921).
      { change (inject_Z 3921) with (3921 # 1). lra. }
      rewrite <- Zlt_Qlt in Hq. lia. }
  exists distMM. split; [exact Hround|]. split; [exact Hrange|].
  apply handleSamples_strong; [lia|exact Hstrong|exact Hround|lia].
Qed.

(** X18: a dropout can cost the next good frame. When the very first
    frame has no echo, its raw distance -0.2178 becomes the state; when
    the second frame then has a peak of at least 50 at an index up to 6,
    its smoothed distance is still negative in binary64,
    [Math.round(smoothed * 10)] is below zero and [writeUInt16BE] throws:
    both handlers drop the frame in their [catch]. *)
Theorem X18_low_peak_after_dropout_is_lost (raw0 rawSamples : list Z) :
  raw0 <> [] ->
  index (findPrimaryReflection (num := float) raw0) = (-1)%Z ->
  (50 <= value (findPrimaryReflection (num := float) rawSamples))%Z ->
  (index (findPrimaryReflection (num := float) rawSamples) <= 6)%Z ->
  let last := snd (handleSamples (num := float) None raw0) in
  let r := findPrimaryReflection (num := float) rawSamples in
  let smoothed := fst (applyExponentialSmoothing last (distance r)) in
  (exists distMM : Z,
     num_round (num_mul smoothed (num_of_Z 10)) = IntVal distMM /\ (distMM < 0)%Z) /\
  fst (handleSamples last rawSamples) = Caught /\
  fst (handleSamplesGps last rawSamples) = Caught.
Proof.
  intros Hne Hi0 Hstrong Hidx last r smoothed.
  assert (Hlast : last = Some (num_mul (num_of_Z (-1)) SAMPLE_RESOLUTION)).
  { unfold last. rewrite (proj1 (handleSamples_state None raw0)).
    unfold processSamples. rewrite (distance_eq raw0 Hne), Hi0. reflexivity. }
  assert (Hpos : (0 < value (findPrimaryReflection (num := float) rawSamples))%Z) by lia.
  pose proof (positive_peak_in_window (num := float) rawSamples Hpos) as (Hstart & Hend & _).
  fold r in Hstart, Hend, Hstrong, Hidx.
  assert (Hnonempty : rawSamples <> []).
  { intros Hc. rewrite Hc in Hend.
    change (Z.of_nat (length [])) with 0%Z in Hend. lia. }
  pose proof (distance_eq (num := float) rawSamples Hnonempty) as Hd. fold r in Hd.
  set (check := fun k : Z =>
         match num_round
                 (num_mul
                    (fst (applyExponentialSmoothing
                            (Some (num_mul (num_of_Z (-1)) (SAMPLE_RESOLUTION (num := float))))
                            (num_mul (num_of_Z k) SAMPLE_RESOLUTION)))
                    (num_of_Z 10)) with
         | IntVal z => (z <? 0)%Z
         | _ => false
         end).
  assert (Hall : forallb check [0; 1; 2; 3; 4; 5; 6]%Z = true) by (vm_compute; reflexivity).
  rewrite forallb_forall in Hall.
  assert (Hin : In (index r) [0; 1; 2; 3; 4; 5; 6]%Z).
  { cbn [In]. lia. }
  specialize (Hall _ Hin). unfold check in Hall.
  rewrite <- Hd, <- Hlast in Hall. fold smoothed in Hall.
  destruct (num_round (num_mul smoothed (num_of_Z 10))) as [z| |negative] eqn:Hround;
    try discriminate Hall.
  apply Z.ltb_lt in Hall.
  split; [exists z; split; [reflexivity|exact Hall]|].
  unfold handleSamples, handleSamplesGps. fold r. unfold smoothed in Hround.
  destruct (applyExponentialSmoothing last (distance r)) as [sm last'].
  cbn [fst] in Hround. rewrite Hround.
  unfold writeUInt16BE at 1 3.
  destruct (Z.ltb_spec z 0) as [_|Hc]; [|lia].
  rewrite orb_true_r.
  destruct (Z.ltb_spec (value r) 50) as [Hc|_]; [lia|]. split; reflexivity.
Qed.

End HandlerBinary64.

Section HandlerBinary64Examples.
Import Echo Spec SonarHandler Wire.

Lemma X17_witness :
  let last := snd (handleFrames (num := float) None [constSamples 1800 0]) in
  let r := findPrimaryReflection (num := float) (spike 700 200) in
  let smoothed := fst (applyExponentialSmoothing last (distance r)) in
  (exists distMM : Z,
     num_round (num_mul smoothed (num_of_Z 10)) = IntVal distMM /\
     (0 <= distMM <= 3920)%Z /\
     fst (handleSamples last (spike 700 200))
     = Sent [(distMM / 256)%Z; (distMM mod 256)%Z; Z.min (value r) 255;
             (index r / 256)%Z; (index r mod 256)%Z] /\
     fst (handleSamplesGps last (spike 700 200))
     = Sent [(distMM / 256)%Z; (distMM mod 256)%Z; Z.min (value r) 255]) /\
  handleSamples last (spike 700 200)
  = (Sent [0; 150; 200; 2; 188], Some 15.049980000000001%float).
Proof.
  intros last r smoothed. split.
  - apply (X17_strong_frames_are_sent [constSamples 1800 0] (spike 700 200)).
    + constructor; [|constructor]. vm_compute. lia.
    + vm_compute. lia.
    + vm_compute. intros Hc. discriminate Hc.
    + vm_compute. intros Hc. discriminate Hc.
  - vm_compute. reflexivity.
Defined.

Lemma X18_witness :
  let last := snd (handleSamples (num := float) None (constSamples 1800 0)) in
  let r := findPrimaryReflection (num := float) (constSamples 1800 60) in
  let smoothed := fst (applyExponentialSmoothing last (distance r)) in
  ((exists distMM : Z,
      num_round (num_mul smoothed (num_of_Z 10)) = IntVal distMM /\ (distMM < 0)%Z) /\
   fst (handleSamples last (constSamples 1800 60)) = Caught /\
   fst (handleSamplesGps last (constSamples 1800 60)) = Caught) /\
  handleFrames (num := float) None [constSamples 1800 0; constSamples 1800 60]
  = ([Caught; Caught], Some (-0.19602)%float).
Proof.
  intros last r smoothed. split.
  - apply (X18_low_peak_after_dropout_is_lost (constSamples 1800 0) (constSamples 1800 60)).
    + discriminate.
    + vm_compute. reflexivity.
    + vm_compute. intros Hc. discriminate Hc.
    + vm_compute. intros Hc. discriminate Hc.
  - vm_compute. reflexivity.
Defined.

End HandlerBinary64Examples.

Section LoggerFacts.
Import Echo Spec Logger.
Context {num : Type} `{JsNum num}.
Context {coord : Type} (truthy : coord -> bool).


(** What one call changes, by what it did. *)
Lemma processDataPacket_cases (st : State num coord) (currentTime : Z) (rawSamples : list Z) :
  let st' := fst (processDataPacket truthy st currentTime rawSamples) in
  let action := snd (processDataPacket truthy st currentTime rawSamples) in
  currentGpsData st' = currentGpsData st /\
  lastSmoothedDistance st'
  = lastSmoothedDistance' (processSamples (lastSmoothedDistance st) rawSamples) /\
  match action with
  | SkipWeak =>
      value (findPrimaryReflection rawSamples) < 50 /\
      lastDbWriteTimestamp st' = lastDbWriteTimestamp st
  | Throttled =>
      currentTime < lastDbWriteTimestamp st + DB_WRITE_INTERVAL_MS /\
      lastDbWriteTimestamp st' = lastDbWriteTimestamp st
  | NoGps =>
      lastDbWriteTimestamp st + DB_WRITE_INTERVAL_MS <= currentTime /\
      lastDbWriteTimestamp st' = currentTime /\
      (initialized (currentGpsData st) = false \/
       isTruthy truthy (lat (currentGpsData st)) = false \/
       isTruthy truthy (lon (currentGpsData st)) = false)
  | Insert timestamp latitude longitude max_value max_sample_index max_distance_cm =>
      lastDbWriteTimestamp st + DB_WRITE_INTERVAL_MS <= currentTime /\
      lastDbWriteTimestamp st' = currentTime /\
      timestamp = currentTime /\
      initialized (currentGpsData st) = true /\
      lat (currentGpsData st) = Some latitude /\
      lon (currentGpsData st) = Some longitude /\
      max_value = value (findPrimaryReflection rawSamples) /\
      max_sample_index = index (findPrimaryReflection rawSamples) /\
      50 <= max_value
  end.
Proof.
  unfold processDataPacket, processSamples.
  destruct (applyExponentialSmoothing (lastSmoothedDistance st)
              (distance (findPrimaryReflection rawSamples))) as [smoothed last'].
  destruct (Z.ltb_spec (value (findPrimaryReflection rawSamples)) 50) as [Hweak|Hstrong];
    [cbn; auto|].
  destruct (Z.ltb_spec (currentTime - lastDbWriteTimestamp st) DB_WRITE_INTERVAL_MS)
    as [Hthr|Hfree]; [cbn; split; [reflexivity|split; [reflexivity|split; [lia|reflexivity]]]|].
  unfold getGpsCoordinates.
  destruct (initialized (currentGpsData st)) eqn:Hinit; cbn [negb fst snd].
  2:{ cbn. split; [reflexivity|split; [reflexivity|split; [lia|auto]]]. }
  destruct (lat (currentGpsData st)) as [la|] eqn:Hlat; cbn [isTruthy].
  2:{ cbn. split; [reflexivity|split; [reflexivity|split; [lia|auto]]]. }
  destruct (truthy la) eqn:Hla; cbn [negb orb].
  2:{ cbn. split; [reflexivity|split; [reflexivity|split; [lia|auto]]]. }
  destruct (lon (currentGpsData st)) as [lo|] eqn:Hlon; cbn [isTruthy].
  2:{ cbn. split; [reflexivity|split; [reflexivity|split; [lia|auto]]]. }
  destruct (truthy lo) eqn:Hlo; cbn [negb].
  2:{ cbn. split; [reflexivity|split; [reflexivity|split; [lia|auto]]]. }
  cbn. repeat split; try reflexivity; lia.
Qed.

Lemma spaced_from (gap from from' : Z) (times : list Z) :
  from' <= from -> spaced gap from times -> spaced gap from' times.
Proof. destruct times as [|t rest]; cbn; [auto|]. intros Hle [Ht Hrest]. split; [lia|auto]. Qed.

Lemma run_spaced : forall (events : list (Event coord)) (st : State num coord),
  spaced DB_WRITE_INTERVAL_MS (lastDbWriteTimestamp st)
    (insertTimes (snd (run truthy st events))) /\
  (forall t, In t (insertTimes (snd (run truthy st events))) ->
             t <= lastDbWriteTimestamp (fst (run truthy st events))) /\
  lastDbWriteTimestamp st <= lastDbWriteTimestamp (fst (run truthy st events)).
Proof.
  assert (Hgap : DB_WRITE_INTERVAL_MS = 5000) by reflexivity.
  induction events as [|[report|currentTime rawSamples] events IH]; intros st;
    cbn [run].
  - cbn. split; [exact I|]. split; [intros t []|lia].
  - apply (IH (mkState (lastSmoothedDistance st) (lastDbWriteTimestamp st)
                 (onReport truthy (currentGpsData st) report))).
  - pose proof (processDataPacket_cases st currentTime rawSamples) as Hcases.
    cbn zeta in Hcases.
    destruct (processDataPacket truthy st currentTime rawSamples) as [st' action].
    cbn [fst snd] in Hcases. destruct Hcases as (_ & _ & Hact).
    specialize (IH st'). destruct (run truthy st' events) as [st'' trace].
    cbn [fst snd] in *. destruct IH as (Hsp & Hin & Hle).
    destruct action as [| | |ts la lo mv mi md]; cbn [insertTimes].
    + destruct Hact as [_ Heq]. rewrite Heq in *. auto.
    + destruct Hact as [_ Heq]. rewrite Heq in *. auto.
    + destruct Hact as (Hfree & Heq & _). rewrite Heq in *.
      split; [apply (spaced_from _ currentTime); [lia|exact Hsp]|]. split; [exact Hin|lia].
    + destruct Hact as (Hfree & Heq & _). rewrite Heq in *.
      split; [cbn [spaced]; split; [lia|exact Hsp]|]. split; [|lia].
      intros t [<-|Ht]; [exact Hle|apply Hin; exact Ht].
Qed.

(** X19: database writes are at least five seconds apart. In every run
    of the logger, each frame that is inserted has a timestamp at least
    [DB_WRITE_INTERVAL_MS] above that of the frame inserted before it, and
    the first one at least that much above the initial
    [lastDbWriteTimestamp]; nothing is assumed about the clock. *)
Theorem X19_inserts_are_spaced (st : State num coord) (events : list (Event coord)) :
  spaced DB_WRITE_INTERVAL_MS (lastDbWriteTimestamp st)
    (insertTimes (snd (run truthy st events))).
Proof. apply run_spaced. Qed.

Lemma run_reports (st : State num coord) (reports : list (Report coord)) :
  run truthy st (map GpsReport reports)
  = (mkState (lastSmoothedDistance st) (lastDbWriteTimestamp st)
       (fold_left (onReport truthy) reports (currentGpsData st)), []).
Proof.
  revert st. induction reports as [|report reports IH]; intros st; cbn [map run fold_left].
  - destruct st; reflexivity.
  - rewrite IH. reflexivity.
Qed.

Lemma spaced_all_later (gap : Z) : forall (times : list Z) (from : Z),
  0 <= gap -> spaced gap from times -> Forall (fun t => from + gap <= t) times.
Proof.
  induction times as [|t rest IH]; intros from Hgap Hsp; [constructor|].
  cbn [spaced] in Hsp. destruct Hsp as [Ht Hrest]. constructor; [exact Ht|].
  apply (Forall_impl _ _ _ (IH t Hgap Hrest)). intros x Hx. lia.
Qed.

(** X20: a frame that finds no GPS position still takes the write slot.
    After [processDataPacket] skipped the database for want of a position
    at time [currentTime], the slot is remembered through everything that
    follows: in every later run of the logger, whatever reports gpsd
    delivers and whatever frames arrive (weak, throttled or written, with
    any clock values), no frame with a timestamp below
    [currentTime + 5000] is inserted. *)
Theorem X20_no_gps_takes_the_slot (st st' : State num coord) (currentTime : Z)
    (rawSamples : list Z) (events : list (Event coord)) :
  processDataPacket truthy st currentTime rawSamples = (st', NoGps) ->
  lastDbWriteTimestamp st' = currentTime /\
  Forall (fun t => currentTime + DB_WRITE_INTERVAL_MS <= t)
    (insertTimes (snd (run truthy st' events))).
Proof.
  intros Hfirst.
  pose proof (processDataPacket_cases st currentTime rawSamples) as Hcases.
  cbn zeta in Hcases. rewrite Hfirst in Hcases. cbn [fst snd] in Hcases.
  destruct Hcases as (_ & _ & _ & Hlast & _).
  split; [exact Hlast|]. rewrite <- Hlast.
  apply spaced_all_later; [unfold DB_WRITE_INTERVAL_MS; lia|].
  apply run_spaced.
Qed.

Lemma onReport_gpsOk g report : gpsOk truthy g -> gpsOk truthy (onReport truthy g report).
Proof.
  unfold onReport.
  destruct (isTPV report && isTruthy truthy (reportLat report)
            && isTruthy truthy (reportLon report)) eqn:Hacc; [|auto].
  intros _ _. cbn. apply andb_true_iff in Hacc as [Hacc Hlon].
  apply andb_true_iff in Hacc as [_ Hlat]. auto.
Qed.

Lemma onReport_initialized g report :
  initialized (onReport truthy g report) = false ->
  initialized g = false /\
  isTPV report && isTruthy truthy (reportLat report)
  && isTruthy truthy (reportLon report) = false.
Proof.
  unfold onReport.
  destruct (isTPV report && isTruthy truthy (reportLat report)
            && isTruthy truthy (reportLon report)); [discriminate|auto].
Qed.

Lemma run_gps : forall (events : list (Event coord)) (st : State num coord),
  gpsOk truthy (currentGpsData st) ->
  gpsOk truthy (currentGpsData (fst (run truthy st events))) /\
  (initialized (currentGpsData (fst (run truthy st events))) = false ->
   Forall (fun event =>
             match event with
             | GpsReport report =>
                 isTPV report && isTruthy truthy (reportLat report)
                 && isTruthy truthy (reportLon report) = false
             | SonarFrame _ _ => True
             end) events).
Proof.
  induction events as [|[report|currentTime rawSamples] events IH]; intros st Hok;
    cbn [run].
  - cbn [fst]. split; [exact Hok|constructor].
  - set (st1 := mkState (lastSmoothedDistance st) (lastDbWriteTimestamp st)
                  (onReport truthy (currentGpsData st) report)).
    destruct (IH st1 (onReport_gpsOk _ report Hok)) as [Hok' Hall].
    split; [exact Hok'|]. intros Hinit. specialize (Hall Hinit).
    constructor; [|exact Hall].
    destruct (isTPV report && isTruthy truthy (reportLat report)
              && isTruthy truthy (reportLon report)) eqn:Hacc; [|reflexivity].
    exfalso.
    assert (Hmono : forall (evs : list (Event coord)) (s : State num coord),
              initialized (currentGpsData s) = true ->
              initialized (currentGpsData (fst (run truthy s evs))) = true).
    { clear. induction evs as [|[r|t raw] evs IHe]; intros s Hs; cbn [run].
      - exact Hs.
      - apply IHe. cbn. unfold onReport.
        destruct (isTPV r && isTruthy truthy (reportLat r)
                  && isTruthy truthy (reportLon r)); [reflexivity|exact Hs].
      - pose proof (processDataPacket_cases s t raw) as (Hg & _). cbn zeta in Hg.
        destruct (processDataPacket truthy s t raw) as [s' a]. cbn [fst] in Hg.
        specialize (IHe s'). destruct (run truthy s' evs) as [s'' tr]. cbn [fst] in *.
        apply IHe. rewrite Hg. exact Hs. }
    rewrite (Hmono events st1) in Hinit; [discriminate|].
    unfold st1. cbn. unfold onReport. rewrite Hacc. reflexivity.
  - pose proof (processDataPacket_cases st currentTime rawSamples) as (Hg & _).
    cbn zeta in Hg.
    destruct (processDataPacket truthy st currentTime rawSamples) as [st' action].
    cbn [fst] in Hg. specialize (IH st').
    destruct (run truthy st' events) as [st'' trace]. cbn [fst] in *.
    destruct (IH ltac:(rewrite Hg; exact Hok)) as [Hok' Hall].
    split; [exact Hok'|]. intros Hinit. constructor; [exact I|apply Hall; exact Hinit].
Qed.

(** X21: the database is skipped for want of a position only before the
    first fix. In a run from the initial state, when a frame is answered
    with [NoGps], none of the reports seen so far was a TPV report with a
    truthy latitude and longitude; in particular a report with latitude
    or longitude 0 never counts as a fix. *)
Theorem X21_no_gps_only_before_first_fix (events : list (Event coord)) (currentTime : Z)
    (rawSamples : list Z) :
  let st := fst (run truthy (initialState (num := num)) events) in
  snd (processDataPacket truthy st currentTime rawSamples) = NoGps ->
  Forall (fun event =>
            match event with
            | GpsReport report =>
                isTPV report && isTruthy truthy (reportLat report)
                && isTruthy truthy (reportLon report) = false
            | SonarFrame _ _ => True
            end) events.
Proof.
  intros st Hno.
  assert (H0 : gpsOk truthy (currentGpsData (initialState (num := num) (coord := coord)))).
  { intros Hc. discriminate Hc. }
  destruct (run_gps events _ H0) as [Hok Hall]. fold st in Hok, Hall.
  apply Hall.
  pose proof (processDataPacket_cases st currentTime rawSamples) as Hcases.
  cbn zeta in Hcases. rewrite Hno in Hcases.
  destruct Hcases as (_ & _ & _ & _ & [Hinit|[Hlat|Hlon]]); [exact Hinit| |].
  - destruct (initialized (currentGpsData st)) eqn:Hi; [|reflexivity].
    destruct (Hok Hi) as [Hc _]. congruence.
  - destruct (initialized (currentGpsData st)) eqn:Hi; [|reflexivity].
    destruct (Hok Hi) as [_ Hc]. congruence.
Qed.

End LoggerFacts.

Section LoggerExamples.
Import Echo Spec Logger.

Lemma X19_witness :
  spaced DB_WRITE_INTERVAL_MS 0
    (insertTimes
       (snd (run (num := float) nonzero initialState
               [GpsReport (mkReport true (Some 52370000) (Some 4890000));
                SonarFrame 1000000 (spike 700 200);
                SonarFrame 1002000 (spike 700 200);
                SonarFrame 1005000 (spike 700 200)]))) /\
  insertTimes
    (snd (run (num := float) nonzero initialState
            [GpsReport (mkReport true (Some 52370000) (Some 4890000));
             SonarFrame 1000000 (spike 700 200);
             SonarFrame 1002000 (spike 700 200);
             SonarFrame 1005000 (spike 700 200)]))
  = [1000000; 1005000].
Proof.
  split.
  - apply (X19_inserts_are_spaced (num := float) nonzero initialState).
  - vm_compute. reflexivity.
Defined.

Lemma X20_witness :
  let st' := fst (processDataPacket (num := float) nonzero initialState 1000000
                    (spike 700 200)) in
  let events :=
    [GpsReport (mkReport true (Some 52370000) (Some 4890000));
     SonarFrame 1002000 (spike 700 200);
     SonarFrame 1003000 (spike 700 10);
     SonarFrame 1004999 (spike 700 200);
     SonarFrame 1005000 (spike 700 200);
     SonarFrame 1007000 (spike 700 200)] in
  (lastDbWriteTimestamp st' = 1000000 /\
   Forall (fun t => 1000000 + DB_WRITE_INTERVAL_MS <= t)
     (insertTimes (snd (run nonzero st' events)))) /\
  map (fun reply => insertTimes [reply]) (snd (run nonzero st' events))
  = [[]; []; []; [1005000]; []].
Proof.
  intros st' events. split.
  - apply (X20_no_gps_takes_the_slot (num := float) nonzero initialState st' 1000000
             (spike 700 200) events).
    vm_compute. reflexivity.
  - vm_compute. reflexivity.
Defined.

Lemma X21_witness :
  Forall (fun event =>
            match event with
            | GpsReport report =>
                isTPV report && isTruthy nonzero (reportLat report)
                && isTruthy nonzero (reportLon report) = false
            | SonarFrame _ _ => True
            end)
    [GpsReport (mkReport true (Some 0) (Some 4890000));
     SonarFrame (coord := Z) 1000 (spike 700 200)].
Proof.
  apply (X21_no_gps_only_before_first_fix (num := float) nonzero
           [GpsReport (mkReport true (Some 0) (Some 4890000));
            SonarFrame 1000 (spike 700 200)]
           1000000 (spike 700 200)).
  vm_compute. reflexivity.
Defined.

End LoggerExamples.

Section RangeFacts.
Import Buf Decoder Spec Wire Range.

Lemma readUInt16BE_range buffer offset v :
  Forall isByte buffer -> readUInt16BE buffer offset = Some v -> 0 <= v < 65536.
Proof.
  intros Hbytes. unfold readUInt16BE.
  destruct (buffer !! offset) as [hi|] eqn:Hhi; [|discriminate].
  destruct (buffer !! S offset) as [lo|] eqn:Hlo; [|discriminate].
  intros Heq. injection Heq as <-.
  rewrite Forall_lookup in Hbytes.
  pose proof (Hbytes _ _ Hhi) as H1. pose proof (Hbytes _ _ Hlo) as H0.
  unfold isByte in *. change (2 ^ 8) with 256. lia.
Qed.

Lemma testbit_15 u : 0 <= u < 65536 -> Z.testbit u 15 = (32768 <=? u).
Proof.
  intros Hu. rewrite Z.testbit_odd, Z.shiftr_div_pow2 by lia.
  change (2 ^ 15) with 32768.
  destruct (Z.leb_spec 32768 u) as [Hge|Hlt].
  - replace (u / 32768) with 1; [reflexivity|].
    apply Z.div_unique with (r := u - 32768); lia.
  - rewrite Z.div_small by lia. reflexivity.
Qed.

Lemma readInt16BE_range buffer offset v :
  Forall isByte buffer -> readInt16BE buffer offset = Some v -> -32768 <= v < 32768.
Proof.
  intros Hbytes. unfold readInt16BE.
  destruct (readUInt16BE buffer offset) as [u|] eqn:Hu; [|discriminate].
  apply readUInt16BE_range in Hu; [|exact Hbytes].
  intros Heq. rewrite testbit_15 in Heq by exact Hu. injection Heq as <-.
  destruct (Z.leb_spec 32768 u); lia.
Qed.

Lemma readSamples_range buffer base : forall n i vs,
  Forall isByte buffer -> readSamples buffer base i n = Some vs ->
  length vs = n /\ Forall (fun v => 0 <= v < 65536) vs.
Proof.
  induction n as [|n IH]; intros i vs Hbytes; cbn [readSamples].
  - intros Heq. injection Heq as <-. split; [reflexivity|constructor].
  - destruct (readUInt16BE buffer (base + i * 2)) as [v|] eqn:Hv; [|discriminate].
    destruct (readSamples buffer base (S i) n) as [vs'|] eqn:Hvs; [|discriminate].
    intros Heq. injection Heq as <-.
    destruct (IH _ _ Hbytes Hvs) as [Hlen Hall].
    split; [cbn; lia|]. constructor; [|exact Hall].
    exact (readUInt16BE_range _ _ _ Hbytes Hv).
Qed.

Lemma unpack_range payload frame :
  Forall isByte payload -> unpack payload = Some frame -> frameInRange frame.
Proof.
  intros Hbytes. unfold unpack.
  destruct (readUInt16BE payload 0) as [d|] eqn:Hd; [|discriminate].
  destruct (readInt16BE payload 2) as [t|] eqn:Ht; [|discriminate].
  destruct (readUInt16BE payload 4) as [w|] eqn:Hw; [|discriminate].
  destruct (negb (length (drop 6 payload) =? NUM_SAMPLES * 2)%nat); [discriminate|].
  destruct (readSamples (drop 6 payload) 0 0 NUM_SAMPLES) as [vs|] eqn:Hvs;
    [|discriminate].
  intros Heq. injection Heq as <-.
  destruct (readSamples_range _ _ _ _ _ (Forall_drop _ _ _ Hbytes) Hvs) as [Hlen Hall].
  unfold frameInRange. cbn.
  split; [exact (readUInt16BE_range _ _ _ Hbytes Hd)|].
  split; [exact (readInt16BE_range _ _ _ Hbytes Ht)|].
  split; [exact (readUInt16BE_range _ _ _ Hbytes Hw)|]. auto.
Qed.

Lemma skipJunk_bytes buffer : Forall isByte buffer -> Forall isByte (skipJunk buffer).
Proof.
  induction 1 as [|b buffer Hb Hrest IH]; cbn [skipJunk]; [constructor|].
  destruct (b =? HEADER_BYTE); [constructor; assumption|exact IH].
Qed.

Lemma drain_range : forall fuel buffer frames buffer',
  Forall isByte buffer ->
  drain fuel buffer = Some (frames, buffer') ->
  Forall frameInRange frames /\ Forall isByte buffer'.
Proof.
  induction fuel as [|fuel IH]; intros buffer frames buffer' Hbytes; [discriminate|].
  rewrite drain_step.
  destruct (PACKET_SIZE <=? length buffer)%nat.
  2:{ intros Heq. injection Heq as <- <-. split; [constructor|exact Hbytes]. }
  pose proof (skipJunk_bytes buffer Hbytes) as Hskip.
  destruct (length (skipJunk buffer) <? PACKET_SIZE)%nat.
  { intros Heq. injection Heq as <- <-. split; [constructor|exact Hskip]. }
  destruct (drain fuel (drop PACKET_SIZE (skipJunk buffer))) as [[fs b]|] eqn:Hd;
    [|discriminate].
  intros Heq. injection Heq as <- <-.
  destruct (IH _ _ _ (Forall_drop _ _ _ Hskip) Hd) as [Hfs Hb].
  split; [|exact Hb]. apply Forall_app. split; [|exact Hfs].
  unfold processPacket.
  destruct (unpack (slice (take PACKET_SIZE (skipJunk buffer)) 1 (PACKET_SIZE - 1)))
    as [frame|] eqn:Hu; [|constructor].
  constructor; [|constructor]. apply (unpack_range _ _) in Hu; [exact Hu|].
  unfold slice. apply Forall_take, Forall_drop, Forall_take. exact Hskip.
Qed.

(** X22: what server.js hands to its clients fits the wire types. When
    the bytes received are bytes, every frame sent has a depth index and
    a drive voltage in [0, 65535], a temperature in [-32768, 32767] and
    exactly 1800 samples in [0, 65535]. *)
Theorem X22_frames_sent_are_in_range (buffer data : list Z)
    (frames : list Frame) (buffer' : list Z) :
  Forall isByte buffer ->
  Forall isByte data ->
  on_data buffer data = Some (frames, buffer') ->
  Forall frameInRange frames /\ Forall isByte buffer'.
Proof.
  intros Hb Hd Hrun. unfold on_data in Hrun.
  apply (drain_range _ _ _ _ (proj2 (Forall_app _ _ _) (conj Hb Hd)) Hrun).
Qed.

Lemma X22_witness :
  let packet := mkPacketBytes (repeat 255 3606) in
  exists frame,
    on_data [1; 2] packet = Some ([frame], []) /\
    Forall frameInRange [frame] /\ Forall isByte [].
Proof.
  intros packet. eexists. split; [vm_compute; reflexivity|].
  apply (X22_frames_sent_are_in_range [1; 2] packet).
  - repeat constructor; unfold isByte; lia.
  - unfold packet, mkPacketBytes. constructor; [unfold isByte, HEADER_BYTE; lia|].
    apply Forall_app. split.
    + apply Forall_forall. intros b Hb. apply list_elem_of_In, repeat_spec in Hb.
      subst b. unfold isByte. lia.
    + constructor; [|constructor]. vm_compute. split; [discriminate|reflexivity].
  - vm_compute. reflexivity.
Defined.

End RangeFacts.
